(** * gps_read: NMEA-0183 sentence decoding and fix-state accumulation

    A shallow embedding of [gps_read.py] and the properties of its
    validator, field converters, sentence decoder, state merger and
    emission gate.

    Conventions of the embedding.
    - A Python [str] is a [string]; its characters are the code points
      0..255, and the program itself only ever sees code points below 128,
      because [main] decodes every line with
      [raw.decode('ascii', errors='ignore')].
    - A Python [float] is a primitive binary64 [float]; the operations that
      IEEE 754 defines are the primitive ones, and the operations that are
      exact by definition (string to float, [fmod], [floor], int
      conversions) go through [Prim2SF] / [SF2Prim] and integer arithmetic.
    - A Python [int] is a [Z].
    - A raised exception is the [Raise] case of [result]; a function that
      cannot raise returns its value directly.
    - A [dict] with string keys is a [gmap string _].
    - The clock ([time.time()], [datetime.now]) is an explicit argument. *)

From Stdlib Require Import ZArith Floats Ascii String List Bool Lia Sorted.
From stdpp Require Import gmap strings list.

#[local] Set Warnings "-inexact-float".
#[local] Open Scope Z_scope.

(** ** Exceptions *)

Inductive exn : Type :=
| ValueError | OverflowError | ZeroDivisionError | TypeError | AttributeError
| KeyError.

Inductive result (A : Type) : Type :=
| Ok (a : A)
| Raise (e : exn).
Arguments Ok {A} a.
Arguments Raise {A} e.

#[global] Instance result_ret : MRet result := @Ok.
#[global] Instance result_bind : MBind result :=
  λ A B f m, match m with Ok a => f a | Raise e => Raise e end.
#[global] Instance result_fmap : FMap result :=
  λ A B f m, match m with Ok a => Ok (f a) | Raise e => Raise e end.

(** ** Characters and strings *)

Module Str.

Definition code (c : ascii) : Z := Z.of_N (N_of_ascii c).

Definition chars : string → list ascii := list_ascii_of_string.
Definition of_chars : list ascii → string := string_of_list_ascii.

(** ['0' <= c <= '9'] *)
Definition is_digit (c : ascii) : bool := (48 <=? code c) && (code c <=? 57).
Definition digit_val (c : ascii) : Z := code c - 48.

(** [Py_ISSPACE]: the C-locale white space used by [int()] and [float()]. *)
Definition c_isspace (c : ascii) : bool :=
  ((9 <=? code c) && (code c <=? 13)) || (code c =? 32).

(** [Py_UNICODE_ISSPACE] on code points below 256, used by [str.strip]. *)
Definition unicode_isspace (c : ascii) : bool :=
  c_isspace c || ((28 <=? code c) && (code c <=? 31))
  || (code c =? 133) || (code c =? 160).

(** [str.isdigit] on code points below 256: the ASCII digits and the
    superscripts two, three and one. *)
Definition isdigit_char (c : ascii) : bool :=
  is_digit c || (code c =? 178) || (code c =? 179) || (code c =? 185).

Definition isdigit (s : string) : bool :=
  match chars s with [] => false | cs => forallb isdigit_char cs end.

(** [bool(s)] for a string: non-empty. *)
Definition truthy (s : string) : bool :=
  match s with EmptyString => false | String _ _ => true end.

Definition len (s : string) : nat := String.length s.

(** [s[i:j]], [s[i:]], [s[-n:]] and [s[:-n]] for non-negative [i], [j], [n]. *)
Definition slice (i j : nat) (s : string) : string :=
  of_chars (take (j - i) (drop i (chars s))).
Definition slice_from (i : nat) (s : string) : string :=
  of_chars (drop i (chars s)).
Definition last_n (n : nat) (s : string) : string :=
  of_chars (drop (length (chars s) - n) (chars s)).
Definition drop_last (n : nat) (s : string) : string :=
  of_chars (take (length (chars s) - n) (chars s)).

Fixpoint lstrip_by (p : ascii → bool) (cs : list ascii) : list ascii :=
  match cs with
  | c :: cs' => if p c then lstrip_by p cs' else cs
  | [] => []
  end.
Definition rstrip_by (p : ascii → bool) (cs : list ascii) : list ascii :=
  rev (lstrip_by p (rev cs)).

(** [s.strip()] *)
Definition strip (s : string) : string :=
  of_chars (rstrip_by unicode_isspace (lstrip_by unicode_isspace (chars s))).

(** [s.upper()] on ASCII letters (the program applies it to hex digits only). *)
Definition upper_char (c : ascii) : ascii :=
  if (97 <=? code c) && (code c <=? 122)
  then ascii_of_N (Z.to_N (code c - 32)) else c.
Definition upper (s : string) : string := of_chars (map upper_char (chars s)).

(** [s.startswith(c)] for a one-character prefix *)
Definition startswith (c : ascii) (s : string) : bool :=
  match s with String c' _ => Ascii.eqb c' c | EmptyString => false end.

(** [s.split(sep)] for a one-character separator: never the empty list. *)
Fixpoint split (sep : ascii) (s : string) : list string :=
  match s with
  | EmptyString => [EmptyString]
  | String c s' =>
      if Ascii.eqb c sep then EmptyString :: split sep s'
      else match split sep s' with
           | w :: ws => String c w :: ws
           | [] => [String c EmptyString]
           end
  end.

(** [s.replace(old, new)]: every non-overlapping occurrence, left to right
    ([old] non-empty). *)
Fixpoint replace_chars (fuel : nat) (old new cs : list ascii) : list ascii :=
  match fuel with
  | O => cs
  | S fuel' =>
      if bool_decide (take (length old) cs = old)
      then new ++ replace_chars fuel' old new (drop (length old) cs)
      else match cs with
           | c :: cs' => c :: replace_chars fuel' old new cs'
           | [] => []
           end
  end.
Definition replace (old new s : string) : string :=
  of_chars (replace_chars (S (len s)) (chars old) (chars new) (chars s)).

End Str.

(** ** Python numbers: [int(str)], [float(str)] and float arithmetic *)

Module Num.
Import Str.

(** [_PyUnicode_TransformDecimalAndSpaceToASCII]: an ASCII string is kept as
    it is; otherwise white space becomes a blank and the first other
    character from 127 on becomes ['?'] and ends the string. *)
Fixpoint transform_chars (cs : list ascii) : list ascii :=
  match cs with
  | [] => []
  | c :: cs' =>
      if code c <? 127 then c :: transform_chars cs'
      else if unicode_isspace c then " "%char :: transform_chars cs'
      else ["?"%char]
  end.
Definition to_ascii_decimal_space (cs : list ascii) : list ascii :=
  if forallb (λ c, code c <? 128) cs then cs else transform_chars cs.

(** Leading and trailing [Py_ISSPACE] characters are skipped. *)
Definition strip_c (cs : list ascii) : list ascii :=
  rstrip_by c_isspace (lstrip_by c_isspace cs).

(** The longest prefix of decimal digits and the rest. *)
Fixpoint span_digits (cs : list ascii) : list ascii * list ascii :=
  match cs with
  | c :: cs' =>
      if is_digit c
      then let '(ds, rest) := span_digits cs' in (c :: ds, rest)
      else ([], cs)
  | [] => ([], [])
  end.

Definition digits_val (ds : list ascii) : Z :=
  fold_left (λ acc c, 10 * acc + digit_val c) ds 0.

(** An optional sign: [true] for ['-']. *)
Definition read_sign (cs : list ascii) : bool * list ascii :=
  match cs with
  | "-"%char :: cs' => (true, cs')
  | "+"%char :: cs' => (false, cs')
  | _ => (false, cs)
  end.

(** Underscores of a numeric literal: each one sits between two digits.
    [None] when one is misplaced; otherwise the string without them. *)
Fixpoint drop_underscores (prev : option ascii) (cs : list ascii)
  : option (list ascii) :=
  match cs with
  | [] => if bool_decide (prev = Some "_"%char) then None else Some []
  | c :: cs' =>
      if Ascii.eqb c "_"
      then match prev with
           | Some p => if is_digit p then drop_underscores (Some c) cs' else None
           | None => None
           end
      else if bool_decide (prev = Some "_"%char) && negb (is_digit c) then None
      else (c ::.) <$> drop_underscores (Some c) cs'
  end.

(** [sys.int_info.default_max_str_digits], the limit of [int()] on the
    number of digits of a decimal string. *)
Definition max_str_digits : Z := 4300.

(** [int(s)] in base 10: white space, a sign, digits with single
    underscores between them, white space; more than [max_str_digits]
    digits are refused. *)
Definition int_of_str (s : string) : result Z :=
  let cs := strip_c (to_ascii_decimal_space (chars s)) in
  let '(neg, body) := read_sign cs in
  match body with
  | c :: _ =>
      if is_digit c then
        match drop_underscores None body with
        | Some ds =>
            if forallb is_digit ds then
              if Z.of_nat (length ds) <=? max_str_digits
              then Ok (if neg then - digits_val ds else digits_val ds)
              else Raise ValueError
            else Raise ValueError
        | None => Raise ValueError
        end
      else Raise ValueError
  | [] => Raise ValueError
  end.

(** *** Floats *)

Definition SF64round (neg : bool) (n d : Z) : spec_float :=
  let '(q, e, l) := SFdiv_core_binary prec emax n 0 d 0 in
  binary_round_aux prec emax neg q e l.

(** The binary64 number nearest to [±m * 10^e10] (ties to even), as
    [strtod] computes it; [ndigits] bounds the number of digits of [m]. *)
Definition float_of_decimal (neg : bool) (m e10 : Z) (ndigits : Z) : float :=
  if m =? 0 then (if neg then PrimFloat.neg_zero else PrimFloat.zero)
  else if 400 <? e10 then (if neg then PrimFloat.neg_infinity else PrimFloat.infinity)
  else if e10 <? - 400 - ndigits then (if neg then PrimFloat.neg_zero else PrimFloat.zero)
  else if 0 <=? e10 then SF2Prim (SF64round neg (m * 10 ^ e10) 1)
  else SF2Prim (SF64round neg m (10 ^ (- e10))).

Definition lower_char (c : ascii) : ascii :=
  if (65 <=? code c) && (code c <=? 90)
  then ascii_of_N (Z.to_N (code c + 32)) else c.

(** [_Py_parse_inf_or_nan] *)
Definition parse_inf_or_nan (cs : list ascii) : option float :=
  let '(neg, body) := read_sign cs in
  let low := of_chars (map lower_char body) in
  if bool_decide (low = "inf"%string) || bool_decide (low = "infinity"%string)
  then Some (if neg then PrimFloat.neg_infinity else PrimFloat.infinity)
  else if bool_decide (low = "nan"%string) then Some PrimFloat.nan
  else None.

(** The exponent part: nothing, or [e] or [E], an optional sign and at least
    one digit, up to the end of the string. *)
Definition parse_exponent (cs : list ascii) : option Z :=
  match cs with
  | [] => Some 0
  | c :: cs' =>
      if Ascii.eqb c "e" || Ascii.eqb c "E" then
        let '(neg, ds) := read_sign cs' in
        match ds with
        | [] => None
        | _ => if forallb is_digit ds
               then Some (if neg then - digits_val ds else digits_val ds)
               else None
        end
      else None
  end.

(** A decimal literal: sign, digits with an optional point (at least one
    digit in all), optional exponent. *)
Definition parse_decimal (cs : list ascii) : option float :=
  let '(neg, s1) := read_sign cs in
  let '(ip, s2) := span_digits s1 in
  let '(fp, s3) := match s2 with
                   | "."%char :: t => span_digits t
                   | _ => ([], s2)
                   end in
  match ip ++ fp with
  | [] => None
  | ds =>
      e ← parse_exponent s3;
      Some (float_of_decimal neg (digits_val ds)
              (e - Z.of_nat (length fp)) (Z.of_nat (length ds)))
  end.

(** [float(s)]: [None] stands for [ValueError], the only exception that
    [float] raises on a string. *)
Definition float_of_str (s : string) : option float :=
  match strip_c (to_ascii_decimal_space (chars s)) with
  | [] => None
  | cs =>
      cs' ← (if existsb (Ascii.eqb "_") cs then drop_underscores None cs
             else Some cs);
      match parse_decimal cs' with
      | Some f => Some f
      | None => parse_inf_or_nan cs'
      end
  end.

(** [fmod(x, y)] of C: the exact remainder, with the sign of [x]. *)
Definition fmod (x y : float) : float :=
  match Prim2SF x, Prim2SF y with
  | S754_nan, _ | _, S754_nan => PrimFloat.nan
  | S754_infinity _, _ => PrimFloat.nan
  | _, S754_zero _ => PrimFloat.nan
  | S754_zero _, _ => x
  | S754_finite _ _ _, S754_infinity _ => x
  | S754_finite sx mx ex, S754_finite _ my ey =>
      let e := Z.min ex ey in
      let r := (Zpos mx * 2 ^ (ex - e)) mod (Zpos my * 2 ^ (ey - e)) in
      SF2Prim (binary_normalize prec emax (if sx then - r else r) e sx)
  end.

(** [floor(x)] of C. *)
Definition floor (x : float) : float :=
  match Prim2SF x with
  | S754_finite s m e =>
      if 0 <=? e then x
      else
        let d := 2 ^ (- e) in
        let z := if s then - ((Zpos m + d - 1) / d) else Zpos m / d in
        SF2Prim (binary_normalize prec emax z 0 s)
  | _ => x
  end.

(** [copysign(0.0, y)] *)
Definition signed_zero (y : float) : float :=
  match Prim2SF y with
  | S754_zero true | S754_infinity true | S754_finite true _ _ =>
      PrimFloat.neg_zero
  | _ => PrimFloat.zero
  end.

(** [vx // wx] on floats ([float_floor_div] and [_float_div_mod] of
    CPython). *)
Definition float_floordiv (vx wx : float) : result float :=
  if (wx =? 0)%float then Raise ZeroDivisionError
  else
    let md := fmod vx wx in
    let div := ((vx - md) / wx)%float in
    let div :=
      if negb (md =? 0)%float && negb (eqb (wx <? 0)%float (md <? 0)%float)
      then (div - 1)%float else div in
    if negb (div =? 0)%float then
      let fl := floor div in
      Ok (if (0.5 <? div - fl)%float then (fl + 1)%float else fl)
    else Ok (signed_zero (vx / wx)%float).

(** [int(x)] for a float: truncation towards zero. *)
Definition int_of_float (x : float) : result Z :=
  match Prim2SF x with
  | S754_nan => Raise ValueError
  | S754_infinity _ => Raise OverflowError
  | S754_zero _ => Ok 0
  | S754_finite s m e =>
      let a := if 0 <=? e then Zpos m * 2 ^ e else Zpos m / 2 ^ (- e) in
      Ok (if s then - a else a)
  end.

(** The conversion of an int operand of a float operation
    ([PyLong_AsDouble]): nearest, ties to even. *)
Definition float_of_int (z : Z) : result float :=
  match binary_normalize prec emax z 0 false with
  | S754_infinity _ => Raise OverflowError
  | sf => Ok (SF2Prim sf)
  end.

End Num.

(** ** [datetime.datetime] in UTC *)

Module DateTime.

Record datetime : Type := mk_datetime {
  year : Z; month : Z; day : Z;
  hour : Z; minute : Z; second : Z; microsecond : Z
}.

Definition is_leap (y : Z) : bool :=
  (y mod 4 =? 0) && (negb (y mod 100 =? 0) || (y mod 400 =? 0)).

Definition days_in_month (y m : Z) : Z :=
  if m =? 2 then (if is_leap y then 29 else 28)
  else if (m =? 4) || (m =? 6) || (m =? 9) || (m =? 11) then 30
  else 31.

(** Arguments are C ints. *)
Definition c_int (z : Z) : bool := (- 2 ^ 31 <=? z) && (z <? 2 ^ 31).

Definition valid_date (y m d : Z) : bool :=
  (1 <=? y) && (y <=? 9999) && (1 <=? m) && (m <=? 12)
  && (1 <=? d) && (d <=? days_in_month y m).

Definition valid_time (h mi s us : Z) : bool :=
  (0 <=? h) && (h <=? 23) && (0 <=? mi) && (mi <=? 59)
  && (0 <=? s) && (s <=? 59) && (0 <=? us) && (us <=? 999999).

(** [datetime.datetime(y, mo, d, hh, mm, ss, tzinfo=datetime.timezone.utc)] *)
Definition make (y mo d hh mm ss : Z) : result datetime :=
  if negb (forallb c_int [y; mo; d; hh; mm; ss]) then Raise OverflowError
  else if negb (valid_date y mo d) then Raise ValueError
  else if negb (valid_time hh mm ss 0) then Raise ValueError
  else Ok (mk_datetime y mo d hh mm ss 0).

(** [now.replace(hour=hh, minute=mm, second=ss, microsecond=0)] *)
Definition replace_time (now : datetime) (hh mm ss : Z) : result datetime :=
  if negb (forallb c_int [hh; mm; ss]) then Raise OverflowError
  else if negb (valid_time hh mm ss 0) then Raise ValueError
  else Ok (mk_datetime (year now) (month now) (day now) hh mm ss 0).

Definition digit_char (d : Z) : ascii := ascii_of_N (Z.to_N (48 + d)).

(** The decimal digits of a non-negative number, least significant first,
    at least [w] of them. *)
Fixpoint dec_rev (fuel : nat) (w : nat) (n : Z) : list ascii :=
  match fuel with
  | O => []
  | S fuel' =>
      if (n <? 10) && bool_decide (w ≤ 1)%nat then [digit_char n]
      else digit_char (n mod 10) :: dec_rev fuel' (pred w) (n / 10)
  end.

(** ["%0wd" % n] for [0 <= n] *)
Definition zero_pad (w : nat) (n : Z) : string :=
  Str.of_chars (rev (dec_rev (w + Z.to_nat (Z.log2 n) + 1) w n)).

(** [t.isoformat()] for an aware UTC datetime *)
Definition isoformat (t : datetime) : string :=
  (zero_pad 4 (year t) +:+ "-" +:+ zero_pad 2 (month t) +:+ "-"
   +:+ zero_pad 2 (day t) +:+ "T" +:+ zero_pad 2 (hour t) +:+ ":"
   +:+ zero_pad 2 (minute t) +:+ ":" +:+ zero_pad 2 (second t)
   +:+ (if (microsecond t =? 0)%Z then ""
        else "." +:+ zero_pad 6 (microsecond t))
   +:+ "+00:00")%string.

End DateTime.

(** ** Regular expressions, as [re.match] runs them

    A backtracking matcher in continuation-passing style: alternatives are
    tried in the order of Python's engine (greedy first), and the first
    complete match wins. *)

Module Regex.

Inductive re : Type :=
| Chr (p : ascii → bool)
| Seq (r1 r2 : re)
| Opt (r : re)
| Star (r : re)
| Group (i : nat) (r : re)
| Eol.

Abbreviation captures := (gmap nat string).

(** The greedy loop of a star: [step] matches the starred expression once;
    one more round is tried first, and a round that consumes nothing is
    not repeated. *)
Fixpoint star_loop
    (step : list ascii → captures →
            (list ascii → captures → option captures) → option captures)
    (k : list ascii → captures → option captures)
    (n : nat) (s : list ascii) (c : captures) : option captures :=
  match n with
  | O => k s c
  | S n' =>
      match step s c (λ s' c', if (length s' <? length s)%nat
                              then star_loop step k n' s' c' else None) with
      | Some m => Some m
      | None => k s c
      end
  end.

Fixpoint backtrack (r : re) (fuel : nat) (s : list ascii) (c : captures)
    (k : list ascii → captures → option captures) : option captures :=
  match r with
  | Chr p =>
      match s with
      | a :: s' => if p a then k s' c else None
      | [] => None
      end
  | Seq r1 r2 => backtrack r1 fuel s c (λ s' c', backtrack r2 fuel s' c' k)
  | Opt r1 =>
      match backtrack r1 fuel s c k with
      | Some m => Some m
      | None => k s c
      end
  | Star r1 => star_loop (backtrack r1 fuel) k fuel s c
  | Group i r1 =>
      backtrack r1 fuel s c
        (λ s' c', k s' (<[i := Str.of_chars (take (length s - length s') s)]> c'))
  | Eol =>
      match s with
      | [] => k s c
      | [a] => if Ascii.eqb a "010" then k s c else None
      | _ => None
      end
  end.

(** [r.match(s)]: anchored at the start of [s]. *)
Definition rmatch (r : re) (s : string) : option captures :=
  backtrack r (Str.len s) (Str.chars s) ∅ (λ _ c, Some c).

(** [m.group(i)] *)
Definition group (m : captures) (i : nat) : string := default EmptyString (m !! i).

End Regex.

(** * The program *)

Import Str Num DateTime Regex.

(** ** Checksum and frame validator *)

Definition in_range (lo hi : ascii) (c : ascii) : bool :=
  (code lo <=? code c) && (code c <=? code hi).

Definition is_A_Z (c : ascii) : bool := in_range "A" "Z" c.
Definition is_A_Z_0_9 (c : ascii) : bool := in_range "A" "Z" c || in_range "0" "9" c.
Definition is_0_9_A_F (c : ascii) : bool := in_range "0" "9" c || in_range "A" "F" c.
Definition not_newline (c : ascii) : bool := negb (Ascii.eqb c "010").

(** [NMEA_RE], piece by piece as the pattern of the source has it: the
    dollar sign, group 1 [[A-Z0-9]{2,3}[A-Z]{3}], the comma, group 2 (a
    greedy star of the dot, which matches anything but a newline), the
    star, group 3 [[0-9A-F]{2}], and [\r?\n?$]. The leading anchor is the
    one of [rmatch]. *)
Definition NMEA_RE : re :=
  Seq (Chr (Ascii.eqb "$"))
 (Seq (Group 1
         (Seq (Seq (Chr is_A_Z_0_9) (Seq (Chr is_A_Z_0_9) (Opt (Chr is_A_Z_0_9))))
              (Seq (Chr is_A_Z) (Seq (Chr is_A_Z) (Chr is_A_Z)))))
 (Seq (Chr (Ascii.eqb ","))
 (Seq (Group 2 (Star (Chr not_newline)))
 (Seq (Chr (Ascii.eqb "*"))
 (Seq (Group 3 (Seq (Chr is_0_9_A_F) (Chr is_0_9_A_F)))
 (Seq (Opt (Chr (Ascii.eqb "013")))
 (Seq (Opt (Chr (Ascii.eqb "010")))
      Eol))))))).

Definition hex_digit (d : Z) : ascii :=
  ascii_of_N (Z.to_N (if d <? 10 then 48 + d else 55 + d)).

(** [f"{c:02X}"] for [0 <= c < 256] *)
Definition format_02X (c : Z) : string :=
  String (hex_digit (c / 16)) (String (hex_digit (c mod 16)) EmptyString).

Definition nmea_checksum (s : string) : string :=
  let c := fold_left (λ c ch, Z.lxor c (code ch)) (chars s) 0 in
  format_02X c.

(** [raw.decode('ascii', errors='ignore')] *)
Definition decode_ascii_ignore (raw : string) : string :=
  of_chars (filter (λ c, code c < 128) (chars raw)).

(** The validating prefix of the loop body of [main], from [s.startswith]
    to [fields = m.group(2).split(',')]: the talker and sentence code and
    the fields of an accepted line, [None] where the body [continue]s. *)
Definition accept (s : string) : option (string * list string) :=
  if negb (startswith "$" s) then None
  else
    m ← rmatch NMEA_RE s;
    let body := (group m 1 +:+ "," +:+ group m 2)%string in
    let cs := upper (group m 3) in
    let calc := nmea_checksum body in
    if negb (String.eqb cs calc) then None
    else
      let talker_sen := group m 1 in
      let fields := split "," (group m 2) in
      Some (talker_sen, fields).

(** ** Field converters *)

Definition dm_to_deg (dm hemi : string) : result (option float) :=
  if negb (truthy dm) || String.eqb dm "" then Ok None
  else
    match float_of_str dm with
    | None => Ok None
    | Some val =>
        q ← float_floordiv val 100%float;
        deg ← int_of_float q;
        d100 ← float_of_int (deg * 100);
        let minutes := (val - d100)%float in
        degf ← float_of_int deg;
        let dec := (degf + minutes / 60.0)%float in
        let dec := if String.eqb hemi "S" || String.eqb hemi "W"
                   then (- dec)%float else dec in
        Ok (Some dec)
    end.

Definition knots_to_mps (kn : string) : option float :=
  (λ x, (x * 0.514444)%float) <$> float_of_str kn.

Definition safe_float (x : string) : option float := float_of_str x.

(** [int(float(s))] *)
Definition int_of_float_str (s : string) : result Z :=
  match float_of_str s with
  | Some f => int_of_float f
  | None => Raise ValueError
  end.

(** [parse_time_date(utc_hms, ddmmyy)]; [now] is what
    [datetime.datetime.now(datetime.timezone.utc)] returns, and [ddmmyy] is
    [None] where the caller passes [None]. *)
Definition parse_time_date (now : datetime) (utc_hms : string)
    (ddmmyy : option string) : result (option datetime) :=
  if negb (truthy utc_hms) then Ok None
  else
    hh ← int_of_str (slice 0 2 utc_hms);
    mm ← int_of_str (slice 2 4 utc_hms);
    ss ← int_of_float_str (slice_from 4 utc_hms);
    match ddmmyy with
    | Some date =>
        if truthy date && bool_decide (len date = 6%nat) then
          d ← int_of_str (slice 0 2 date);
          mo ← int_of_str (slice 2 4 date);
          yy ← int_of_str (slice 4 6 date);
          let y := if yy <? 80 then 2000 + yy else 1900 + yy in
          Some <$> DateTime.make y mo d hh mm ss
        else Some <$> replace_time now hh mm ss
    | None => Some <$> replace_time now hh mm ss
    end.

(** [t.isoformat().replace('+00:00','Z')] *)
Definition utc_string (t : datetime) : string :=
  Str.replace "+00:00" "Z" (isoformat t).

(** ** Sentence decoder *)

(** The values that the decoder stores: [None], [bool], [int], [float],
    [str], and for the key [gsv] a dict from talker to [{'in_view': n}]. *)
Inductive value : Type :=
| VNone
| VBool (b : bool)
| VInt (z : Z)
| VFloat (f : float)
| VStr (s : string)
| VGsv (g : gmap string (gmap string Z)).

Abbreviation dict := (gmap string value).

Definition of_float (o : option float) : value :=
  match o with Some f => VFloat f | None => VNone end.

(** [int(x) if x.isdigit() else None] *)
Definition int_if_digit (x : string) : result value :=
  if isdigit x then VInt <$> int_of_str x else Ok VNone.

(** [fields[i]]; every use below is under a test of [len(fields)] that
    keeps [i] in range. *)
Definition item (fields : list string) (i : nat) : string :=
  nth i fields EmptyString.

(** [if t: u['utc_time'] = ...]: a datetime is always true. *)
Definition set_utc_time (t : option datetime) (u : dict) : dict :=
  match t with
  | Some t => <["utc_time" := VStr (utc_string t)]> u
  | None => u
  end.

(** [if x is not None: u[k] = x] *)
Definition set_if_some (k : string) (x : option float) (u : dict) : dict :=
  match x with
  | Some f => <[k := VFloat f]> u
  | None => u
  end.

Definition parse_RMC (now : datetime) (fields : list string) (u : dict)
  : result dict :=
  if bool_decide (11 ≤ length fields)%nat then
    t ← parse_time_date now (item fields 0) (Some (item fields 8));
    let u := set_utc_time t u in
    let u := <["fix_ok" := VBool (String.eqb (item fields 1) "A")]> u in
    lat ← dm_to_deg (item fields 2) (item fields 3);
    lon ← dm_to_deg (item fields 4) (item fields 5);
    let u := set_if_some "lat" lat u in
    let u := set_if_some "lon" lon u in
    let sog_mps := if truthy (item fields 6)
                   then knots_to_mps (item fields 6) else None in
    let u := match sog_mps with
             | Some v => <["speed_kmh" := VFloat (v * 3.6)%float]>
                           (<["speed_mps" := VFloat v]> u)
             | None => u
             end in
    let u := <["course_deg" := of_float (safe_float (item fields 7))]> u in
    let u := if bool_decide (12 ≤ length fields)%nat && truthy (item fields 11)
             then <["mode" := VStr (item fields 11)]> u else u in
    Ok u
  else Ok u.

Definition parse_GGA (now : datetime) (fields : list string) (u : dict)
  : result dict :=
  if bool_decide (12 ≤ length fields)%nat then
    t ← parse_time_date now (item fields 0) None;
    let u := set_utc_time t u in
    lat ← dm_to_deg (item fields 1) (item fields 2);
    lon ← dm_to_deg (item fields 3) (item fields 4);
    let u := set_if_some "lat" lat u in
    let u := set_if_some "lon" lon u in
    fixq ← int_if_digit (item fields 5);
    let u := <["fix_quality" := fixq]> u in
    nsat ← int_if_digit (item fields 6);
    let u := <["num_sats" := nsat]> u in
    let u := <["hdop" := of_float (safe_float (item fields 7))]> u in
    let u := <["alt_m" := of_float (safe_float (item fields 8))]> u in
    let u := <["geoid_sep_m" :=
                 if bool_decide (10 < length fields)%nat
                 then of_float (safe_float (item fields 10)) else VNone]> u in
    let u := <["age_corrections_s" :=
                 if bool_decide (12 < length fields)%nat
                 then of_float (safe_float (item fields 12)) else VNone]> u in
    let u := <["dgps_id" :=
                 if bool_decide (13 < length fields)%nat
                 then VStr (item fields 13) else VNone]> u in
    Ok u
  else Ok u.

Definition parse_GNS (now : datetime) (fields : list string) (u : dict)
  : result dict :=
  if bool_decide (9 ≤ length fields)%nat then
    t ← parse_time_date now (item fields 0) None;
    let u := set_utc_time t u in
    lat ← dm_to_deg (item fields 1) (item fields 2);
    lon ← dm_to_deg (item fields 3) (item fields 4);
    let u := set_if_some "lat" lat u in
    let u := set_if_some "lon" lon u in
    let u := <["mode" := VStr (item fields 5)]> u in
    nsat ← int_if_digit (item fields 6);
    let u := <["num_sats" := nsat]> u in
    let u := <["hdop" := of_float (safe_float (item fields 7))]> u in
    let u := <["alt_m" := of_float (safe_float (item fields 8))]> u in
    let u := if bool_decide (9 < length fields)%nat
             then <["geoid_sep_m" := of_float (safe_float (item fields 9))]> u
             else u in
    Ok u
  else Ok u.

Definition parse_GSA (fields : list string) (u : dict) : result dict :=
  if bool_decide (17 ≤ length fields)%nat then
    fixt ← int_if_digit (item fields 1);
    let u := <["fix_type" := fixt]> u in
    let u := <["pdop" := of_float (safe_float (item fields 14))]> u in
    let u := <["hdop" := of_float (safe_float (item fields 15))]> u in
    let u := <["vdop" := of_float (safe_float (item fields 16))]> u in
    Ok u
  else Ok u.

(** [u.setdefault('gsv', {})] followed by [u['gsv'][talker] = obj]; a value
    under [gsv] that is no dict does not support item assignment. *)
Definition set_gsv_entry (talker : string) (obj : gmap string Z) (u : dict)
  : result dict :=
  match default (VGsv ∅) (u !! "gsv") with
  | VGsv g => Ok (<["gsv" := VGsv (<[talker := obj]> g)]> u)
  | _ => Raise TypeError
  end.

Definition parse_GSV (talker : string) (fields : list string) (u : dict)
  : result dict :=
  if bool_decide (3 ≤ length fields)%nat then
    total_sats ← int_if_digit (item fields 2);
    match total_sats with
    | VInt n => set_gsv_entry talker {["in_view" := n]} u
    | _ => Ok u
    end
  else Ok u.

Definition parse_VTG (fields : list string) (u : dict) : result dict :=
  if bool_decide (7 ≤ length fields)%nat then
    let u := <["course_deg" := of_float (safe_float (item fields 0))]> u in
    let u :=
      if truthy (item fields 4) then
        match knots_to_mps (item fields 4) with
        | Some mps => <["speed_kmh" := VFloat (mps * 3.6)%float]>
                        (<["speed_mps" := VFloat mps]> u)
        | None => u
        end
      else if truthy (item fields 6) then
        match safe_float (item fields 6) with
        | Some kmh => <["speed_mps" := VFloat (kmh / 3.6)%float]>
                        (<["speed_kmh" := VFloat kmh]> u)
        | None => u
        end
      else u in
    let u := if bool_decide (9 ≤ length fields)%nat && truthy (item fields 8)
             then <["mode" := VStr (item fields 8)]> u else u in
    Ok u
  else Ok u.

Definition parse_GST (now : datetime) (fields : list string) (u : dict)
  : result dict :=
  if bool_decide (5 ≤ length fields)%nat then
    u ← (if truthy (item fields 0) then
           t ← parse_time_date now (item fields 0) None;
           Ok (set_utc_time t u)
         else Ok u);
    let u := <["rms_range_err_m" := of_float (safe_float (item fields 1))]> u in
    let u := <["sd_lat_m" := of_float (safe_float (item fields 2))]> u in
    let u := <["sd_lon_m" := of_float (safe_float (item fields 3))]> u in
    let u := <["sd_alt_m" := of_float (safe_float (item fields 4))]> u in
    Ok u
  else Ok u.

Definition parse_sentence (now : datetime) (talker_sen : string)
    (fields : list string) : result dict :=
  let tp := last_n 3 talker_sen in
  let talker := drop_last 3 talker_sen in
  let u : dict := ∅ in
  if String.eqb tp "RMC" then parse_RMC now fields u
  else if String.eqb tp "GGA" then parse_GGA now fields u
  else if String.eqb tp "GNS" then parse_GNS now fields u
  else if String.eqb tp "GSA" then parse_GSA fields u
  else if String.eqb tp "GSV" then parse_GSV talker fields u
  else if String.eqb tp "VTG" then parse_VTG fields u
  else if String.eqb tp "GST" then parse_GST now fields u
  else Ok u.

(** ** State merger *)

(** [for sys, obj in v.items(): gsv[sys] = obj] *)
Definition update_gsv (gsv v : gmap string (gmap string Z))
  : gmap string (gmap string Z) :=
  map_fold (λ sys obj g, <[sys := obj]> g) gsv v.

(** One iteration of the loop of [merge_updates]. [state.setdefault] comes
    first, then [v.items()], which only a dict has, then the item
    assignments, which only a dict supports. *)
Definition merge_item (k : string) (v : value) (state : dict) : result dict :=
  if String.eqb k "gsv" then
    let gsv := default (VGsv ∅) (state !! "gsv") in
    match v with
    | VGsv d =>
        match gsv with
        | VGsv g => Ok (<["gsv" := VGsv (update_gsv g d)]> state)
        | _ => if bool_decide (d = ∅) then Ok state else Raise TypeError
        end
    | _ => Raise AttributeError
    end
  else Ok (<[k := v]> state).

(** [merge_updates(state, updates)]; [now] is the reading of [time.time()]. *)
Definition merge_updates (state updates : dict) (now : float) : result dict :=
  state ← map_fold (λ k v acc, acc ≫= merge_item k v) (Ok state) updates;
  Ok (<["last_update" := VFloat now]> state).

(** ** The processing loop of [main] *)

(** [bool(v)] *)
Definition value_truthy (v : value) : bool :=
  match v with
  | VNone => false
  | VBool b => b
  | VInt z => negb (z =? 0)
  | VFloat f => negb (f =? 0)%float
  | VStr s => truthy s
  | VGsv g => bool_decide (g ≠ ∅)
  end.

(** [state.get(k) is not None] *)
Definition is_not_None (state : dict) (k : string) : bool :=
  match state !! k with
  | None | Some VNone => false
  | Some _ => true
  end.

(** [state.get('lat') is not None and state.get('lon') is not None
     and state.get('utc_time')] *)
Definition complete (state : dict) : bool :=
  is_not_None state "lat" && is_not_None state "lon"
  && from_option value_truthy false (state !! "utc_time").

(** The command line, as far as the loop reads it. *)
Record args : Type := {
  args_raw : bool;
  args_log : bool;
  args_once : bool;
  args_partial : bool;
  args_format : option string;
  args_json : bool
}.

(** The clock readings of one iteration: [datetime.now] in the decoder,
    [time.time()] in the merger and [time.time()] in the loop. *)
Record clock : Type := {
  utc_now : datetime;
  merge_time : float;
  loop_time : float
}.

(** What one iteration leaves behind: the echo of the line, the line
    appended to the log, a record on standard output, a format error on
    standard error. *)
Inductive event : Type :=
| Echo (s : string)
| LogWrite (s : string)
| Emit (s : string)
| FormatError.

(** The variables of [main]: [state], [last_emit] and, under [--once],
    [outputs]. *)
Record loop : Type := {
  state : dict;
  last_emit : float;
  outputs : list string
}.

Inductive outcome : Type :=
| Continue (l : loop) (evs : list event)
| Break (l : loop) (evs : list event)
| Crash (e : exn) (evs : list event).

Definition initial : loop :=
  {| state := ∅; last_emit := 0%float; outputs := [] |}.

(** [now - last_emit >= 1.0] *)
Definition tick (now last : float) : bool := (1.0 <=? now - last)%float.

Section Main.

(** The renderers are taken as they are: [human_status(state)], the JSON
    line built from [state], and [args.format % format_dict], which can
    raise. *)
Variable human_status : dict → string.
Variable json_line : dict → string.
Variable format_percent : string → dict → result string.

Definition format_given (a : args) : option string :=
  match args_format a with
  | Some f => if truthy f then Some f else None
  | None => None
  end.

(** [except (KeyError, ValueError, TypeError)] *)
Definition is_format_error (e : exn) : bool :=
  match e with
  | KeyError | ValueError | TypeError => true
  | _ => false
  end.

(** The rendering of one record: the text, [None] for a reported format
    error, or an exception that the handler does not catch. *)
Definition render (a : args) (st : dict) : result (option string) :=
  match format_given a with
  | Some f =>
      match format_percent f st with
      | Ok s => Ok (Some s)
      | Raise e => if is_format_error e then Ok None else Raise e
      end
  | None =>
      if args_json a then Ok (Some (json_line st))
      else Ok (Some (human_status st))
  end.

(** From [if args.raw] to the merge: the events, and the state after
    [if updates: merge_updates(state, updates)]. *)
Definition echo_and_log (a : args) (s : string) : list event :=
  (if args_raw a then [Echo s] else [])
  ++ (if args_log a then [LogWrite s] else []).

Definition decode_and_merge (clk : clock) (st : dict) (talker_sen : string)
    (fields : list string) : result dict :=
  updates ← parse_sentence (utc_now clk) talker_sen fields;
  if bool_decide (updates ≠ ∅) then merge_updates st updates (merge_time clk)
  else Ok st.

(** The body of the loop of [main] without [--once]. *)
Definition loop_body (a : args) (l : loop) (raw : string) (clk : clock)
  : outcome :=
  let s := strip (decode_ascii_ignore raw) in
  match accept s with
  | None => Continue l []
  | Some (talker_sen, fields) =>
      let evs := echo_and_log a s in
      match decode_and_merge clk (state l) talker_sen fields with
      | Raise e => Crash e evs
      | Ok st =>
          let now := loop_time clk in
          if tick now (last_emit l) then
            let l' := {| state := st; last_emit := now; outputs := outputs l |} in
            if args_partial a || complete st then
              match render a st with
              | Ok (Some out) => Continue l' (evs ++ [Emit out])
              | Ok None => Continue l' (evs ++ [FormatError])
              | Raise e => Crash e evs
              end
            else Continue l' evs
          else
            Continue {| state := st; last_emit := last_emit l;
                        outputs := outputs l |} evs
      end
  end.

(** The body of the loop under [--once]: records are collected instead of
    printed, [--partial] is not read, and the loop is left once there are
    two records. *)
Definition loop_body_once (a : args) (l : loop) (raw : string) (clk : clock)
  : outcome :=
  let s := strip (decode_ascii_ignore raw) in
  match accept s with
  | None => Continue l []
  | Some (talker_sen, fields) =>
      let evs := echo_and_log a s in
      match decode_and_merge clk (state l) talker_sen fields with
      | Raise e => Crash e evs
      | Ok st =>
          let now := loop_time clk in
          if tick now (last_emit l) then
            if complete st then
              match render a st with
              | Ok o =>
                  let l' := {| state := st; last_emit := now;
                               outputs := outputs l ++ option_list o |} in
                  let evs' := evs ++ match o with
                                   | Some _ => []
                                   | None => [FormatError]
                                   end in
                  if bool_decide (2 ≤ length (outputs l'))%nat
                  then Break l' evs' else Continue l' evs'
              | Raise e => Crash e evs
              end
            else Continue {| state := st; last_emit := now;
                             outputs := outputs l |} evs
          else
            Continue {| state := st; last_emit := last_emit l;
                        outputs := outputs l |} evs
      end
  end.

(** [max(outputs, key=len)]: the first of the longest. *)
Definition longer (outputs : list string) : option string :=
  foldl (λ best o,
           match best with
           | Some b => if (len b <? len o)%nat then Some o else Some b
           | None => Some o
           end) None outputs.

Definition body (a : args) : loop → string → clock → outcome :=
  if args_once a then loop_body_once a else loop_body a.

(** How a run over a finite prefix of the input stands. *)
Inductive status : Type :=
| Reading              (* waiting for the next line *)
| Finished             (* left the loop of [--once] and printed *)
| Crashed (e : exn).

(** The lines read so far, each with the clock readings of its iteration. *)
Fixpoint run (a : args) (l : loop) (input : list (string * clock))
  : loop * list event * status :=
  match input with
  | [] => (l, [], Reading)
  | (raw, clk) :: input' =>
      match body a l raw clk with
      | Continue l' evs =>
          let '(l'', evs', st) := run a l' input' in (l'', evs ++ evs', st)
      | Break l' evs =>
          (l', evs ++ from_option (λ o, [Emit o]) [] (longer (outputs l')),
           Finished)
      | Crash e evs => (l, evs, Crashed e)
      end
  end.

Definition main (a : args) (input : list (string * clock))
  : loop * list event * status :=
  run a initial input.

End Main.

(** ** The status line: [human_status]

    The text of a value is defined where the decoder can put that value:
    for [None], [bool], [int] and [str], and for a float in fixed
    notation. The [repr] of a finite float and of a dict (which lists its
    keys in insertion order) are not defined here, and on a value that has
    no [keys] Python raises; in both cases the result is [None]. *)

(** [sep.join(l)] *)
Fixpoint join (sep : string) (l : list string) : string :=
  match l with
  | [] => ""
  | x :: l' =>
      match l' with
      | [] => x
      | _ :: _ => x +:+ sep +:+ join sep l'
      end
  end.

(** [sorted(l)] for strings: ascending by code points. *)
Fixpoint insert_sorted (x : string) (l : list string) : list string :=
  match l with
  | [] => [x]
  | y :: l' => if String.leb x y then x :: l else y :: insert_sorted x l'
  end.

Definition sorted (l : list string) : list string := foldr insert_sorted [] l.

(** [str(n)] for an int *)
Definition str_int (n : Z) : string :=
  if n <? 0 then "-" +:+ zero_pad 1 (- n) else zero_pad 1 n.

(** The integer nearest to [n / d], ties to even ([0 <= n], [0 < d]). *)
Definition round_half_even (n d : Z) : Z :=
  let q := n / d in
  let r := n mod d in
  if 2 * r <? d then q
  else if d <? 2 * r then q + 1
  else if Z.even q then q else q + 1.

(** The digits of [N] with a point before the last [nd] of them. *)
Definition fixed_digits (nd : nat) (N : Z) : string :=
  let ds := zero_pad (S nd) N in
  match nd with
  | O => ds
  | S _ => drop_last nd ds +:+ "." +:+ last_n nd ds
  end.

(** [f"{x:.{nd}f}"] for a float: the exact value of [x], rounded to [nd]
    decimal places to nearest and ties to even. *)
Definition format_fixed (nd : nat) (x : float) : string :=
  match Prim2SF x with
  | S754_nan => "nan"
  | S754_infinity s => if s then "-inf" else "inf"
  | S754_zero s => (if s then "-" else "") +:+ fixed_digits nd 0
  | S754_finite s m e =>
      let N := if 0 <=? e then Zpos m * 2 ^ e * 10 ^ Z.of_nat nd
               else round_half_even (Zpos m * 10 ^ Z.of_nat nd) (2 ^ (- e)) in
      (if s then "-" else "") +:+ fixed_digits nd N
  end.

(** [math.isnan(x)] *)
Definition isnan (x : float) : bool :=
  match Prim2SF x with S754_nan => true | _ => false end.

(** [str(v)], which is also [format(v, '')]. *)
Definition str_value (v : value) : option string :=
  match v with
  | VNone => Some "None"
  | VBool b => Some (if b then "True" else "False")
  | VInt z => Some (str_int z)
  | VFloat f =>
      match Prim2SF f with
      | S754_nan => Some "nan"
      | S754_infinity s => Some (if s then "-inf" else "inf")
      | _ => None
      end
  | VStr s => Some s
  | VGsv _ => None
  end.

(** [fmt(v, nd)], the local function of [human_status] *)
Definition fmt (v : value) (nd : nat) : option string :=
  match v with
  | VFloat f => if negb (isnan f) then Some (format_fixed nd f) else str_value v
  | _ => str_value v
  end.

(** [state.get(k)] *)
Definition state_get (st : dict) (k : string) : value :=
  default VNone (st !! k).

(** The int that a value is equal to, and so hashes like, as the key of a
    dict: [True] and [1.0] find the entry of [1]. *)
Definition key_int (v : value) : option Z :=
  match v with
  | VInt z => Some z
  | VBool b => Some (if b then 1 else 0)
  | VFloat f =>
      match int_of_float f with
      | Ok z =>
          match float_of_int z with
          | Ok g => if (g =? f)%float then Some z else None
          | Raise _ => None
          end
      | Raise _ => None
      end
  | _ => None
  end.

Definition qmap (q : Z) : option string :=
  if q =? 0 then Some "no-fix"
  else if q =? 1 then Some "GPS"
  else if q =? 2 then Some "DGPS"
  else if q =? 4 then Some "RTK-fix"
  else if q =? 5 then Some "RTK-float"
  else if q =? 6 then Some "est"
  else None.

Definition tmap (t : Z) : option string :=
  if t =? 1 then Some "no-fix"
  else if t =? 2 then Some "2D"
  else if t =? 3 then Some "3D"
  else None.

(** [table.get(v, str(v))]; a dict is not hashable. *)
Definition get_or_str (table : Z → option string) (v : value)
  : option string :=
  match v with
  | VGsv _ => None
  | _ =>
      match key_int v ≫= table with
      | Some t => Some t
      | None => str_value v
      end
  end.

(** [fix_txt], and the part it gives when it is not empty. *)
Definition fix_part (st : dict) : option (list string) :=
  let fxq := state_get st "fix_quality" in
  let fxt := state_get st "fix_type" in
  fix_txt ← match fxq, fxt with
            | VNone, VNone => Some None
            | VNone, _ => Some <$> get_or_str tmap fxt
            | _, _ => Some <$> get_or_str qmap fxq
            end;
  Some match fix_txt with
       | Some t => if truthy t then ["fix " +:+ t] else []
       | None => []
       end.

(** [if state.get(k) is not None: parts.append(pre + text(state[k]) + post)] *)
Definition labelled (st : dict) (k : string) (text : value → option string)
    (pre post : string) : option (list string) :=
  if is_not_None st k then
    t ← text (state_get st k); Some [pre +:+ t +:+ post]
  else Some [].

(** [gsv[sys].get('in_view','?')] in an f-string *)
Definition in_view_text (obj : gmap string Z) : string :=
  match obj !! "in_view" with
  | Some n => str_int n
  | None => "?"
  end.

(** The summary of the constellations: [state.get('gsv') or {}], and for
    a non-empty one the entries in the order of their keys. *)
Definition gsv_part (st : dict) : option (list string) :=
  let v := state_get st "gsv" in
  if value_truthy v then
    match v with
    | VGsv g =>
        let sys_s :=
          join "," (map (λ sys, sys +:+ ":"
                                +:+ in_view_text (default ∅ (g !! sys)))
                      (sorted (map fst (map_to_list g)))) in
        Some ["in_view[" +:+ sys_s +:+ "]"]
    | _ => None
    end
  else Some [].

(** [f"UTC {t}" if t else "UTC ?"] *)
Definition utc_part (st : dict) : option (list string) :=
  let t := state_get st "utc_time" in
  if value_truthy t then (λ x, ["UTC " +:+ x]) <$> str_value t
  else Some ["UTC ?"].

Definition pos_part (st : dict) : option (list string) :=
  if is_not_None st "lat" && is_not_None st "lon" then
    la ← fmt (state_get st "lat") 6;
    lo ← fmt (state_get st "lon") 6;
    Some ["lat " +:+ la +:+ " lon " +:+ lo]
  else Some [].

Definition human_status (st : dict) : option string :=
  utc ← utc_part st;
  fix_ ← fix_part st;
  pos ← pos_part st;
  alt ← labelled st "alt_m" (λ v, fmt v 1) "alt " " m";
  sats ← labelled st "num_sats" str_value "sats " "";
  hdop ← labelled st "hdop" (λ v, fmt v 1) "HDOP " "";
  pdop ← labelled st "pdop" (λ v, fmt v 1) "PDOP " "";
  vdop ← labelled st "vdop" (λ v, fmt v 1) "VDOP " "";
  spd ← labelled st "speed_kmh" (λ v, fmt v 1) "spd " " kmh";
  cog ← labelled st "course_deg" (λ v, fmt v 1) "cog " " deg";
  gsv ← gsv_part st;
  Some (join " | " (utc ++ fix_ ++ pos ++ alt ++ sats ++ hdop ++ pdop
                    ++ vdop ++ spd ++ cog ++ gsv)).

(** * The vocabulary of the properties

    What the statements below are written with: the invariants of the
    states and updates of [main], views of a run, and the sentences and
    lines used as fixtures. *)

(** ** The state merger, key by key *)

(** The [gsv] entry of a state, [{}] where there is none. *)
Definition gsv_of (st : dict) : gmap string (gmap string Z) :=
  match st !! "gsv" with
  | Some (VGsv g) => g
  | _ => ∅
  end.

(** The entry [gsv] of a state is a dict when it is there, as in every
    state that [main] builds. *)
Definition gsv_ok (st : dict) : Prop :=
  match st !! "gsv" with
  | None | Some (VGsv _) => True
  | Some _ => False
  end.

(** ** What a decoded update can hold *)

(** The time stamp, the position and the two speeds: keys that the
    decoder writes only when it has a value for them. *)
Definition never_null (k : string) : Prop :=
  k = "utc_time" ∨ k = "lat" ∨ k = "lon" ∨ k = "speed_mps" ∨ k = "speed_kmh".

Definition entry_ok (k : string) (v : value) : Prop :=
  k ≠ "last_update"
  ∧ (k = "gsv" → ∃ d, v = VGsv d)
  ∧ (never_null k → v ≠ VNone).

Definition entries_ok (u : dict) : Prop :=
  ∀ k v, u !! k = Some v → entry_ok k v.

(** An update that some sentence decodes to. *)
Definition decoded (u : dict) : Prop :=
  ∃ now talker_sen fields, parse_sentence now talker_sen fields = Ok u.

(** The merges of the successive iterations of the loop, each with its
    clock reading. *)
Fixpoint merge_all (st : dict) (us : list (dict * float)) : result dict :=
  match us with
  | [] => Ok st
  | (u, t) :: us' => st' ← merge_updates st u t; merge_all st' us'
  end.

(** ** Sentence types and their minimum field counts *)

Definition recognized (tp : string) : Prop :=
  tp ∈ ["RMC"; "GGA"; "GNS"; "GSA"; "GSV"; "VTG"; "GST"].

(** The bound of the [len(fields) >= n] test of each branch of
    [parse_sentence]. *)
Definition min_fields (tp : string) : nat :=
  if String.eqb tp "RMC" then 11
  else if String.eqb tp "GGA" then 12
  else if String.eqb tp "GNS" then 9
  else if String.eqb tp "GSA" then 17
  else if String.eqb tp "GSV" then 3
  else if String.eqb tp "VTG" then 7
  else if String.eqb tp "GST" then 5
  else 0.

(** The state of the loop after an iteration that did not crash. *)
Definition outcome_loop (o : outcome) : option loop :=
  match o with
  | Continue l _ | Break l _ => Some l
  | Crash _ _ => None
  end.

(** [{sys: data.get('in_view', 0) for sys, data in v.items()}], the flat
    form of the [gsv] entry in the JSON line. *)
Definition in_view_counts (g : gmap string (gmap string Z)) : gmap string Z :=
  (λ data, default 0 (data !! "in_view")) <$> g.

(** The states after three GSV sentences in a row, from the empty state:
    GP with 7 satellites in view, GL with 5, GP with 9. *)
Definition gsv_fixture (now : datetime) (t1 t2 t3 : float)
  : result (dict * dict * dict) :=
  u1 ← parse_sentence now "GPGSV" ["1"; "1"; "07"];
  u2 ← parse_sentence now "GLGSV" ["1"; "1"; "05"];
  u3 ← parse_sentence now "GPGSV" ["1"; "1"; "09"];
  st1 ← merge_updates ∅ u1 t1;
  st2 ← merge_updates st1 u2 t2;
  st3 ← merge_updates st2 u3 t3;
  Ok (st1, st2, st3).

(** ** C8: merging the same update twice *)

Definition rmc_fields : list string :=
  ["123519"; "A"; "4807.038"; "N"; "01131.000"; "E"; "022.4"; "084.4";
   "230394"; "003.1"; "W"].

(** The update of that RMC sentence. *)
Definition rmc_update : dict :=
  match parse_sentence (mk_datetime 2026 11 4 0 0 0 0) "GPRMC" rmc_fields with
  | Ok u => u
  | Raise _ => ∅
  end.

(** The update merged at time 100, and again at 101. *)
Definition rmc_twice : result (dict * dict) :=
  s1 ← merge_updates ∅ rmc_update 100%float;
  s2 ← merge_updates s1 rmc_update 101%float;
  Ok (s1, s2).

(** Whether an entry of a state is the float [x]. *)
Definition float_is (x : float) (o : option value) : bool :=
  match o with
  | Some (VFloat f) => PrimFloat.eqb f x
  | _ => false
  end.

(** ** C3: the frame validator and lower-case checksums *)

Definition rmc_body : string :=
  "GPRMC,123519,A,4807.038,N,01131.000,E,022.4,084.4,230394,003.1,W".

(** The same frame with its checksum in upper case and in lower case. *)
Definition rmc_line_upper : string := "$" +:+ rmc_body +:+ "*6A".

Definition rmc_line_lower : string := "$" +:+ rmc_body +:+ "*6a".

(** ** C6: degrees and minutes *)

Definition gga_nan_line : string :=
  "$GPGGA,123519,nan,N,01131.000,E,1,08,0.9,545.4,M,46.9,M,,*38".

(** ** C1: exceptions that leave the decoder *)

(** Checksum-valid RMC lines of eleven fields: the time of day cut short
    to [hhmm], and the 31st of February for a date. *)
Definition rmc_short_time_line : string :=
  "$GPRMC,1235,A,4807.038,N,01131.000,E,022.4,084.4,230394,003.1,W*62".

Definition rmc_bad_date_line : string :=
  "$GPRMC,123519,A,4807.038,N,01131.000,E,022.4,084.4,310294,003.1,W*68".

(** ** C5: timestamp assembly *)

Definition result_is (r : result Z) (n : Z) : bool :=
  match r with Ok m => m =? n | Raise _ => false end.

Definition two_digits_ok (n : Z) : bool :=
  match chars (zero_pad 2 n) with
  | [_; _] =>
      result_is (int_of_str (zero_pad 2 n)) n
      && result_is (int_of_float_str (zero_pad 2 n)) n
  | _ => false
  end.

(** [2000 + yy if yy < 80 else 1900 + yy] *)
Definition expand_year (yy : Z) : Z :=
  if yy <? 80 then 2000 + yy else 1900 + yy.

(** ** What [NMEA_RE] matches *)

(** What a regular expression matches: [matches r s s' c c'] when [r]
    matches a prefix of [s] and leaves [s'], taking the captures from [c]
    to [c']. *)
Inductive matches : re → list ascii → list ascii → captures → captures → Prop :=
| matches_chr p a s c : p a = true → matches (Chr p) (a :: s) s c c
| matches_seq r1 r2 s s1 s2 c c1 c2 :
    matches r1 s s1 c c1 → matches r2 s1 s2 c1 c2 →
    matches (Seq r1 r2) s s2 c c2
| matches_opt r s s' c c' : matches r s s' c c' → matches (Opt r) s s' c c'
| matches_opt_skip r s c : matches (Opt r) s s c c
| matches_star_nil r s c : matches (Star r) s s c c
| matches_star_cons r s s1 s2 c c1 c2 :
    matches r s s1 c c1 → (length s1 < length s)%nat →
    matches (Star r) s1 s2 c1 c2 → matches (Star r) s s2 c c2
| matches_group i r s s' c c' :
    matches r s s' c c' →
    matches (Group i r) s s' c
      (<[i := of_chars (take (length s - length s') s)]> c')
| matches_eol s c : s = [] ∨ s = ["010"%char] → matches Eol s s c c.

Definition CR : ascii := "013"%char.

Definition LF : ascii := "010"%char.

(** What may follow the checksum: what [\r?\n?$] matches. *)
Definition line_end (t : list ascii) : Prop :=
  t = [] ∨ t = [CR] ∨ t = [LF] ∨ t = [CR; LF] ∨ t = [LF; LF]
  ∨ t = [CR; LF; LF].

(** Two or three characters of A-Z and 0-9, then three of A-Z. *)
Definition talker_sentence (ts : list ascii) : Prop :=
  ∃ t u, ts = t ++ u ∧ (length t = 2 ∨ length t = 3)%nat
    ∧ Forall (λ a, is_A_Z_0_9 a = true) t
    ∧ length u = 3%nat ∧ Forall (λ a, is_A_Z a = true) u.

(** The line [s] is the frame [$ ts , body * hh] and a line end. *)
Definition framed (s ts body hh : string) : Prop :=
  ∃ tail,
    chars s = "$"%char :: chars ts ++ ","%char :: chars body
              ++ "*"%char :: chars hh ++ tail
    ∧ talker_sentence (chars ts)
    ∧ Forall (λ a, not_newline a = true) (chars body)
    ∧ length (chars hh) = 2%nat
    ∧ Forall (λ a, is_0_9_A_F a = true) (chars hh)
    ∧ line_end tail.

(** ** The checksum *)

(** The running XOR of [nmea_checksum]. *)
Definition xor_codes (cs : list ascii) : Z :=
  fold_left (λ c ch, Z.lxor c (code ch)) cs 0.

(** The value of a hexadecimal digit, and of a string of them. *)
Definition hex_val (c : ascii) : Z :=
  if is_digit c then code c - 48 else code c - 55.

Definition hex_value (s : string) : Z :=
  fold_left (λ acc c, 16 * acc + hex_val c) (chars s) 0.

(** ** The keys of an update and what they hold *)

(** What a key holds: a time stamp, a flag, a number, a number or [None],
    a count or [None], a text, a text or [None], the table of the
    constellations. *)
Inductive kind : Type :=
| KTime | KBool | KFloat | KOptFloat | KOptInt | KStr | KOptStr | KGsv.

(** The keys that [parse_sentence] and [merge_updates] write, each with
    what is stored under it; they are the keys that [--help-format]
    lists. *)
Definition schema : list (string * kind) :=
  [("utc_time", KTime); ("lat", KFloat); ("lon", KFloat);
   ("alt_m", KOptFloat); ("fix_ok", KBool); ("fix_quality", KOptInt);
   ("fix_type", KOptInt); ("mode", KStr); ("num_sats", KOptInt);
   ("gsv", KGsv); ("hdop", KOptFloat); ("vdop", KOptFloat);
   ("pdop", KOptFloat); ("speed_mps", KFloat); ("speed_kmh", KFloat);
   ("course_deg", KOptFloat); ("geoid_sep_m", KOptFloat);
   ("age_corrections_s", KOptFloat); ("dgps_id", KOptStr);
   ("rms_range_err_m", KOptFloat); ("sd_lat_m", KOptFloat);
   ("sd_lon_m", KOptFloat); ("sd_alt_m", KOptFloat);
   ("last_update", KFloat)].

Fixpoint assoc {A : Type} (k : string) (l : list (string * A)) : option A :=
  match l with
  | [] => None
  | (k', a) :: l' => if String.eqb k k' then Some a else assoc k l'
  end.

Definition kind_of (k : string) : option kind := assoc k schema.

(** One entry of the table of the constellations: [{'in_view': n}]. *)
Definition in_view_entry (obj : gmap string Z) : Prop :=
  ∃ n, obj = {["in_view" := n]} ∧ 0 ≤ n.

Definition has_kind (kd : kind) (v : value) : Prop :=
  match kd, v with
  | KTime, VStr s => s ≠ ""
  | KBool, VBool _ => True
  | KFloat, VFloat _ => True
  | KOptFloat, (VFloat _ | VNone) => True
  | KOptInt, VInt n => 0 ≤ n
  | KOptInt, VNone => True
  | KStr, VStr _ => True
  | KOptStr, (VStr _ | VNone) => True
  | KGsv, VGsv g => map_Forall (λ _, in_view_entry) g
  | _, _ => False
  end.

Definition typed (k : string) (v : value) : Prop :=
  ∃ kd, kind_of k = Some kd ∧ has_kind kd v.

(** Every entry is under a key of the schema and holds what the schema
    says. *)
Definition well_typed (u : dict) : Prop :=
  ∀ k v, u !! k = Some v → typed k v.

(** ** The states of [main] *)

(** The keys that [--help-format] lists. *)
Definition help_format_keys : list string :=
  ["utc_time"; "lat"; "lon"; "alt_m"; "fix_ok"; "fix_quality"; "fix_type";
   "mode"; "num_sats"; "gsv"; "hdop"; "vdop"; "pdop"; "speed_mps";
   "speed_kmh"; "course_deg"; "geoid_sep_m"; "age_corrections_s";
   "dgps_id"; "rms_range_err_m"; "sd_lat_m"; "sd_lon_m"; "sd_alt_m";
   "last_update"].

(** ** The status line *)

(** The keys that [human_status] reads. *)
Definition shown_keys : list string :=
  ["utc_time"; "fix_quality"; "fix_type"; "lat"; "lon"; "alt_m";
   "num_sats"; "hdop"; "pdop"; "vdop"; "speed_kmh"; "course_deg"; "gsv"].

(** ** The loop of [--once] *)

(** The events of an iteration, however it ends. *)
Definition outcome_events (o : outcome) : list event :=
  match o with
  | Continue _ evs | Break _ evs | Crash _ evs => evs
  end.

Definition is_echo_or_log (e : event) : bool :=
  match e with Echo _ | LogWrite _ => true | _ => false end.

(** ** Sentences without a time or a position *)

Definition is_ascii (c : ascii) : Prop := code c < 128.

(** A field as [main] hands it to the decoder: ASCII characters, and no
    more of them than [int] accepts digits. *)
Definition plain_field (f : string) : Prop :=
  Forall is_ascii (chars f) ∧ Z.of_nat (length (chars f)) ≤ max_str_digits.

(** ** Time of day *)

(** A fraction of a second as NMEA writes it: nothing, or a point and one
    to three digits. *)
Definition fraction (frac : string) : Prop :=
  frac = ""
  ∨ ∃ (k : nat) (n : Z), (1 ≤ k ≤ 3)%nat ∧ 0 ≤ n < 10 ^ Z.of_nat k
      ∧ frac = ("." +:+ zero_pad k n)%string.

Definition fraction_ok (ss : Z) (k : nat) (n : Z) : bool :=
  result_is (int_of_float_str (zero_pad 2 ss +:+ "." +:+ zero_pad k n)) ss.

Definition fractions_ok (ss : Z) : bool :=
  forallb (λ k, forallb (fraction_ok ss k)
                  (map Z.of_nat (seq 0 (10 ^ k))))
    [1; 2; 3]%nat.

(** ** The keys of each sentence type *)

(** The keys that a sentence of type [tp] with enough fields always
    writes, and the keys that it writes when it has a value for them. *)
Definition always_keys (tp : string) : list string :=
  if String.eqb tp "RMC" then ["fix_ok"; "course_deg"]
  else if String.eqb tp "GGA" then
    ["fix_quality"; "num_sats"; "hdop"; "alt_m"; "geoid_sep_m";
     "age_corrections_s"; "dgps_id"]
  else if String.eqb tp "GNS" then ["mode"; "num_sats"; "hdop"; "alt_m"]
  else if String.eqb tp "GSA" then ["fix_type"; "pdop"; "hdop"; "vdop"]
  else if String.eqb tp "VTG" then ["course_deg"]
  else if String.eqb tp "GST" then
    ["rms_range_err_m"; "sd_lat_m"; "sd_lon_m"; "sd_alt_m"]
  else [].

Definition maybe_keys (tp : string) : list string :=
  if String.eqb tp "RMC" then
    ["utc_time"; "lat"; "lon"; "speed_mps"; "speed_kmh"; "mode"]
  else if String.eqb tp "GGA" then ["utc_time"; "lat"; "lon"]
  else if String.eqb tp "GNS" then ["utc_time"; "lat"; "lon"; "geoid_sep_m"]
  else if String.eqb tp "GSV" then ["gsv"]
  else if String.eqb tp "VTG" then ["speed_mps"; "speed_kmh"; "mode"]
  else if String.eqb tp "GST" then ["utc_time"]
  else [].

(** ** The two speeds *)

(** The state holds both speeds or neither, and the two are those of one
    sentence: one of them computed from the other. *)
Definition speeds_agree (st : dict) : Prop :=
  match st !! "speed_mps", st !! "speed_kmh" with
  | None, None => True
  | Some (VFloat mps), Some (VFloat kmh) =>
      kmh = (mps * 3.6)%float ∨ mps = (kmh / 3.6)%float
  | _, _ => False
  end.

(** ** Whole minutes *)

(** The float of an int that a float has exactly. *)
Definition of_int (z : Z) : float :=
  SF2Prim (binary_normalize prec emax z 0 false).

Definition same_float (x y : float) : bool :=
  match Prim2SF x, Prim2SF y with
  | S754_zero s, S754_zero s' => Bool.eqb s s'
  | S754_infinity s, S754_infinity s' => Bool.eqb s s'
  | S754_nan, S754_nan => true
  | S754_finite s m e, S754_finite s' m' e' =>
      Bool.eqb s s' && Pos.eqb m m' && Z.eqb e e'
  | _, _ => false
  end.

Definition whole_minutes_ok (w : nat) (dd mm : Z) : bool :=
  match dm_to_deg (zero_pad w dd +:+ zero_pad 2 mm) "N" with
  | Ok (Some x) => same_float x (of_int dd + of_int mm / 60)%float
  | _ => false
  end.

(** The sign that the hemisphere gives. *)
Definition signed (hemi : string) (x : float) : float :=
  if String.eqb hemi "S" || String.eqb hemi "W" then (- x)%float else x.

(** ** The constellations in the status line *)

Definition str_le (a b : string) : Prop := String.leb a b = true.

(** ** Exceptions *)

Definition is_gsv (v : value) : Prop := ∃ d, v = VGsv d.

Definition value_or_overflow (e : exn) : Prop :=
  e = ValueError ∨ e = OverflowError.

(** ** C9: an empty update skips the merge *)

(** A VTG sentence whose fields are all empty. *)
Definition vtg_empty_line : string := "$GPVTG,,T,,M,,N,,K*4E".

Definition vtg_empty_fields : list string := [""; "T"; ""; "M"; ""; "N"; ""; "K"].

(** A state with a course, last updated at clock reading 5. *)
Definition course_state : dict :=
  <["last_update" := VFloat 5]> {["course_deg" := VFloat 84.4]}.

(** ** C2: what a merge can change *)

(** The keys that the decoder writes with [None] when the field of the
    sentence does not parse or is not there. *)
Definition nullable_keys : list string :=
  ["course_deg"; "fix_quality"; "num_sats"; "hdop"; "alt_m"; "geoid_sep_m";
   "age_corrections_s"; "dgps_id"; "fix_type"; "pdop"; "vdop";
   "rms_range_err_m"; "sd_lat_m"; "sd_lon_m"; "sd_alt_m"].

(** A GGA sentence with twelve fields has no field 13, and a GGA sentence
    whose HDOP field is empty has no HDOP. *)
Definition gga_14 : list string :=
  ["123519"; "4807.038"; "N"; "01131.000"; "E"; "2"; "08"; "0.9"; "545.4";
   "M"; "46.9"; "M"; "3.2"; "0001"].

Definition gga_12 : list string :=
  ["123520"; "4807.038"; "N"; "01131.000"; "E"; "1"; "08"; ""; "545.4";
   "M"; "46.9"; "M"].

(** The update of the twelve-field sentence. *)
Definition gga12_update : dict :=
  match parse_sentence (mk_datetime 2026 11 4 0 0 0 0) "GPGGA" gga_12 with
  | Ok u => u
  | Raise _ => ∅
  end.

(** A state with an HDOP and a table of constellations. *)
Definition hdop_gsv_state : dict :=
  <["gsv" := VGsv {["GP" := {["in_view" := 7]}]}]> {["hdop" := VFloat 0.9]}.

(** The first GGA sentence, then the second: the second update and the
    states after each merge. *)
Definition gga_then_gga : result (dict * dict * dict) :=
  u1 ← parse_sentence (mk_datetime 2026 11 4 0 0 0 0) "GPGGA" gga_14;
  u2 ← parse_sentence (mk_datetime 2026 11 4 0 0 0 0) "GPGGA" gga_12;
  st1 ← merge_updates ∅ u1 1%float;
  st2 ← merge_updates st1 u2 2%float;
  Ok (u2, st1, st2).

(** ** C7: the emission gate *)

Definition is_emit (e : event) : bool :=
  match e with Emit _ => true | _ => false end.

(** [spaced t t']: the clock reading [t'] is at least one cadence tick
    after [t], through a chain of readings each of which passed
    [now - last_emit >= 1.0] against the one before. *)
Inductive spaced : float → float → Prop :=
| spaced_tick t t' : tick t' t = true → spaced t t'
| spaced_more t t' t'' : spaced t t' → spaced t' t'' → spaced t t''.

(** The records among the events of an iteration. *)
Definition emitted (evs : list event) : list string :=
  omap (λ e, match e with Emit s => Some s | _ => None end) evs.

(** The records that an iteration hands over: those that it prints and,
    under [--once], those that it appends to [outputs]. [l] holds the
    variables of the loop before the iteration. *)
Definition produced (l : loop) (o : outcome) : list string :=
  emitted (outcome_events o)
  ++ match outcome_loop o with
     | Some l' => drop (length (outputs l)) (outputs l')
     | None => []
     end.

Definition vtg_line : string := "$GPVTG,054.7,T,034.4,M,005.5,N,010.2,K*48".

Definition vtg_fields : list string :=
  ["054.7"; "T"; "034.4"; "M"; "005.5"; "N"; "010.2"; "K"].

(** The state after that VTG sentence, from the empty state. *)
Definition vtg_state (clk : clock) : dict :=
  match decode_and_merge clk ∅ "GPVTG" vtg_fields with
  | Ok st => st
  | Raise _ => ∅
  end.

Definition partial_args : args :=
  {| args_raw := false; args_log := false; args_once := false;
     args_partial := true; args_format := None; args_json := false |}.

Definition once_partial_args : args :=
  {| args_raw := false; args_log := false; args_once := true;
     args_partial := true; args_format := None; args_json := false |}.

Definition clock_1000 : clock :=
  {| utc_now := mk_datetime 2026 11 4 0 0 0 0;
     merge_time := 1000; loop_time := 1000 |}.

Definition plain_args : args :=
  {| args_raw := false; args_log := false; args_once := false;
     args_partial := false; args_format := None; args_json := false |}.

(** The iterations of a run, one by one. *)
Section Trace.

Variable human_status : dict → string.

Variable json_line : dict → string.

Variable format_percent : string → dict → result string.

(** For each line read: the variables of the loop before the iteration,
    the clock readings of the iteration and how it ends. The iteration
    that leaves the loop of [--once] and a crash end the list. *)
Fixpoint iterations (a : args) (l : loop) (input : list (string * clock))
  : list (loop * clock * outcome) :=
  match input with
  | [] => []
  | (raw, clk) :: rest =>
      let o := body human_status json_line format_percent a l raw clk in
      (l, clk, o) :: match o with
                     | Continue l' _ => iterations a l' rest
                     | _ => []
                     end
  end.

(** The clock reading of an iteration that handed over a record. *)
Definition record_time (it : loop * clock * outcome) : option float :=
  match produced it.1.1 it.2 with
  | [] => None
  | _ => Some (loop_time it.1.2)
  end.

Definition record_times (a : args) (l : loop) (input : list (string * clock))
  : list float :=
  omap record_time (iterations a l input).

End Trace.

(** * Properties *)

(** ** The state merger, key by key *)

Lemma update_gsv_union (g d : gmap string (gmap string Z)) :
  update_gsv g d = d ∪ g.
Proof.
  unfold update_gsv.
  apply (map_fold_weak_ind (λ r m, r = m ∪ g)).
  - by rewrite (left_id_L ∅ (∪)).
  - intros i x m r _ ->. by rewrite insert_union_l.
Qed.

(** The loop of [merge_updates] does not depend on the order of the items:
    the scalar keys overwrite, and the key [gsv] is merged once. *)
Lemma merge_loop_spec (state updates : dict) :
  map_fold (λ k v acc, acc ≫= merge_item k v) (Ok state) updates =
  match updates !! "gsv" with
  | None => Ok (updates ∪ state)
  | Some v => st ← merge_item "gsv" v state; Ok (delete "gsv" updates ∪ st)
  end.
Proof.
  apply (map_fold_weak_ind (λ r (m : dict),
    r = match m !! "gsv" with
        | None => Ok (m ∪ state)
        | Some v => st ← merge_item "gsv" v state; Ok (delete "gsv" m ∪ st)
        end)).
  - rewrite lookup_empty. by rewrite (left_id_L ∅ (∪)).
  - intros k x m r Hk ->.
    destruct (decide (k = "gsv")) as [->|Hne].
    + rewrite Hk, lookup_insert_eq, delete_insert_eq, delete_id by done.
      simpl. unfold merge_item at 1 2. simpl.
      rewrite lookup_union_r by done.
      destruct x; try done.
      destruct (default (VGsv ∅) (state !! "gsv")); simpl;
        try (case_bool_decide; simpl);
        rewrite ?insert_union_r by done; done.
    + rewrite lookup_insert_ne by done.
      assert (String.eqb k "gsv" = false) as Hk' by by apply String.eqb_neq.
      destruct (m !! "gsv") as [v|] eqn:Hg; simpl.
      * destruct (merge_item "gsv" v state) as [st|e]; simpl; [|done].
        unfold merge_item. rewrite Hk'.
        by rewrite delete_insert_ne, insert_union_l by done.
      * unfold merge_item. rewrite Hk'. by rewrite insert_union_l.
Qed.

Lemma merge_updates_scalars (state updates : dict) (now : float) :
  updates !! "gsv" = None →
  merge_updates state updates now
  = Ok (<["last_update" := VFloat now]> (updates ∪ state)).
Proof.
  intros Hg. unfold merge_updates. rewrite merge_loop_spec, Hg. done.
Qed.

Lemma merge_updates_gsv (state updates : dict) (now : float)
    (d : gmap string (gmap string Z)) :
  gsv_ok state → updates !! "gsv" = Some (VGsv d) →
  merge_updates state updates now
  = Ok (<["last_update" := VFloat now]>
          (delete "gsv" updates ∪ <["gsv" := VGsv (d ∪ gsv_of state)]> state)).
Proof.
  intros Hok Hg. unfold merge_updates. rewrite merge_loop_spec, Hg.
  unfold merge_item, gsv_ok, gsv_of in *. simpl.
  destruct (state !! "gsv") as [[]|]; simpl in *; try done;
    by rewrite update_gsv_union.
Qed.

(** ** What a decoded update can hold *)

Lemma entries_ok_empty : entries_ok ∅.
Proof. intros k v H. by rewrite lookup_empty in H. Qed.

Lemma entries_ok_insert (k : string) (v : value) (u : dict) :
  entry_ok k v → entries_ok u → entries_ok (<[k := v]> u).
Proof.
  intros Hk Hu k' v' H.
  apply lookup_insert_Some in H as [[<- <-]|[_ H]]; auto.
Qed.

Lemma entry_ok_plain (k : string) (v : value) :
  k ≠ "last_update" → k ≠ "gsv" → ¬ never_null k → entry_ok k v.
Proof. intros ???. repeat split; done. Qed.

Lemma entry_ok_float (k : string) (f : float) :
  k ≠ "last_update" → k ≠ "gsv" → entry_ok k (VFloat f).
Proof. intros ??. repeat split; done. Qed.

Lemma entry_ok_str (k : string) (s : string) :
  k ≠ "last_update" → k ≠ "gsv" → entry_ok k (VStr s).
Proof. intros ??. repeat split; done. Qed.

Lemma entries_ok_set_utc_time (t : option datetime) (u : dict) :
  entries_ok u → entries_ok (set_utc_time t u).
Proof.
  intros. destruct t; simpl; [|done].
  apply entries_ok_insert; [|done]. by apply entry_ok_str.
Qed.

Lemma entries_ok_set_if_some (k : string) (o : option float) (u : dict) :
  k ≠ "last_update" → k ≠ "gsv" → entries_ok u →
  entries_ok (set_if_some k o u).
Proof.
  intros. destruct o; simpl; [|done].
  apply entries_ok_insert; [|done]. by apply entry_ok_float.
Qed.

Lemma entries_ok_set_gsv_entry (talker : string) (obj : gmap string Z)
    (u u' : dict) :
  entries_ok u → set_gsv_entry talker obj u = Ok u' → entries_ok u'.
Proof.
  unfold set_gsv_entry. intros Hu H.
  destruct (default (VGsv ∅) (u !! "gsv")); try discriminate H.
  injection H as <-. apply entries_ok_insert; [|done].
  repeat split; [done|by eauto|]. unfold never_null. intuition discriminate.
Qed.

(** Unfolds the [Ok] result of a decoder branch, one bind or test at a
    time. *)
Ltac bind_ok H :=
  repeat match type of H with
  | (?m ≫= _) = Ok _ => destruct m eqn:?; simpl in H; [|discriminate H]
  | (if ?b then _ else _) = Ok _ => destruct b eqn:?
  | match ?m with _ => _ end = Ok _ => destruct m eqn:?
  | Ok _ = Ok _ => injection H as <-
  | Raise _ = Ok _ => discriminate H
  end.

Ltac entries :=
  repeat first
    [ assumption
    | apply entries_ok_empty
    | apply entries_ok_set_utc_time
    | apply entries_ok_set_if_some; [done|done|]
    | apply entries_ok_insert;
      [first [ by apply entry_ok_float
             | by apply entry_ok_str
             | apply entry_ok_plain;
               [done|done|unfold never_null; intuition discriminate] ]|]
    | match goal with
      | |- entries_ok (if ?b then _ else _) => destruct b
      | |- entries_ok (match ?b with _ => _ end) => destruct b
      end ].

Lemma parse_sentence_entries (now : datetime) (talker_sen : string)
    (fields : list string) (u : dict) :
  parse_sentence now talker_sen fields = Ok u → entries_ok u.
Proof.
  unfold parse_sentence. intros H.
  repeat match type of H with
  | (if ?b then _ else _) = Ok _ => destruct b eqn:?
  end.
  - unfold parse_RMC in H. bind_ok H; entries.
  - unfold parse_GGA in H. bind_ok H; entries.
  - unfold parse_GNS in H. bind_ok H; entries.
  - unfold parse_GSA in H. bind_ok H; entries.
  - unfold parse_GSV in H. bind_ok H; entries;
      eapply entries_ok_set_gsv_entry; try eassumption; entries.
  - unfold parse_VTG in H. bind_ok H; entries.
  - unfold parse_GST in H.
    destruct (bool_decide (5 ≤ length fields)%nat); [|injection H as <-; entries].
    destruct (truthy (item fields 0)); simpl in H; bind_ok H; entries;
      match goal with Hr : _ ≫= _ = Ok _ |- _ => bind_ok Hr end; entries.
  - injection H as <-. entries.
Qed.

Lemma decoded_entries (u : dict) : decoded u → entries_ok u.
Proof. intros (?&?&?&H). by eapply parse_sentence_entries. Qed.

Lemma gsv_ok_empty : gsv_ok ∅.
Proof. unfold gsv_ok. by rewrite lookup_empty. Qed.

Lemma gsv_ok_insert (k : string) (v : value) (st : dict) :
  k ≠ "gsv" → gsv_ok st → gsv_ok (<[k := v]> st).
Proof. intros ??. unfold gsv_ok. by rewrite lookup_insert_ne. Qed.

(** On the states of [main], merging a decoded update does not raise, and
    the new state is known key by key. *)
Lemma merge_updates_decoded (st u : dict) (now : float) :
  gsv_ok st → entries_ok u →
  ∃ st', merge_updates st u now = Ok st' ∧ gsv_ok st'
    ∧ st' !! "last_update" = Some (VFloat now)
    ∧ (∀ k, k ≠ "last_update" → u !! k = None → st' !! k = st !! k)
    ∧ (∀ k v, k ≠ "gsv" → u !! k = Some v → st' !! k = Some v)
    ∧ (∀ d, u !! "gsv" = Some (VGsv d) →
         st' !! "gsv" = Some (VGsv (d ∪ gsv_of st))).
Proof.
  intros Hst Hu. destruct (u !! "gsv") as [v|] eqn:Hg.
  - destruct (Hu _ _ Hg) as (_ & [d ->] & _); [done|].
    rewrite (merge_updates_gsv _ _ _ d) by done.
    eexists; split; [done|]. split; [|split; [|split; [|split]]].
    + unfold gsv_ok. rewrite lookup_insert_ne by done.
      rewrite lookup_union_r by by rewrite lookup_delete_eq.
      by rewrite lookup_insert_eq.
    + by rewrite lookup_insert_eq.
    + intros k Hk Hn. rewrite lookup_insert_ne by done.
      assert (k ≠ "gsv") by (intros ->; congruence).
      rewrite lookup_union_r by by rewrite lookup_delete_ne.
      by rewrite lookup_insert_ne.
    + intros k v Hk Hv. destruct (Hu _ _ Hv) as (Hl & _).
      rewrite lookup_insert_ne by done.
      apply lookup_union_Some_l. by rewrite lookup_delete_ne.
    + intros d' [= <-]. rewrite lookup_insert_ne by done.
      rewrite lookup_union_r by by rewrite lookup_delete_eq.
      by rewrite lookup_insert_eq.
  - rewrite merge_updates_scalars by done.
    eexists; split; [done|]. split; [|split; [|split; [|split]]].
    + unfold gsv_ok in *. rewrite lookup_insert_ne by done.
      by rewrite lookup_union_r.
    + by rewrite lookup_insert_eq.
    + intros k Hk Hn. rewrite lookup_insert_ne by done.
      by rewrite lookup_union_r.
    + intros k v Hk Hv. destruct (Hu _ _ Hv) as (Hl & _).
      rewrite lookup_insert_ne by done. by apply lookup_union_Some_l.
    + intros d' [=].
Qed.

Lemma merge_all_app (st : dict) (us1 us2 : list (dict * float)) :
  merge_all st (us1 ++ us2) = st' ← merge_all st us1; merge_all st' us2.
Proof.
  revert st. induction us1 as [|[u t] us1 IH]; intros st; simpl; [done|].
  destruct (merge_updates st u t); simpl; [apply IH|done].
Qed.

Lemma merge_all_decoded (st : dict) (us : list (dict * float)) :
  gsv_ok st → Forall (λ ut, entries_ok ut.1) us →
  ∃ st', merge_all st us = Ok st' ∧ gsv_ok st'
    ∧ (∀ k, k ≠ "last_update" → Forall (λ ut, ut.1 !! k = None) us →
         st' !! k = st !! k)
    ∧ (∀ k, is_Some (st !! k) → is_Some (st' !! k)).
Proof.
  intros Hst Hus. revert st Hst.
  induction Hus as [|[u t] us Hu Hus IH]; intros st Hst.
  - exists st. by repeat split.
  - destruct (merge_updates_decoded st u t Hst Hu)
      as (st1 & Hm & Hok1 & Hlu & Hframe & Hset & _).
    destruct (IH st1 Hok1) as (st' & Hm' & Hok' & Hframe' & Hsome').
    exists st'. simpl. rewrite Hm. simpl. split; [done|]. split; [done|]. split.
    + intros k Hk Hall. inversion Hall as [|? ? Hk1 Hall']; subst.
      rewrite Hframe' by done. by apply Hframe.
    + intros k Hsome. apply Hsome'.
      destruct (decide (k = "last_update")) as [->|Hk]; [by rewrite Hlu|].
      destruct (u !! k) as [v|] eqn:Hv.
      * destruct (decide (k = "gsv")) as [->|Hg].
        -- destruct (Hu _ _ Hv) as (_ & [d ->] & _); [done|].
           destruct (merge_updates_decoded st u t Hst Hu)
             as (st1' & Hm1 & _ & _ & _ & _ & Hgsv).
           rewrite Hm in Hm1. injection Hm1 as <-.
           rewrite (Hgsv d) by done. eauto.
        -- rewrite (Hset k v) by done. eauto.
      * by rewrite Hframe.
Qed.

(** ** Sentence types and their minimum field counts *)

Lemma parse_sentence_empty (now : datetime) (ts : string)
    (fields : list string) :
  ¬ recognized (last_n 3 ts) ∨ (length fields < min_fields (last_n 3 ts))%nat →
  parse_sentence now ts fields = Ok ∅.
Proof.
  unfold parse_sentence, recognized, min_fields.
  intros [Hn|Hs].
  - repeat match goal with
    | |- context [String.eqb ?a ?b] =>
        destruct (String.eqb_spec a b) as [Heq|_];
        [exfalso; apply Hn; rewrite Heq; set_solver|]
    end. done.
  - repeat match goal with
    | |- context [String.eqb ?a ?b] =>
        destruct (String.eqb_spec a b) as [Heq|_]
    end;
    try rewrite Heq in Hs; simpl in Hs; try lia;
    unfold parse_RMC, parse_GGA, parse_GNS, parse_GSA, parse_GSV,
      parse_VTG, parse_GST;
    rewrite bool_decide_eq_false_2 by lia; done.
Qed.

Lemma item_insert_ne (fields : list string) (i j : nat) (x : string) :
  i ≠ j → item (<[i := x]> fields) j = item fields j.
Proof.
  intros. unfold item. rewrite !nth_lookup. by rewrite list_lookup_insert_ne.
Qed.

Lemma truthy_ne (s : string) : truthy s = true ↔ s ≠ "".
Proof. destruct s; simpl; split; congruence. Qed.

Lemma truthy_false (s : string) : truthy s = false ↔ s = "".
Proof. destruct s; simpl; split; congruence. Qed.

Lemma parse_GSV_result (talker : string) (fields : list string) (u : dict) :
  parse_GSV talker fields ∅ = Ok u → u ≠ ∅ →
  ∃ n, int_of_str (item fields 2) = Ok n
       ∧ u = {["gsv" := VGsv {[talker := {["in_view" := n]}]}]}.
Proof.
  unfold parse_GSV, int_if_digit. intros H Hne.
  destruct (bool_decide _); [|by injection H as <-].
  destruct (isdigit _); [|by injection H as <-].
  destruct (int_of_str _) as [n|]; simpl in H; [|done].
  exists n. split; [done|]. unfold set_gsv_entry in H.
  rewrite lookup_empty in H. simpl in H. by injection H as <-.
Qed.

(** ** C4: per-constellation merge *)

(** C4. Merging the update of a GSV sentence replaces the satellites-in-view
    entry of the sentence's constellation only, and every other
    constellation keeps its entry; from the empty state, GP:7 then GL:5
    gives GP:7, GL:5, and GP:9 after that gives GP:9, GL:5. *)
Theorem gsv_merge_replaces_one_constellation :
  (∀ (now : datetime) (ts : string) (fields : list string) (st u : dict)
     (t : float),
     last_n 3 ts = "GSV" → gsv_ok st →
     parse_sentence now ts fields = Ok u → u ≠ ∅ →
     ∃ n st',
       int_of_str (item fields 2) = Ok n
       ∧ merge_updates st u t = Ok st'
       ∧ gsv_of st' = <[drop_last 3 ts := {["in_view" := n]}]> (gsv_of st)
       ∧ ∀ c, c ≠ drop_last 3 ts → gsv_of st' !! c = gsv_of st !! c)
  ∧ (∀ (now : datetime) (t1 t2 t3 : float),
     ∃ st1 st2 st3,
       gsv_fixture now t1 t2 t3 = Ok (st1, st2, st3)
       ∧ in_view_counts (gsv_of st1) = {[ "GP" := 7 ]}
       ∧ in_view_counts (gsv_of st2) = {[ "GP" := 7; "GL" := 5 ]}
       ∧ in_view_counts (gsv_of st3) = {[ "GP" := 9; "GL" := 5 ]}).
Proof.
  split.
  - intros now ts fields st u t Htp Hst Hu Hne.
    unfold parse_sentence in Hu. rewrite Htp in Hu. simpl in Hu.
    destruct (parse_GSV_result _ _ _ Hu Hne) as (n & Hn & ->).
    exists n. eexists. split; [done|]. split.
    + apply (merge_updates_gsv _ _ _ {[drop_last 3 ts := {["in_view" := n]}]});
        [done|]. by rewrite lookup_singleton_eq.
    + assert (gsv_of (<["last_update":=VFloat t]>
                (delete "gsv" {["gsv" := VGsv {[drop_last 3 ts := {["in_view" := n]}]}]}
                 ∪ <["gsv":=VGsv ({[drop_last 3 ts := {["in_view" := n]}]} ∪ gsv_of st)]> st))
              = <[drop_last 3 ts := {["in_view" := n]}]> (gsv_of st)) as Hg.
      { unfold gsv_of at 1. rewrite lookup_insert_ne by done.
        rewrite lookup_union_r by by rewrite lookup_delete_eq.
        rewrite lookup_insert_eq. by rewrite insert_union_singleton_l. }
      split; [done|]. intros c Hc. rewrite Hg. by rewrite lookup_insert_ne.
  - intros now t1 t2 t3.
    assert (parse_sentence now "GPGSV" ["1"; "1"; "07"]
            = Ok {["gsv" := VGsv {["GP" := {["in_view" := 7]}]}]}) as H1
      by reflexivity.
    assert (parse_sentence now "GLGSV" ["1"; "1"; "05"]
            = Ok {["gsv" := VGsv {["GL" := {["in_view" := 5]}]}]}) as H2
      by reflexivity.
    assert (parse_sentence now "GPGSV" ["1"; "1"; "09"]
            = Ok {["gsv" := VGsv {["GP" := {["in_view" := 9]}]}]}) as H3
      by reflexivity.
    unfold gsv_fixture. rewrite H1, H2, H3. simpl.
    rewrite (merge_updates_gsv _ _ _ {["GP" := {["in_view" := 7]}]}) by done.
    simpl.
    erewrite (merge_updates_gsv _ _ _ {["GL" := {["in_view" := 5]}]});
      [|by unfold gsv_ok; simplify_map_eq|done].
    simpl.
    erewrite (merge_updates_gsv _ _ _ {["GP" := {["in_view" := 9]}]});
      [|by unfold gsv_ok; simplify_map_eq|done].
    simpl. do 3 eexists. split; [done|].
    unfold gsv_of. simplify_map_eq. split; [|split]; by vm_compute.
Qed.

Lemma gsv_merge_witness :
  ∃ n st',
    int_of_str "07" = Ok n
    ∧ merge_updates ∅ {["gsv" := VGsv {["GP" := {["in_view" := 7]}]}]} 1%float
      = Ok st'
    ∧ gsv_of st' = <["GP" := {["in_view" := n]}]> (gsv_of ∅)
    ∧ ∀ c, c ≠ "GP" → gsv_of st' !! c = gsv_of (∅ : dict) !! c.
Proof.
  apply (proj1 gsv_merge_replaces_one_constellation
           (mk_datetime 2026 11 4 0 0 0 0) "GPGSV" ["1"; "1"; "07"] ∅ _ 1%float).
  - reflexivity.
  - exact I.
  - reflexivity.
  - by vm_compute.
Defined.

(** ** C10: speed in a VTG sentence *)

Lemma parse_sentence_VTG (now : datetime) (ts : string) (fields : list string) :
  last_n 3 ts = "VTG" → parse_sentence now ts fields = parse_VTG fields ∅.
Proof. intros H. unfold parse_sentence. by rewrite H. Qed.

(** C10. In a VTG sentence of at least 7 fields the course is always
    written from field 0: the number that the field spells, [None] when it
    spells none. When field 4 (knots) is not empty, field 6 (km/h) is not
    read: whatever it holds, the update is the same, and when field 4 does
    not parse there is no speed key at all. Field 6 is used when field 4
    is the empty string. So for the sentence with course 054.7 and 010.2
    km/h: with [5.5kn] for the knots the update holds the course 54.7 and
    no speed, with no knots it holds 10.2 km/h and 10.2 / 3.6 m/s. *)
Theorem vtg_kmh_only_when_knots_empty :
  (∀ (now : datetime) (ts : string) (fields : list string),
     last_n 3 ts = "VTG" → (7 ≤ length fields)%nat →
     ∃ u, parse_sentence now ts fields = Ok u
       ∧ (∀ c, float_of_str (item fields 0) = Some c →
            u !! "course_deg" = Some (VFloat c))
       ∧ (float_of_str (item fields 0) = None →
            u !! "course_deg" = Some VNone)
       ∧ (item fields 4 ≠ "" →
          (∀ x, parse_sentence now ts (<[6%nat := x]> fields) = Ok u)
          ∧ (float_of_str (item fields 4) = None →
             u !! "speed_mps" = None ∧ u !! "speed_kmh" = None)
          ∧ (∀ kn, float_of_str (item fields 4) = Some kn →
             u !! "speed_mps" = Some (VFloat (kn * 0.514444)%float)
             ∧ u !! "speed_kmh" = Some (VFloat (kn * 0.514444 * 3.6)%float)))
       ∧ (item fields 4 = "" →
          (∀ kmh, float_of_str (item fields 6) = Some kmh →
             u !! "speed_kmh" = Some (VFloat kmh)
             ∧ u !! "speed_mps" = Some (VFloat (kmh / 3.6)%float))
          ∧ (float_of_str (item fields 6) = None →
             u !! "speed_mps" = None ∧ u !! "speed_kmh" = None)))
  ∧ (∀ now,
       (λ u, (u !! "course_deg", u !! "speed_mps", u !! "speed_kmh"))
         <$> parse_sentence now "GPVTG"
               ["054.7"; "T"; "034.4"; "M"; "5.5kn"; "N"; "010.2"; "K"]
       = Ok (Some (VFloat 54.7), None, None))
  ∧ (∀ now,
       (λ u, (u !! "course_deg", u !! "speed_mps", u !! "speed_kmh"))
         <$> parse_sentence now "GPVTG"
               ["054.7"; "T"; "034.4"; "M"; ""; "N"; "010.2"; "K"]
       = Ok (Some (VFloat 54.7), Some (VFloat (10.2 / 3.6)),
             Some (VFloat 10.2))).
Proof.
  split; [|split; intros now; vm_compute; reflexivity].
  intros now ts fields Htp Hlen. eexists. split.
  { rewrite parse_sentence_VTG by done. unfold parse_VTG.
    rewrite bool_decide_eq_true_2 by done. reflexivity. }
  split; [|split; [|split]].
  - intros c Hc. unfold safe_float. rewrite Hc.
    destruct (bool_decide _ && _); destruct (truthy (item fields 4));
      try destruct (knots_to_mps _); try destruct (truthy (item fields 6));
      try destruct (float_of_str (item fields 6)); by simplify_map_eq.
  - intros Hc. unfold safe_float. rewrite Hc.
    destruct (bool_decide _ && _); destruct (truthy (item fields 4));
      try destruct (knots_to_mps _); try destruct (truthy (item fields 6));
      try destruct (float_of_str (item fields 6)); by simplify_map_eq.
  - intros H4. apply truthy_ne in H4. split; [|split].
    + intros x. rewrite parse_sentence_VTG by done. unfold parse_VTG.
      rewrite length_insert, bool_decide_eq_true_2 by done.
      rewrite !item_insert_ne by done. by rewrite H4.
    + intros Hf. rewrite H4. unfold knots_to_mps. rewrite Hf. simpl.
      destruct (bool_decide _ && _); by simplify_map_eq.
    + intros kn Hf. rewrite H4. unfold knots_to_mps. rewrite Hf. simpl.
      destruct (bool_decide _ && _); by simplify_map_eq.
  - intros H4. apply truthy_false in H4. rewrite H4. unfold safe_float.
    split.
    + intros kmh Hf. rewrite Hf.
      assert (truthy (item fields 6) = true) as ->.
      { destruct (item fields 6); [|done]. by vm_compute in Hf. }
      destruct (bool_decide _ && _); by simplify_map_eq.
    + intros Hf. rewrite Hf.
      destruct (truthy (item fields 6)), (bool_decide _ && _); by simplify_map_eq.
Qed.

Lemma vtg_witness :
  ∃ u, parse_sentence (mk_datetime 2026 11 4 0 0 0 0) "GPVTG"
         ["054.7"; "T"; "034.4"; "M"; "x"; "N"; "010.2"; "K"] = Ok u
    ∧ u !! "course_deg" = Some (VFloat 54.7)
    ∧ (∀ x, parse_sentence (mk_datetime 2026 11 4 0 0 0 0) "GPVTG"
              ["054.7"; "T"; "034.4"; "M"; "x"; "N"; x; "K"] = Ok u)
    ∧ u !! "speed_mps" = None ∧ u !! "speed_kmh" = None.
Proof.
  destruct (proj1 vtg_kmh_only_when_knots_empty
    (mk_datetime 2026 11 4 0 0 0 0)
    "GPVTG" ["054.7"; "T"; "034.4"; "M"; "x"; "N"; "010.2"; "K"] eq_refl
    ltac:(simpl; lia)) as (u & Hu & Hc & _ & H4 & _).
  destruct (H4 ltac:(discriminate)) as (Hx & Hn & _).
  exists u. split; [exact Hu|]. split.
  - apply Hc. vm_compute. reflexivity.
  - split; [exact Hx|]. apply Hn. reflexivity.
Defined.

(** ** C8: merging the same update twice *)

Lemma float_neq_by_eqb (x y : float) : PrimFloat.eqb x y = false →
  PrimFloat.eqb y y = true → x ≠ y.
Proof. intros Hxy Hyy ->. congruence. Qed.

(** C8, as the code has it. Merging a decoded update a second time changes
    nothing but [last_update], which takes the clock reading of the second
    call: the state after two merges is the state after one merge made at
    the time of the second. The merger is a function of the state, the
    update and the clock alone. *)
Theorem merge_twice_changes_only_last_update
    (st u : dict) (t1 t2 : float) :
  gsv_ok st → decoded u →
  ∃ s1 s2,
    merge_updates st u t1 = Ok s1
    ∧ merge_updates s1 u t2 = Ok s2
    ∧ s2 = <["last_update" := VFloat t2]> s1
    ∧ (∀ k, k ≠ "last_update" → s2 !! k = s1 !! k)
    ∧ merge_updates st u t2 = Ok s2.
Proof.
  intros Hst Hdec. pose proof (decoded_entries _ Hdec) as Hu.
  destruct (merge_updates_decoded st u t1 Hst Hu)
    as (s1 & Hm1 & Hok1 & Hlu1 & Hfr1 & Hset1 & Hg1).
  destruct (merge_updates_decoded s1 u t2 Hok1 Hu)
    as (s2 & Hm2 & Hok2 & Hlu2 & Hfr2 & Hset2 & Hg2).
  destruct (merge_updates_decoded st u t2 Hst Hu)
    as (s2' & Hm2' & _ & Hlu2' & Hfr2' & Hset2' & Hg2').
  assert (∀ k, k ≠ "last_update" → s2 !! k = s1 !! k) as Hsame.
  { intros k Hk. destruct (u !! k) as [v|] eqn:Hv; [|by apply Hfr2].
    destruct (decide (k = "gsv")) as [->|Hgsv].
    - destruct (Hu _ _ Hv) as (_ & [d ->] & _); [done|].
      rewrite (Hg2 d), (Hg1 d) by done. unfold gsv_of at 1.
      rewrite (Hg1 d) by done.
      by rewrite (assoc_L (∪)), (idemp_L (∪)).
    - by rewrite (Hset2 k v), (Hset1 k v). }
  exists s1, s2. split; [done|]. split; [done|]. split; [|split; [done|]].
  - apply map_eq. intros k. destruct (decide (k = "last_update")) as [->|Hk].
    + by rewrite lookup_insert_eq.
    + rewrite lookup_insert_ne by done. by apply Hsame.
  - rewrite Hm2'. f_equal. apply map_eq. intros k.
    destruct (decide (k = "last_update")) as [->|Hk]; [congruence|].
    rewrite Hsame by done.
    destruct (u !! k) as [v|] eqn:Hv; [|by rewrite Hfr2', Hfr1].
    destruct (decide (k = "gsv")) as [->|Hgsv].
    + destruct (Hu _ _ Hv) as (_ & [d ->] & _); [done|].
      by rewrite (Hg2' d), (Hg1 d).
    + by rewrite (Hset2' k v), (Hset1 k v).
Qed.

Lemma rmc_update_decoded :
  parse_sentence (mk_datetime 2026 11 4 0 0 0 0) "GPRMC" rmc_fields
  = Ok rmc_update.
Proof. vm_compute. reflexivity. Qed.

Lemma merge_twice_witness :
  ∃ s1 s2,
    merge_updates ∅ rmc_update 100%float = Ok s1
    ∧ merge_updates s1 rmc_update 101%float = Ok s2
    ∧ s2 = <["last_update" := VFloat 101%float]> s1.
Proof.
  destruct (merge_twice_changes_only_last_update ∅ rmc_update
              100%float 101%float gsv_ok_empty
              (ex_intro _ _ (ex_intro _ _ (ex_intro _ _ rmc_update_decoded))))
    as (s1 & s2 & H1 & H2 & H3 & _).
  exists s1, s2. split; [exact H1|]. split; [exact H2|exact H3].
Defined.

(** C8, against the claim as it is written: the state after the second
    merge is not the state after the first, because [last_update] moved. *)
Lemma merge_twice_is_not_merge_once :
  (λ '(s1, s2), (s1 !! "last_update", s2 !! "last_update")) <$> rmc_twice
  = Ok (Some (VFloat 100%float), Some (VFloat 101%float))
  ∧ ∀ s1 s2, rmc_twice = Ok (s1, s2) → s2 ≠ s1.
Proof.
  split; [vm_compute; reflexivity|]. intros s1 s2 Hr Heq.
  assert (float_is 100%float (s1 !! "last_update") = true) as H1.
  { replace s1 with (match rmc_twice with Ok (a, _) => a | _ => ∅ end)
      by (rewrite Hr; reflexivity).
    vm_compute. reflexivity. }
  assert (float_is 100%float (s2 !! "last_update") = false) as H2.
  { replace s2 with (match rmc_twice with Ok (_, b) => b | _ => ∅ end)
      by (rewrite Hr; reflexivity).
    vm_compute. reflexivity. }
  rewrite Heq in H2. congruence.
Qed.

(** Closed conjuncts, each settled by evaluation. *)
Ltac eval_conjuncts :=
  repeat match goal with
  | |- _ ∧ _ => split; [vm_compute; reflexivity|]
  end.

(** ** C3: the frame validator and lower-case checksums *)

(** C3, on the code. The XOR of the body of the frame is 6A, and the frame
    is accepted with the checksum written [6A]. Written [6a] it is rejected,
    although [.upper()] of it equals the computed checksum: group 3 of
    [NMEA_RE] admits the digits and [A] to [F] only, so the pattern does not
    match and the comparison is never reached. The loop drops the line. *)
Theorem lowercase_checksum_is_rejected :
  nmea_checksum rmc_body = "6A"
  ∧ accept rmc_line_upper = Some ("GPRMC", rmc_fields)
  ∧ upper "6a" = nmea_checksum rmc_body
  ∧ rmatch NMEA_RE rmc_line_lower = None
  ∧ accept rmc_line_lower = None
  ∧ ∀ human_status json_line format_percent a l clk,
      body human_status json_line format_percent a l rmc_line_lower clk
      = Continue l [].
Proof.
  assert (accept (strip (decode_ascii_ignore rmc_line_lower)) = None) as Hacc
    by (vm_compute; reflexivity).
  eval_conjuncts. intros. unfold body.
  destruct (args_once a); unfold loop_body, loop_body_once; by rewrite Hacc.
Qed.

(** ** C6: degrees and minutes *)

Lemma dm_to_deg_unknown (dm hemi : string) :
  dm = "" ∨ float_of_str dm = None → dm_to_deg dm hemi = Ok None.
Proof.
  unfold dm_to_deg. intros [->|H]; [done|].
  rewrite H. by destruct (negb (truthy dm) || String.eqb dm "").
Qed.

(** Where every step of the conversion goes through, the result is the
    integer part of [val / 100] plus the remaining minutes over 60. *)
Lemma dm_to_deg_value (dm hemi : string) (val q d100 degf : float) (deg : Z) :
  dm ≠ "" → float_of_str dm = Some val →
  float_floordiv val 100%float = Ok q → int_of_float q = Ok deg →
  float_of_int (deg * 100) = Ok d100 → float_of_int deg = Ok degf →
  dm_to_deg dm hemi
  = Ok (Some (if String.eqb hemi "S" || String.eqb hemi "W"
              then (- (degf + (val - d100) / 60.0))%float
              else (degf + (val - d100) / 60.0)%float)).
Proof.
  intros Hne Hv Hq Hd H100 Hf. unfold dm_to_deg.
  apply truthy_ne in Hne as Ht. rewrite Ht.
  apply String.eqb_neq in Hne. rewrite Hne. simpl.
  rewrite Hv, Hq. simpl. rewrite Hd. simpl. rewrite H100. simpl.
  by rewrite Hf.
Qed.

(** The fixtures. The first result is the binary64 number next below the
    one nearest to 48.1173; Python prints it as 48.11729999999999. *)
Lemma dm_to_deg_fixtures :
  dm_to_deg "4807.038" "N" = Ok (Some 48.117299999999993%float)
  ∧ (PrimFloat.abs (48.117299999999993 - 48.1173) <? 1e-13)%float = true
  ∧ dm_to_deg "01131.000" "E" = Ok (float_of_str "11.516666666666667")
  ∧ dm_to_deg "01131.000" "W" = Ok (float_of_str "-11.516666666666667")
  ∧ dm_to_deg "4807.038" "S" = Ok (Some (-48.117299999999993)%float)
  ∧ dm_to_deg "" "N" = Ok None.
Proof. eval_conjuncts. vm_compute. reflexivity. Qed.

(** C6, on the code. [float] reads [nan] and [inf], so the [except] clause
    does not apply, and [int(val // 100)] raises outside the [try]: the
    conversion yields neither "unknown" nor a number, and a checksum-valid
    GGA line with such a latitude ends the program. *)
Theorem dm_to_deg_raises_on_nan_and_inf :
  float_of_str "nan" = Some PrimFloat.nan
  ∧ float_of_str "inf" = Some PrimFloat.infinity
  ∧ dm_to_deg "nan" "N" = Raise ValueError
  ∧ dm_to_deg "inf" "N" = Raise ValueError
  ∧ dm_to_deg "1e999" "E" = Raise ValueError
  ∧ ∀ human_status json_line format_percent a clk,
      main human_status json_line format_percent a [(gga_nan_line, clk)]
      = (initial, echo_and_log a gga_nan_line, Crashed ValueError).
Proof.
  assert (accept (strip (decode_ascii_ignore gga_nan_line))
          = Some ("GPGGA", ["123519"; "nan"; "N"; "01131.000"; "E"; "1"; "08";
                            "0.9"; "545.4"; "M"; "46.9"; "M"; ""; ""])) as Hacc
    by (vm_compute; reflexivity).
  assert (strip (decode_ascii_ignore gga_nan_line) = gga_nan_line) as Hs
    by (vm_compute; reflexivity).
  eval_conjuncts. intros. unfold main, run, body.
  destruct (args_once a); unfold loop_body, loop_body_once;
    rewrite Hacc, Hs; reflexivity.
Qed.

(** ** C1: exceptions that leave the decoder *)

(** C1, on the code. [parse_time_date] converts the time and date fields
    with no handler, and [main] has none for [ValueError]: a line whose time
    or date does not parse ends the program, before any other field of the
    sentence is stored. *)
Theorem unparseable_time_or_date_aborts :
  (∀ now, parse_time_date now "1235" (Some "230394") = Raise ValueError)
  ∧ (∀ now, parse_time_date now "123519" (Some "310294") = Raise ValueError)
  ∧ (∀ now, parse_time_date now "12:35:19" None = Raise ValueError)
  ∧ ∀ human_status json_line format_percent a clk,
      main human_status json_line format_percent a
        [(rmc_short_time_line, clk)]
      = (initial, echo_and_log a rmc_short_time_line, Crashed ValueError)
      ∧ main human_status json_line format_percent a
          [(rmc_bad_date_line, clk)]
        = (initial, echo_and_log a rmc_bad_date_line, Crashed ValueError).
Proof.
  assert (accept (strip (decode_ascii_ignore rmc_short_time_line))
          = Some ("GPRMC", ["1235"; "A"; "4807.038"; "N"; "01131.000"; "E";
                            "022.4"; "084.4"; "230394"; "003.1"; "W"])) as Ha1
    by (vm_compute; reflexivity).
  assert (strip (decode_ascii_ignore rmc_short_time_line) = rmc_short_time_line)
    as Hs1 by (vm_compute; reflexivity).
  assert (accept (strip (decode_ascii_ignore rmc_bad_date_line))
          = Some ("GPRMC", ["123519"; "A"; "4807.038"; "N"; "01131.000"; "E";
                            "022.4"; "084.4"; "310294"; "003.1"; "W"])) as Ha2
    by (vm_compute; reflexivity).
  assert (strip (decode_ascii_ignore rmc_bad_date_line) = rmc_bad_date_line)
    as Hs2 by (vm_compute; reflexivity).
  split; [intros; vm_compute; reflexivity|].
  split; [intros; vm_compute; reflexivity|].
  split; [intros; vm_compute; reflexivity|].
  intros. split; unfold main, run, body;
    destruct (args_once a); unfold loop_body, loop_body_once;
    rewrite ?Ha1, ?Hs1, ?Ha2, ?Hs2; reflexivity.
Qed.

(** ** C5: timestamp assembly *)

Lemma chars_app (a b : string) : chars (a +:+ b) = chars a ++ chars b.
Proof. induction a as [|c a IH]; simpl; [done|]. unfold chars in *. simpl. by rewrite IH. Qed.

Lemma of_chars_app (a b : list ascii) : of_chars (a ++ b) = of_chars a +:+ of_chars b.
Proof. induction a as [|c a IH]; simpl; [done|]. unfold of_chars in *. simpl. by rewrite IH. Qed.

Lemma of_chars_chars (s : string) : of_chars (chars s) = s.
Proof. apply string_of_list_ascii_of_string. Qed.

Lemma chars_of_chars (cs : list ascii) : chars (of_chars cs) = cs.
Proof. apply list_ascii_of_string_of_list_ascii. Qed.

Lemma is_digit_digit_char (d : Z) : 0 ≤ d < 10 → is_digit (digit_char d) = true.
Proof.
  intros H.
  assert (d = 0 ∨ d = 1 ∨ d = 2 ∨ d = 3 ∨ d = 4 ∨ d = 5 ∨ d = 6 ∨ d = 7
          ∨ d = 8 ∨ d = 9) as Hd by lia.
  repeat destruct Hd as [->|Hd]; try reflexivity. by subst.
Qed.

Lemma dec_rev_digits (fuel w : nat) (n : Z) :
  0 ≤ n → Forall (λ c, is_digit c = true) (dec_rev fuel w n).
Proof.
  revert w n. induction fuel as [|fuel IH]; intros w n Hn; simpl; [constructor|].
  destruct ((n <? 10) && bool_decide (w ≤ 1)%nat) eqn:Hb.
  - apply andb_true_iff in Hb as [Hb _]. apply Z.ltb_lt in Hb.
    repeat constructor. apply is_digit_digit_char. lia.
  - constructor.
    + apply is_digit_digit_char. apply Z.mod_pos_bound. lia.
    + apply IH. apply Z.div_pos; lia.
Qed.

Lemma zero_pad_digits (w : nat) (n : Z) :
  0 ≤ n → Forall (λ c, is_digit c = true) (chars (zero_pad w n)).
Proof.
  intros Hn. unfold zero_pad. rewrite chars_of_chars.
  apply Forall_rev. by apply dec_rev_digits.
Qed.

Lemma replace_chars_nil (fuel : nat) (c0 : ascii) (old' new : list ascii) :
  replace_chars fuel (c0 :: old') new [] = [].
Proof. destruct fuel; simpl; [done|]. try case_bool_decide; done. Qed.

Lemma replace_chars_suffix (fuel : nat) (c0 : ascii) (old' new s1 : list ascii) :
  c0 ∉ s1 → (length s1 < fuel)%nat →
  replace_chars fuel (c0 :: old') new (s1 ++ c0 :: old') = s1 ++ new.
Proof.
  revert fuel. induction s1 as [|c s1 IH]; intros fuel Hnot Hlen.
  - destruct fuel as [|fuel]; [simpl in Hlen; lia|].
    simpl replace_chars. rewrite bool_decide_eq_true_2.
    + rewrite drop_all. rewrite replace_chars_nil. by rewrite app_nil_r.
    + by rewrite firstn_all.
  - destruct fuel as [|fuel]; [simpl in Hlen; lia|].
    apply not_elem_of_cons in Hnot as [Hc Hnot].
    simpl. rewrite bool_decide_eq_false_2.
    + f_equal. apply IH; [done|]. simpl in Hlen. lia.
    + intros [= Heq _]. by subst.
Qed.

Lemma digit_not_plus (c : ascii) : is_digit c = true → c ≠ "+"%char.
Proof. intros H ->. discriminate H. Qed.

Lemma chars_inj (a b : string) : chars a = chars b → a = b.
Proof. intros H. by rewrite <- (of_chars_chars a), H, of_chars_chars. Qed.

Lemma len_chars (s : string) : len s = length (chars s).
Proof. induction s as [|c s IH]; simpl; [done|]. unfold len, chars in *. simpl. by rewrite IH. Qed.

Lemma utc_string_Z (t : datetime) :
  0 ≤ year t → 0 ≤ month t → 0 ≤ day t → 0 ≤ hour t → 0 ≤ minute t →
  0 ≤ second t → microsecond t = 0 →
  utc_string t
  = (zero_pad 4 (year t) +:+ "-" +:+ zero_pad 2 (month t) +:+ "-"
     +:+ zero_pad 2 (day t) +:+ "T" +:+ zero_pad 2 (hour t) +:+ ":"
     +:+ zero_pad 2 (minute t) +:+ ":" +:+ zero_pad 2 (second t) +:+ "Z")%string.
Proof.
  intros Hy Hmo Hd Hh Hmi Hs Hus. apply chars_inj.
  unfold utc_string, isoformat, Str.replace. rewrite Hus.
  rewrite chars_of_chars, len_chars, !chars_app.
  change (chars (if 0 =? 0 then "" else _)) with (@nil ascii).
  change (chars "+00:00") with ("+"%char :: chars "00:00").
  rewrite app_nil_l, !(assoc_L (++)).
  rewrite replace_chars_suffix; [done| |rewrite (length_app _ (_ :: _)); simpl; lia].
  rewrite list_elem_of_In. intros Hin.
  repeat (apply in_app_or in Hin as [Hin|Hin]).
  all: try (apply list_elem_of_In in Hin;
         match type of Hin with _ ∈ chars (zero_pad ?w ?n) =>
           pose proof (zero_pad_digits w n ltac:(done)) as Hdig end;
         rewrite Forall_forall in Hdig; by specialize (Hdig _ Hin)).
  all: try (simpl in Hin; intuition discriminate).
Qed.

Lemma two_digits_all : forallb two_digits_ok (map Z.of_nat (seq 0 100)) = true.
Proof. vm_compute. reflexivity. Qed.

Lemma result_is_Ok (r : result Z) (n : Z) : result_is r n = true → r = Ok n.
Proof. destruct r; simpl; [|done]. intros H%Z.eqb_eq. by subst. Qed.

Lemma two_digits (n : Z) :
  0 ≤ n < 100 →
  ∃ c1 c2, zero_pad 2 n = String c1 (String c2 "")
    ∧ int_of_str (String c1 (String c2 "")) = Ok n
    ∧ int_of_float_str (String c1 (String c2 "")) = Ok n.
Proof.
  intros Hn. pose proof two_digits_all as Hall.
  rewrite forallb_forall in Hall. specialize (Hall n).
  assert (two_digits_ok n = true) as Hok.
  { apply Hall. rewrite <- (Z2Nat.id n) by lia. apply in_map, in_seq. lia. }
  unfold two_digits_ok in Hok.
  destruct (chars (zero_pad 2 n)) as [|c1 [|c2 [|]]] eqn:Hc; try discriminate Hok.
  apply andb_true_iff in Hok as [H1 H2].
  apply result_is_Ok in H1, H2.
  assert (zero_pad 2 n = String c1 (String c2 "")) as Hz
    by (apply chars_inj; by rewrite Hc).
  exists c1, c2. by rewrite <- Hz.
Qed.

Lemma c_int_small (z : Z) : -10000 ≤ z ≤ 10000 → c_int z = true.
Proof. intros. unfold c_int. apply andb_true_iff. rewrite Z.leb_le, Z.ltb_lt. lia. Qed.

Lemma parse_time_date_digits (now : datetime) (hh mi ss d mo yy : Z) :
  0 ≤ hh < 24 → 0 ≤ mi < 60 → 0 ≤ ss < 60 → 0 ≤ yy < 100 →
  1 ≤ mo ≤ 12 → 1 ≤ d ≤ days_in_month (expand_year yy) mo →
  parse_time_date now
    (zero_pad 2 hh +:+ zero_pad 2 mi +:+ zero_pad 2 ss)
    (Some (zero_pad 2 d +:+ zero_pad 2 mo +:+ zero_pad 2 yy))
  = Ok (Some (mk_datetime (expand_year yy) mo d hh mi ss 0)).
Proof.
  intros Hh Hmi Hs Hy Hmo Hd.
  assert (d ≤ 31) as Hd31.
  { unfold days_in_month in Hd. repeat destruct (_ =? _) in Hd; simpl in Hd;
      try destruct (is_leap _) in Hd; lia. }
  destruct (two_digits hh) as (h1 & h2 & -> & Hih & _); [lia|].
  destruct (two_digits mi) as (m1 & m2 & -> & Him & _); [lia|].
  destruct (two_digits ss) as (s1 & s2 & -> & _ & Hfs); [lia|].
  destruct (two_digits d) as (d1 & d2 & -> & Hid & _); [lia|].
  destruct (two_digits mo) as (o1 & o2 & -> & Himo & _); [lia|].
  destruct (two_digits yy) as (y1 & y2 & -> & Hiy & _); [lia|].
  change (String h1 (String h2 "") +:+ String m1 (String m2 "")
          +:+ String s1 (String s2 ""))
    with (String h1 (String h2 (String m1 (String m2 (String s1 (String s2 "")))))).
  change (String d1 (String d2 "") +:+ String o1 (String o2 "")
          +:+ String y1 (String y2 ""))
    with (String d1 (String d2 (String o1 (String o2 (String y1 (String y2 "")))))).
  unfold parse_time_date. cbn [truthy negb].
  change (slice 0 2 (String h1 (String h2 (String m1 (String m2 (String s1 (String s2 "")))))))
    with (String h1 (String h2 "")).
  change (slice 2 4 (String h1 (String h2 (String m1 (String m2 (String s1 (String s2 "")))))))
    with (String m1 (String m2 "")).
  change (slice_from 4 (String h1 (String h2 (String m1 (String m2 (String s1 (String s2 "")))))))
    with (String s1 (String s2 "")).
  rewrite Hih, Him, Hfs. cbn [mbind result_bind andb].
  change (slice 0 2 (String d1 (String d2 (String o1 (String o2 (String y1 (String y2 "")))))))
    with (String d1 (String d2 "")).
  change (slice 2 4 (String d1 (String d2 (String o1 (String o2 (String y1 (String y2 "")))))))
    with (String o1 (String o2 "")).
  change (slice 4 6 (String d1 (String d2 (String o1 (String o2 (String y1 (String y2 "")))))))
    with (String y1 (String y2 "")).
  rewrite bool_decide_eq_true_2 by reflexivity.
  rewrite Hid, Himo, Hiy. cbn [mbind result_bind].
  fold (expand_year yy).
  assert (1980 ≤ expand_year yy ≤ 2079) as Hey
    by (unfold expand_year; destruct (yy <? 80) eqn:E;
        [apply Z.ltb_lt in E|apply Z.ltb_ge in E]; lia).
  unfold DateTime.make. cbn [forallb].
  rewrite !c_int_small by lia. cbn [andb negb].
  assert (valid_date (expand_year yy) mo d = true) as ->.
  { unfold valid_date. rewrite !andb_true_iff, !Z.leb_le. lia. }
  assert (valid_time hh mi ss 0 = true) as ->.
  { unfold valid_time. rewrite !andb_true_iff, !Z.leb_le. lia. }
  reflexivity.
Qed.

(** C5. For a time [hhmmss] and a six-digit date [ddmmyy] that names a day
    of the calendar, the assembled instant has the fields of the two
    strings, with the year 2000+yy below 80 and 1900+yy from 80 on, and it
    is rendered as [YYYY-MM-DDThh:mm:ssZ]. 123519 with 230394 gives
    1994-03-23T12:35:19Z, also as the [utc_time] of an RMC sentence, and
    year 05 gives 2005. *)
Theorem timestamp_assembly (now : datetime) (hh mi ss d mo yy : Z) :
  0 ≤ hh < 24 → 0 ≤ mi < 60 → 0 ≤ ss < 60 → 0 ≤ yy < 100 →
  1 ≤ mo ≤ 12 → 1 ≤ d ≤ days_in_month (expand_year yy) mo →
  ∃ t,
    parse_time_date now
      (zero_pad 2 hh +:+ zero_pad 2 mi +:+ zero_pad 2 ss)
      (Some (zero_pad 2 d +:+ zero_pad 2 mo +:+ zero_pad 2 yy))
    = Ok (Some t)
    ∧ (yy < 80 → year t = 2000 + yy) ∧ (80 ≤ yy → year t = 1900 + yy)
    ∧ (month t, day t, hour t, minute t, second t) = (mo, d, hh, mi, ss)
    ∧ utc_string t
      = (zero_pad 4 (year t) +:+ "-" +:+ zero_pad 2 mo +:+ "-"
         +:+ zero_pad 2 d +:+ "T" +:+ zero_pad 2 hh +:+ ":"
         +:+ zero_pad 2 mi +:+ ":" +:+ zero_pad 2 ss +:+ "Z")%string
    ∧ parse_time_date now "123519" (Some "230394")
      = Ok (Some (mk_datetime 1994 3 23 12 35 19 0))
    ∧ utc_string (mk_datetime 1994 3 23 12 35 19 0) = "1994-03-23T12:35:19Z"
    ∧ rmc_update !! "utc_time" = Some (VStr "1994-03-23T12:35:19Z")
    ∧ parse_time_date now "123519.00" (Some "230305")
      = Ok (Some (mk_datetime 2005 3 23 12 35 19 0)).
Proof.
  intros Hh Hmi Hs Hy Hmo Hd.
  exists (mk_datetime (expand_year yy) mo d hh mi ss 0).
  split; [by apply parse_time_date_digits|]. simpl.
  split; [intros Hlt; apply Z.ltb_lt in Hlt; unfold expand_year; by rewrite Hlt|].
  split; [intros Hge; apply Z.ltb_ge in Hge; unfold expand_year; by rewrite Hge|].
  split; [done|].
  split.
  { rewrite utc_string_Z; simpl; try lia; [done|].
    unfold expand_year. destruct (yy <? 80); lia. }
  eval_conjuncts. vm_compute. reflexivity.
Qed.

Lemma timestamp_assembly_witness :
  ∃ t,
    parse_time_date (mk_datetime 2026 11 4 0 0 0 0)
      (zero_pad 2 12 +:+ zero_pad 2 35 +:+ zero_pad 2 19)
      (Some (zero_pad 2 23 +:+ zero_pad 2 3 +:+ zero_pad 2 94))
    = Ok (Some t)
    ∧ year t = 1994
    ∧ utc_string t
      = (zero_pad 4 (year t) +:+ "-" +:+ zero_pad 2 3 +:+ "-"
         +:+ zero_pad 2 23 +:+ "T" +:+ zero_pad 2 12 +:+ ":"
         +:+ zero_pad 2 35 +:+ ":" +:+ zero_pad 2 19 +:+ "Z")%string.
Proof.
  destruct (timestamp_assembly (mk_datetime 2026 11 4 0 0 0 0) 12 35 19 23 3 94)
    as (t & Ht & _ & Hy & _ & Hs & _); try lia.
  - vm_compute. split; discriminate.
  - exists t. split; [exact Ht|]. split; [apply Hy; lia|exact Hs].
Defined.

(** ** What [NMEA_RE] matches *)

Lemma backtrack_sound (r : re) :
  ∀ fuel s c k m,
    backtrack r fuel s c k = Some m →
    ∃ s' c', matches r s s' c c' ∧ k s' c' = Some m.
Proof.
  induction r as [p|r1 IH1 r2 IH2|r IH|r IH|i r IH|]; intros fuel s c k m H;
    simpl in H.
  - destruct s as [|a s]; [done|]. destruct (p a) eqn:Hp; [|done].
    exists s, c. split; [by constructor|done].
  - apply IH1 in H as (s1 & c1 & H1 & H).
    apply IH2 in H as (s2 & c2 & H2 & H).
    exists s2, c2. split; [by econstructor|done].
  - destruct (backtrack r fuel s c k) as [m'|] eqn:Hr.
    + injection H as ->. apply IH in Hr as (s' & c' & Hm & Hk).
      exists s', c'. split; [by constructor|done].
    + exists s, c. split; [apply matches_opt_skip|done].
  - revert s c H. generalize fuel at 2 as n.
    induction n as [|n IHn]; intros s c H; simpl in H.
    + exists s, c. split; [apply matches_star_nil|done].
    + match type of H with
      | match ?x with _ => _ end = _ => destruct x as [m'|] eqn:Hr
      end.
      * injection H as ->. apply IH in Hr as (s1 & c1 & H1 & Hk).
        destruct (length s1 <? length s)%nat eqn:Hlt; [|done].
        apply Nat.ltb_lt in Hlt.
        apply IHn in Hk as (s2 & c2 & H2 & Hk).
        exists s2, c2. split; [by econstructor|done].
      * exists s, c. split; [apply matches_star_nil|done].
  - apply IH in H as (s' & c' & Hm & Hk).
    eexists s', _. split; [by constructor|done].
  - exists s, c. destruct s as [|a [|]]; try done.
    + split; [constructor; by left|done].
    + destruct (Ascii.eqb_spec a "010"); [|done]. subst.
      split; [constructor; by right|done].
Qed.

Lemma matches_suffix r s s' c c' :
  matches r s s' c c' → ∃ pre, s = pre ++ s'.
Proof.
  induction 1 as [p a s c Hp|r1 r2 s s1 s2 c c1 c2 _ [p1 ->] _ [p2 ->]
                 |r s s' c c' _ IH| | |r s s1 s2 c c1 c2 _ [p1 ->] _ _ [p2 ->]
                 |i r s s' c c' _ IH|].
  - by exists [a].
  - exists (p1 ++ p2). by rewrite (assoc_L (++)).
  - done.
  - by exists [].
  - by exists [].
  - exists (p1 ++ p2). by rewrite (assoc_L (++)).
  - done.
  - by exists [].
Qed.

Lemma take_prefix (pre s' : list ascii) :
  take (length (pre ++ s') - length s') (pre ++ s') = pre.
Proof.
  rewrite length_app. replace (length pre + length s' - length s')%nat with (length pre) by lia.
  by rewrite take_app_length.
Qed.

Lemma matches_chr_inv p s s' c c' :
  matches (Chr p) s s' c c' → ∃ a, s = a :: s' ∧ p a = true ∧ c' = c.
Proof. inversion 1; subst. eauto. Qed.

Lemma matches_opt_chr_inv p s s' c c' :
  matches (Opt (Chr p)) s s' c c' →
  c' = c ∧ (s' = s ∨ ∃ a, s = a :: s' ∧ p a = true).
Proof.
  inversion 1 as [| |? ? ? ? ? Hm| | | | |]; subst; [|by auto].
  apply matches_chr_inv in Hm as (a & -> & Hp & ->). eauto.
Qed.

Lemma matches_star_chr_inv p s s' c c' :
  matches (Star (Chr p)) s s' c c' →
  c' = c ∧ ∃ pre, s = pre ++ s' ∧ Forall (λ a, p a = true) pre.
Proof.
  intros H. remember (Star (Chr p)) as r eqn:Hr.
  induction H as [| | | | |r s s1 s2 c c1 c2 H1 _ Hlt _ IH| |]; try discriminate Hr.
  - split; [done|]. by exists [].
  - injection Hr as ->. apply matches_chr_inv in H1 as (a & -> & Hp & ->).
    destruct (IH eq_refl) as (-> & pre & -> & Hpre).
    split; [done|]. exists (a :: pre). split; [done|]. by constructor.
Qed.

Lemma matches_seq_inv r1 r2 s s2 c c2 :
  matches (Seq r1 r2) s s2 c c2 →
  ∃ s1 c1, matches r1 s s1 c c1 ∧ matches r2 s1 s2 c1 c2.
Proof. inversion 1; subst; eauto. Qed.

Lemma matches_group_inv i r s s' c c'' :
  matches (Group i r) s s' c c'' →
  ∃ pre c', s = pre ++ s' ∧ matches r s s' c c'
    ∧ c'' = <[i := of_chars pre]> c'.
Proof.
  inversion 1 as [| | | | | |? ? ? ? ? ? Hm|]; subst.
  destruct (matches_suffix _ _ _ _ _ Hm) as [pre ->].
  exists pre, c'. by rewrite take_prefix.
Qed.

Lemma matches_group_of i r pre s' c c' c'' :
  matches r (pre ++ s') s' c c' → c'' = <[i := of_chars pre]> c' →
  matches (Group i r) (pre ++ s') s' c c''.
Proof.
  intros H ->.
  pose proof (matches_group i _ _ _ _ _ H) as Hg. by rewrite take_prefix in Hg.
Qed.

Lemma matches_eol_inv s s' c c' :
  matches Eol s s' c c' → s' = s ∧ c' = c ∧ (s = [] ∨ s = [LF]).
Proof. inversion 1; subst; auto. Qed.

(** The backtracking matcher finds a match whenever there is one that the
    continuation accepts. *)
Lemma backtrack_complete r s s' c c' :
  matches r s s' c c' →
  ∀ fuel k, (length s ≤ fuel)%nat → is_Some (k s' c') →
    is_Some (backtrack r fuel s c k)
    ∧ ∀ r1, r = Star r1 → ∀ n, (length s ≤ n)%nat →
        is_Some (star_loop (backtrack r1 fuel) k n s c).
Proof.
  induction 1 as [p a s c Hp|r1 r2 s s1 s2 c c1 c2 H1 IH1 H2 IH2
                 |r s s' c c' _ IH|r s c|r s c
                 |r s s1 s2 c c1 c2 H1 IH1 Hlt H2 IH2
                 |i r s s' c c' _ IH|s c Hs]; intros fuel k Hfuel Hk.
  - split; [|done]. simpl. by rewrite Hp.
  - split; [|done]. simpl. apply IH1; [done|].
    destruct (matches_suffix _ _ _ _ _ H1) as [pre ->].
    apply IH2; [|done]. rewrite length_app in Hfuel. lia.
  - split; [|done]. simpl.
    destruct (proj1 (IH fuel k Hfuel Hk)) as [m ->]. done.
  - split; [|done]. simpl. by destruct (backtrack r fuel s c k).
  - assert (Hloop : ∀ n, is_Some (star_loop (backtrack r fuel) k n s c)).
    { intros [|n]; simpl; [done|].
      by match goal with |- is_Some (match ?x with _ => _ end) => destruct x end. }
    split; [apply Hloop|]. intros r1 [= <-] n _. apply Hloop.
  - assert (Hloop : ∀ n, (length s ≤ n)%nat →
              is_Some (star_loop (backtrack r fuel) k n s c)).
    { intros [|n] Hn; [lia|]. simpl.
      match goal with
      | |- is_Some (match ?x with _ => _ end) =>
          assert (Hx : is_Some x); [|by destruct Hx as [? ->]]
      end.
      apply IH1; [done|].
      apply Nat.ltb_lt in Hlt as Hlt'. rewrite Hlt'.
      apply (proj2 (IH2 fuel k ltac:(lia) Hk) r eq_refl). lia. }
    split; [by apply Hloop|]. intros r1 [= <-] n Hn. by apply Hloop.
  - split; [|done]. simpl. by apply IH.
  - split; [|done]. simpl. destruct Hs as [->| ->]; done.
Qed.

(** *** The pieces of [NMEA_RE] *)

Lemma matches_talker_inv s s' c c' :
  matches (Seq (Seq (Chr is_A_Z_0_9) (Seq (Chr is_A_Z_0_9) (Opt (Chr is_A_Z_0_9))))
               (Seq (Chr is_A_Z) (Seq (Chr is_A_Z) (Chr is_A_Z)))) s s' c c' →
  c' = c ∧ ∃ pre, s = pre ++ s' ∧ talker_sentence pre.
Proof.
  intros H.
  apply matches_seq_inv in H as (s1 & c1 & H & H3).
  apply matches_seq_inv in H as (s2 & c2 & Ha & H).
  apply matches_seq_inv in H as (s3 & c3 & Hb & Ho).
  apply matches_seq_inv in H3 as (s4 & c4 & Hx & H3).
  apply matches_seq_inv in H3 as (s5 & c5 & Hy & Hz).
  apply matches_chr_inv in Ha as (a & -> & Ha & ->).
  apply matches_chr_inv in Hb as (b & -> & Hb & ->).
  apply matches_opt_chr_inv in Ho as (-> & Ho).
  apply matches_chr_inv in Hx as (x & -> & Hx & ->).
  apply matches_chr_inv in Hy as (y & -> & Hy & ->).
  apply matches_chr_inv in Hz as (z & -> & Hz & ->).
  destruct Ho as [<-|(o & -> & Ho)].
  - split; [done|]. exists [a; b; x; y; z]. split; [done|].
    exists [a; b], [x; y; z]. repeat split; auto; by repeat constructor.
  - split; [done|]. exists [a; b; o; x; y; z]. split; [done|].
    exists [a; b; o], [x; y; z]. repeat split; auto; by repeat constructor.
Qed.

Lemma matches_line_end_inv s s' c c' :
  matches (Seq (Opt (Chr (Ascii.eqb "013"))) (Seq (Opt (Chr (Ascii.eqb "010"))) Eol))
    s s' c c' →
  c' = c ∧ ∃ tail, s = tail ++ s' ∧ line_end (tail ++ s').
Proof.
  intros H.
  apply matches_seq_inv in H as (s1 & c1 & Hr & H).
  apply matches_seq_inv in H as (s2 & c2 & Hn & He).
  apply matches_eol_inv in He as (-> & -> & He).
  apply matches_opt_chr_inv in Hr as (-> & Hr).
  apply matches_opt_chr_inv in Hn as (-> & Hn).
  split; [done|]. unfold line_end, CR, LF in *.
  destruct Hr as [->|(r & -> & Hr%Ascii.eqb_eq)],
           Hn as [->|(n & -> & Hn%Ascii.eqb_eq)]; subst.
  - exists []. destruct He as [->| ->]; auto.
  - exists ["010"%char]. destruct He as [->| ->]; simpl; auto 10.
  - exists ["013"%char]. destruct He as [->| ->]; simpl; auto 10.
  - exists ["013"%char; "010"%char]. destruct He as [->| ->]; simpl; auto 10.
Qed.

Lemma rmatch_framed (line : string) (m : captures) :
  rmatch NMEA_RE line = Some m →
  ∃ ts body hh,
    framed line ts body hh
    ∧ m = <[3%nat := hh]> (<[2%nat := body]> (<[1%nat := ts]> ∅)).
Proof.
  unfold rmatch. intros H.
  apply backtrack_sound in H as (s' & c' & H & [= <-]).
  unfold NMEA_RE in H.
  apply matches_seq_inv in H as (s1 & c1 & Hd & H).
  apply matches_chr_inv in Hd as (d & Hline & Hd%Ascii.eqb_eq & ->).
  apply matches_seq_inv in H as (s2 & c2 & H1 & H).
  apply matches_group_inv in H1 as (ts & c1' & -> & H1 & ->).
  apply matches_talker_inv in H1 as (-> & ts' & Hts%app_inv_tail & Htalker).
  subst ts'.
  apply matches_seq_inv in H as (s3 & c3 & Hc & H).
  apply matches_chr_inv in Hc as (comma & -> & Hc%Ascii.eqb_eq & ->).
  apply matches_seq_inv in H as (s4 & c4 & H2 & H).
  apply matches_group_inv in H2 as (body & c2' & -> & H2 & ->).
  apply matches_star_chr_inv in H2 as (-> & body' & Hb%app_inv_tail & Hbody).
  subst body'.
  apply matches_seq_inv in H as (s5 & c5 & Hs & H).
  apply matches_chr_inv in Hs as (star & -> & Hs%Ascii.eqb_eq & ->).
  apply matches_seq_inv in H as (s6 & c6 & H3 & H).
  apply matches_group_inv in H3 as (hh & c3' & -> & H3 & ->).
  apply matches_seq_inv in H3 as (s7 & c7 & Hh1 & Hh2).
  apply matches_chr_inv in Hh1 as (h1 & Hhh & Hh1 & ->).
  apply matches_chr_inv in Hh2 as (h2 & -> & Hh2 & ->).
  change (h1 :: h2 :: s6) with ([h1; h2] ++ s6) in Hhh.
  apply app_inv_tail in Hhh as ->.
  apply matches_line_end_inv in H as (-> & tail & Htail & Hend).
  subst.
  exists (of_chars ts), (of_chars body), (of_chars [h1; h2]).
  split; [|done].
  exists (tail ++ s'). rewrite !chars_of_chars, Hline.
  repeat split; try done. by repeat constructor.
Qed.

Lemma matches_star_chr p pre s c :
  Forall (λ a, p a = true) pre → matches (Star (Chr p)) (pre ++ s) s c c.
Proof.
  induction 1 as [|a pre Ha _ IH]; simpl; [apply matches_star_nil|].
  eapply matches_star_cons; [by apply matches_chr| |exact IH]. simpl. lia.
Qed.

Lemma matches_talker pre s c :
  talker_sentence pre →
  matches (Seq (Seq (Chr is_A_Z_0_9) (Seq (Chr is_A_Z_0_9) (Opt (Chr is_A_Z_0_9))))
               (Seq (Chr is_A_Z) (Seq (Chr is_A_Z) (Chr is_A_Z)))) (pre ++ s) s c c.
Proof.
  intros (t & u & -> & Ht & Ft & Hu & Fu).
  destruct u as [|x [|y [|z [|]]]]; try done.
  apply Forall_cons in Fu as [Hx Fu]. apply Forall_cons in Fu as [Hy Fu].
  apply Forall_cons in Fu as [Hz _].
  destruct t as [|a [|b t]]; try (simpl in Ht; lia).
  apply Forall_cons in Ft as [Ha Ft]. apply Forall_cons in Ft as [Hb Ft].
  destruct t as [|o [|]]; try (simpl in Ht; lia); simpl.
  - repeat (eapply matches_seq; [by apply matches_chr|]).
    eapply matches_seq.
    + eapply matches_seq; [by apply matches_chr|].
      eapply matches_seq; [by apply matches_chr|apply matches_opt_skip].
    + repeat (eapply matches_seq; [by apply matches_chr|]). by apply matches_chr.
  - apply Forall_cons in Ft as [Ho _].
    eapply matches_seq.
    + eapply matches_seq; [by apply matches_chr|].
      eapply matches_seq; [by apply matches_chr|].
      apply matches_opt. by apply matches_chr.
    + repeat (eapply matches_seq; [by apply matches_chr|]). by apply matches_chr.
Qed.

Lemma matches_line_end tail c :
  line_end tail →
  ∃ s', matches (Seq (Opt (Chr (Ascii.eqb "013")))
                    (Seq (Opt (Chr (Ascii.eqb "010"))) Eol)) tail s' c c.
Proof.
  unfold line_end, CR, LF.
  intros [->|[->|[->|[->|[->| ->]]]]].
  - exists []. eapply matches_seq; [apply matches_opt_skip|].
    eapply matches_seq; [apply matches_opt_skip|]. apply matches_eol. by left.
  - exists []. eapply matches_seq; [apply matches_opt; by apply matches_chr|].
    eapply matches_seq; [apply matches_opt_skip|]. apply matches_eol. by left.
  - exists []. eapply matches_seq; [apply matches_opt_skip|].
    eapply matches_seq; [apply matches_opt; by apply matches_chr|].
    apply matches_eol. by left.
  - exists []. eapply matches_seq; [apply matches_opt; by apply matches_chr|].
    eapply matches_seq; [apply matches_opt; by apply matches_chr|].
    apply matches_eol. by left.
  - exists ["010"%char]. eapply matches_seq; [apply matches_opt_skip|].
    eapply matches_seq; [apply matches_opt; by apply matches_chr|].
    apply matches_eol. by right.
  - exists ["010"%char].
    eapply matches_seq; [apply matches_opt; by apply matches_chr|].
    eapply matches_seq; [apply matches_opt; by apply matches_chr|].
    apply matches_eol. by right.
Qed.

Lemma framed_rmatch (line ts body hh : string) :
  framed line ts body hh → is_Some (rmatch NMEA_RE line).
Proof.
  intros (tail & Hline & Hts & Hbody & Hlen & Hhh & Hend).
  destruct (chars hh) as [|h1 [|h2 [|]]] eqn:Ehh; try done.
  apply Forall_cons in Hhh as [Hh1 Hhh]. apply Forall_cons in Hhh as [Hh2 _].
  destruct (matches_line_end tail
              (<[3%nat := of_chars [h1; h2]]>
                 (<[2%nat := body]> (<[1%nat := ts]> ∅))) Hend)
    as [s' Htail].
  unfold rmatch.
  eapply (backtrack_complete NMEA_RE (chars line) s' ∅);
    [|by rewrite len_chars|done].
  rewrite Hline. unfold NMEA_RE.
  eapply matches_seq; [by apply matches_chr|].
  eapply matches_seq.
  { eapply (matches_group_of 1); [apply matches_talker, Hts|]. done. }
  eapply matches_seq; [by apply matches_chr|].
  eapply matches_seq.
  { eapply (matches_group_of 2); [apply matches_star_chr, Hbody|]. done. }
  eapply matches_seq; [by apply matches_chr|].
  eapply matches_seq.
  { eapply (matches_group_of 3 _ [h1; h2]); [|done].
    eapply matches_seq; by apply matches_chr. }
  rewrite !of_chars_chars. exact Htail.
Qed.

Lemma app_cons_unique (x : ascii) (l1 r1 l2 r2 : list ascii) :
  x ∉ l1 → x ∉ l2 → l1 ++ x :: r1 = l2 ++ x :: r2 → l1 = l2 ∧ r1 = r2.
Proof.
  revert l2. induction l1 as [|a l1 IH]; intros [|b l2] H1 H2 H; simpl in H.
  - by injection H.
  - injection H as -> _. exfalso. apply H2. by left.
  - injection H as -> _. exfalso. apply H1. by left.
  - injection H as -> H. rewrite not_elem_of_cons in H1, H2.
    destruct (IH l2) as [-> ->]; tauto.
Qed.

Lemma talker_no_comma (pre : list ascii) :
  talker_sentence pre → ","%char ∉ pre.
Proof.
  intros (t & u & -> & _ & Ft & _ & Fu) [H|H]%elem_of_app.
  - rewrite Forall_forall in Ft. by apply Ft in H.
  - rewrite Forall_forall in Fu. by apply Fu in H.
Qed.

Lemma line_end_no_star (tail : list ascii) : line_end tail → "*"%char ∉ tail.
Proof.
  unfold line_end, CR, LF.
  intros [->|[->|[->|[->|[->| ->]]]]] Hin;
    repeat (apply elem_of_cons in Hin as [?|Hin]; [done|]);
    by apply elem_of_nil in Hin.
Qed.

Lemma hex_no_star (hh : list ascii) :
  Forall (λ a, is_0_9_A_F a = true) hh → "*"%char ∉ hh.
Proof. intros F H. rewrite Forall_forall in F. by apply F in H. Qed.

Lemma framed_unique (line ts body hh ts' body' hh' : string) :
  framed line ts body hh → framed line ts' body' hh' →
  ts = ts' ∧ body = body' ∧ hh = hh'.
Proof.
  intros (t1 & H1 & Hts1 & _ & Hl1 & Hh1 & He1)
         (t2 & H2 & Hts2 & _ & Hl2 & Hh2 & He2).
  rewrite H1 in H2. injection H2 as H.
  apply app_cons_unique in H as [Hts H]; [|by apply talker_no_comma..].
  apply chars_inj in Hts as <-. split; [done|].
  apply (f_equal reverse) in H.
  rewrite !reverse_app, !reverse_cons, !reverse_app in H.
  rewrite <- !(assoc_L (++)) in H. simpl in H.
  rewrite !(assoc_L (++)) in H.
  apply app_cons_unique in H as [Ht Hb].
  - apply (f_equal reverse) in Hb. rewrite !reverse_involutive in Hb.
    apply chars_inj in Hb as <-. split; [done|].
    apply (f_equal reverse) in Ht.
    rewrite !reverse_app, !reverse_involutive in Ht.
    assert (Hlen : length (chars hh) = length (chars hh')) by congruence.
    destruct (app_inj_1 _ _ _ _ Hlen Ht) as [Hh _]. by apply chars_inj.
  - rewrite elem_of_app, !elem_of_reverse.
    intros [?|?]; [by apply (line_end_no_star t1)|by apply (hex_no_star (chars hh))].
  - rewrite elem_of_app, !elem_of_reverse.
    intros [?|?]; [by apply (line_end_no_star t2)|by apply (hex_no_star (chars hh'))].
Qed.

Lemma rmatch_iff_framed (line : string) (m : captures) :
  rmatch NMEA_RE line = Some m ↔
  ∃ ts body hh,
    framed line ts body hh
    ∧ m = <[3%nat := hh]> (<[2%nat := body]> (<[1%nat := ts]> ∅)).
Proof.
  split; [apply rmatch_framed|].
  intros (ts & body & hh & Hf & ->).
  destruct (framed_rmatch _ _ _ _ Hf) as [m Hm]. rewrite Hm.
  apply rmatch_framed in Hm as (ts' & body' & hh' & Hf' & ->).
  by destruct (framed_unique _ _ _ _ _ _ _ Hf Hf') as (-> & -> & ->).
Qed.

Lemma group_captures (ts body hh : string) :
  let m : captures := <[3%nat := hh]> (<[2%nat := body]> (<[1%nat := ts]> ∅)) in
  group m 1 = ts ∧ group m 2 = body ∧ group m 3 = hh.
Proof. unfold group. by simplify_map_eq. Qed.

Lemma upper_hex (hh : string) :
  Forall (λ a, is_0_9_A_F a = true) (chars hh) → upper hh = hh.
Proof.
  intros F. unfold upper. rewrite <- (of_chars_chars hh) at 2. f_equal.
  induction F as [|a l Ha _ IH]; [done|]. simpl. f_equal; [|done].
  unfold upper_char.
  destruct ((97 <=? code a) && (code a <=? 122)) eqn:E; [|done].
  unfold is_0_9_A_F, in_range in Ha. 
  change (code "0") with 48 in Ha. change (code "9") with 57 in Ha.
  change (code "A") with 65 in Ha. change (code "F") with 70 in Ha. lia.
Qed.

Lemma accept_frame (line ts : string) (fields : list string) :
  accept line = Some (ts, fields) ↔
  ∃ body hh,
    framed line ts body hh
    ∧ hh = nmea_checksum (ts +:+ "," +:+ body)
    ∧ fields = split "," body.
Proof.
  unfold accept. split.
  - destruct (startswith "$" line); simpl; [|done].
    destruct (rmatch NMEA_RE line) as [m|] eqn:Hm; simpl; [|done].
    apply rmatch_framed in Hm as (ts' & body & hh & Hf & ->).
    destruct (group_captures ts' body hh) as (-> & -> & ->).
    destruct (String.eqb_spec (upper hh)
                (nmea_checksum (ts' +:+ "," +:+ body))) as [E|]; simpl; [|done].
    intros [= <- <-]. exists body, hh. split; [done|]. split; [|done].
    rewrite <- E. symmetry. apply upper_hex.
    by destruct Hf as (? & ? & ? & ? & ? & ? & ?).
  - intros (body & hh & Hf & Hhh & ->).
    assert (Hd : startswith "$" line = true).
    { destruct Hf as (tail & Hline & _).
      destruct line as [|c line]; [done|]. by injection Hline as -> _. }
    rewrite Hd. simpl.
    pose proof (proj2 (rmatch_iff_framed line _)
                  (ex_intro _ ts (ex_intro _ body (ex_intro _ hh
                     (conj Hf eq_refl))))) as ->.
    simpl. destruct (group_captures ts body hh) as (-> & -> & ->).
    rewrite upper_hex by (by destruct Hf as (? & ? & ? & ? & ? & ? & ?)).
    rewrite <- Hhh. by rewrite String.eqb_refl.
Qed.

(** X1. The frame validator accepts a line exactly when the line is a
    dollar sign, a talker and a sentence code (two or three characters of
    A-Z and 0-9, then three of A-Z), a comma, a body without a newline, a
    star, two upper-case hexadecimal digits and a line end, and the two
    digits are the checksum of what stands between the dollar sign and
    that star; the fields are then the body split at its commas. *)
Theorem validator_accepts_exactly_frames (line ts : string)
    (fields : list string) :
  accept line = Some (ts, fields) ↔
  ∃ body hh,
    framed line ts body hh
    ∧ hh = nmea_checksum (ts +:+ "," +:+ body)
    ∧ fields = split "," body.
Proof. apply accept_frame. Qed.

(** ** The checksum *)

Lemma code_range (c : ascii) : 0 ≤ code c < 256.
Proof.
  unfold code. pose proof (N_ascii_bounded c). lia.
Qed.

Lemma code_inj (a b : ascii) : code a = code b → a = b.
Proof.
  unfold code. intros H. apply N2Z.inj in H.
  rewrite <- (ascii_N_embedding a), <- (ascii_N_embedding b). by rewrite H.
Qed.

Lemma lxor_byte (a b : Z) : 0 ≤ a < 256 → 0 ≤ b < 256 → 0 ≤ Z.lxor a b < 256.
Proof.
  intros Ha Hb. split; [apply Z.lxor_nonneg; lia|].
  destruct (Z.eq_dec (Z.lxor a b) 0) as [->|Hne]; [lia|].
  assert (0 < Z.lxor a b) by (pose proof (proj2 (Z.lxor_nonneg a b)); lia).
  apply (Z.log2_lt_pow2 _ 8); [done|].
  pose proof (Z.log2_lxor a b ltac:(lia) ltac:(lia)).
  assert (Z.log2 a < 8).
  { destruct (Z.eq_dec a 0) as [->|]; [done|]. apply Z.log2_lt_pow2; lia. }
  assert (Z.log2 b < 8).
  { destruct (Z.eq_dec b 0) as [->|]; [done|]. apply Z.log2_lt_pow2; lia. }
  lia.
Qed.

Lemma xor_fold_from (cs : list ascii) (a : Z) :
  fold_left (λ c ch, Z.lxor c (code ch)) cs a = Z.lxor a (xor_codes cs).
Proof.
  unfold xor_codes. revert a.
  induction cs as [|c cs IH]; intros a; simpl; [by rewrite Z.lxor_0_r|].
  rewrite IH, (IH (Z.lxor 0 (code c))). by rewrite Z.lxor_0_l, Z.lxor_assoc.
Qed.

Lemma xor_codes_cons (c : ascii) (cs : list ascii) :
  xor_codes (c :: cs) = Z.lxor (code c) (xor_codes cs).
Proof. unfold xor_codes at 1. simpl. apply xor_fold_from. Qed.

Lemma xor_codes_app (l1 l2 : list ascii) :
  xor_codes (l1 ++ l2) = Z.lxor (xor_codes l1) (xor_codes l2).
Proof.
  unfold xor_codes at 1. rewrite fold_left_app. fold (xor_codes l1).
  apply xor_fold_from.
Qed.

Lemma xor_codes_range (cs : list ascii) : 0 ≤ xor_codes cs < 256.
Proof.
  induction cs as [|c cs IH]; [done|]. rewrite xor_codes_cons.
  apply lxor_byte; [apply code_range|done].
Qed.

Lemma nmea_checksum_xor (s : string) :
  nmea_checksum s = format_02X (xor_codes (chars s)).
Proof. done. Qed.

Lemma hex_digit_spec (d : Z) : 0 ≤ d < 16 →
  is_0_9_A_F (hex_digit d) = true ∧ hex_val (hex_digit d) = d
  ∧ upper_char (hex_digit d) = hex_digit d.
Proof.
  intros H.
  assert (d = 0 ∨ d = 1 ∨ d = 2 ∨ d = 3 ∨ d = 4 ∨ d = 5 ∨ d = 6 ∨ d = 7
          ∨ d = 8 ∨ d = 9 ∨ d = 10 ∨ d = 11 ∨ d = 12 ∨ d = 13 ∨ d = 14
          ∨ d = 15) as Hc by lia.
  repeat (destruct Hc as [->|Hc]; [by vm_compute|]). subst. by vm_compute.
Qed.

Lemma nmea_checksum_hex (s : string) :
  ∃ a b,
    nmea_checksum s = String a (String b EmptyString)
    ∧ is_0_9_A_F a = true ∧ is_0_9_A_F b = true
    ∧ hex_value (nmea_checksum s) = xor_codes (chars s)
    ∧ upper (nmea_checksum s) = nmea_checksum s.
Proof.
  rewrite nmea_checksum_xor. pose proof (xor_codes_range (chars s)) as Hr.
  set (x := xor_codes (chars s)) in *.
  assert (H1 : 0 ≤ x / 16 < 16).
  { split; [apply Z.div_pos; lia|apply Z.div_lt_upper_bound; lia]. }
  assert (H2 : 0 ≤ x mod 16 < 16) by (apply Z.mod_pos_bound; lia).
  destruct (hex_digit_spec _ H1) as (Ha & Va & Ua).
  destruct (hex_digit_spec _ H2) as (Hb & Vb & Ub).
  exists (hex_digit (x / 16)), (hex_digit (x mod 16)).
  repeat split; try done.
  - unfold hex_value, format_02X. simpl. rewrite Va, Vb.
    pose proof (Z.div_mod x 16). lia.
  - unfold upper, format_02X. simpl. by rewrite Ua, Ub.
Qed.

(** X2. The checksum is always two upper-case hexadecimal digits, and they
    spell the XOR of the character codes. *)
Theorem checksum_is_two_hex_digits (s : string) :
  ∃ a b,
    nmea_checksum s = String a (String b EmptyString)
    ∧ is_0_9_A_F a = true ∧ is_0_9_A_F b = true
    ∧ hex_value (nmea_checksum s) = xor_codes (chars s)
    ∧ upper (nmea_checksum s) = nmea_checksum s.
Proof. apply nmea_checksum_hex. Qed.

Lemma format_02X_inj (x y : Z) :
  0 ≤ x < 256 → 0 ≤ y < 256 → format_02X x = format_02X y → x = y.
Proof.
  intros Hx Hy H. unfold format_02X in H. injection H as Hd Hm.
  assert (∀ z, 0 ≤ z < 256 → 0 ≤ z / 16 < 16 ∧ 0 ≤ z mod 16 < 16) as Hb.
  { intros z Hz. split; [|apply Z.mod_pos_bound; lia].
    split; [apply Z.div_pos; lia|apply Z.div_lt_upper_bound; lia]. }
  destruct (Hb x Hx) as [Hx1 Hx2], (Hb y Hy) as [Hy1 Hy2].
  apply (f_equal hex_val) in Hd, Hm.
  rewrite !(proj1 (proj2 (hex_digit_spec _ Hx1))),
          !(proj1 (proj2 (hex_digit_spec _ Hy1))) in Hd.
  rewrite !(proj1 (proj2 (hex_digit_spec _ Hx2))),
          !(proj1 (proj2 (hex_digit_spec _ Hy2))) in Hm.
  pose proof (Z.div_mod x 16). pose proof (Z.div_mod y 16). lia.
Qed.

Lemma nmea_checksum_substitution (a b : string) (c c' : ascii) :
  c ≠ c' →
  nmea_checksum (a +:+ String c b) ≠ nmea_checksum (a +:+ String c' b).
Proof.
  intros Hc H. rewrite !nmea_checksum_xor in H.
  apply format_02X_inj in H; [|apply xor_codes_range..].
  rewrite !chars_app in H. 
  change (chars (String c b)) with (c :: chars b) in H.
  change (chars (String c' b)) with (c' :: chars b) in H.
  rewrite !xor_codes_app, !xor_codes_cons in H.
  apply Hc, code_inj.
  apply (f_equal (Z.lxor (xor_codes (chars a)))) in H.
  rewrite <- !Z.lxor_assoc, Z.lxor_nilpotent, !Z.lxor_0_l in H.
  apply (f_equal (λ z, Z.lxor z (xor_codes (chars b)))) in H.
  by rewrite !Z.lxor_assoc, Z.lxor_nilpotent, !Z.lxor_0_r in H.
Qed.

Lemma xor_codes_perm (l1 l2 : list ascii) :
  l1 ≡ₚ l2 → xor_codes l1 = xor_codes l2.
Proof.
  induction 1 as [|x l1 l2 _ IH|x y l|l1 l2 l3 _ IH1 _ IH2].
  - done.
  - by rewrite !xor_codes_cons, IH.
  - rewrite !xor_codes_cons, <- !Z.lxor_assoc. f_equal. apply Z.lxor_comm.
  - congruence.
Qed.

(** X4. The checksum does not see the order of the characters: two texts
    made of the same characters have the same checksum. *)
Theorem checksum_blind_to_order (s1 s2 : string) :
  chars s1 ≡ₚ chars s2 → nmea_checksum s1 = nmea_checksum s2.
Proof. intros H. by rewrite !nmea_checksum_xor, (xor_codes_perm _ _ H). Qed.

Lemma checksum_blind_to_order_witness :
  chars "GPGGA,12" ≡ₚ chars "GPGGA,21"
  ∧ nmea_checksum "GPGGA,12" = nmea_checksum "GPGGA,21".
Proof.
  assert (H : chars "GPGGA,12" ≡ₚ chars "GPGGA,21").
  { simpl. do 6 apply Permutation_skip. apply Permutation_swap. }
  split; [exact H|]. exact (checksum_blind_to_order _ _ H).
Defined.

(** ** The fields of a frame *)

Lemma split_cons_case (sep c : ascii) (s : string) :
  split sep (String c s)
  = if Ascii.eqb c sep then EmptyString :: split sep s
    else match split sep s with
         | w :: ws => String c w :: ws
         | [] => [String c EmptyString]
         end.
Proof. done. Qed.

Lemma split_nonempty (sep : ascii) (s : string) : split sep s ≠ [].
Proof.
  induction s as [|c s IH]; [done|]. rewrite split_cons_case.
  destruct (Ascii.eqb c sep); [done|]. by destruct (split sep s).
Qed.

Lemma join_cons (sep x : string) (y : string) (l : list string) :
  join sep (x :: y :: l) = (x +:+ sep +:+ join sep (y :: l))%string.
Proof. done. Qed.

Lemma join_cons_char (sep : string) (c : ascii) (w : string) (ws : list string) :
  join sep (String c w :: ws) = String c (join sep (w :: ws)).
Proof. by destruct ws. Qed.

(** X5. The fields of a body: joined again with commas they give the body
    back, none of them holds a comma, and there is one more of them than
    there are commas in the body; and splitting is the only way to cut a
    text into comma-free pieces. *)
Theorem split_join_round_trip (sep : ascii) (s : string) :
  join (String sep "") (split sep s) = s
  ∧ Forall (λ f, sep ∉ chars f) (split sep s)
  ∧ length (split sep s) = S (length (filter (λ c, c = sep) (chars s)))
  ∧ ∀ l, Forall (λ f, sep ∉ chars f) l → join (String sep "") l = s →
         l ≠ [] → l = split sep s.
Proof.
  split; [|split; [|split]].
  - induction s as [|c s IH]; [done|]. rewrite split_cons_case.
    destruct (Ascii.eqb_spec c sep) as [->|Hc].
    + pose proof (split_nonempty sep s).
      destruct (split sep s) as [|w ws] eqn:E; [done|].
      rewrite ?E in IH. rewrite join_cons, IH. done.
    + pose proof (split_nonempty sep s).
      destruct (split sep s) as [|w ws] eqn:E; [done|].
      rewrite ?E in IH. by rewrite join_cons_char, IH.
  - induction s as [|c s IH]; [repeat constructor; by intros ?%elem_of_nil|].
    rewrite split_cons_case.
    destruct (Ascii.eqb_spec c sep) as [->|Hc].
    + constructor; [by intros ?%elem_of_nil|done].
    + destruct (split sep s) as [|w ws] eqn:E.
      * constructor; [|done]. simpl. intros [?|?%elem_of_nil]%elem_of_cons; by subst.
      * apply Forall_cons in IH as [Hw Hws]. constructor; [|done].
        simpl. intros [?|?]%elem_of_cons; by subst.
  - induction s as [|c s IH]; [done|]. rewrite split_cons_case. simpl.
    destruct (Ascii.eqb_spec c sep) as [->|Hc].
    + rewrite filter_cons_True by done. simpl. by rewrite IH.
    + rewrite filter_cons_False by done.
      pose proof (split_nonempty sep s).
      by destruct (split sep s) as [|w ws] eqn:E.
  - induction s as [|c s IH]; intros l Hl Hj Hne.
    + destruct l as [|x [|y l]]; [done| |].
      * simpl in Hj. by subst.
      * rewrite join_cons in Hj. destruct x; simpl in Hj; discriminate.
    + rewrite split_cons_case.
      destruct l as [|x l]; [done|].
      destruct x as [|c' x].
      * destruct l as [|y l]; [done|].
        rewrite join_cons in Hj. simpl in Hj. injection Hj as -> Hj.
        rewrite Ascii.eqb_refl. f_equal.
        apply IH; [by apply Forall_cons in Hl as [_ ?]|done|done].
      * rewrite join_cons_char in Hj. injection Hj as -> Hj.
        apply Forall_cons in Hl as [Hx Hl].
        destruct (Ascii.eqb_spec c sep) as [->|Hc].
        { exfalso. apply Hx. simpl. by left. }
        rewrite <- (IH (x :: l)); [done| |done|done].
        constructor; [|done]. intros Hin. apply Hx. simpl. by right.
Qed.

(** ** The keys of an update and what they hold *)

Lemma well_typed_empty : well_typed ∅.
Proof. intros k v H. by rewrite lookup_empty in H. Qed.

Lemma well_typed_insert (k : string) (v : value) (u : dict) :
  typed k v → well_typed u → well_typed (<[k := v]> u).
Proof.
  intros Hk Hu k' v' H.
  apply lookup_insert_Some in H as [[<- <-]|[_ H]]; auto.
Qed.

Lemma typed_of_float (k : string) (o : option float) :
  kind_of k = Some KOptFloat → typed k (of_float o).
Proof. intros H. exists KOptFloat. split; [done|]. by destruct o. Qed.

Lemma typed_float (k : string) (f : float) :
  kind_of k = Some KFloat → typed k (VFloat f).
Proof. intros H. by exists KFloat. Qed.

Lemma replace_chars_not_nil (fuel : nat) (old new cs : list ascii) :
  new ≠ [] → cs ≠ [] → replace_chars (S fuel) old new cs ≠ [].
Proof.
  intros Hnew Hcs. simpl. case_bool_decide.
  - by destruct new.
  - by destruct cs.
Qed.

Lemma utc_string_not_empty (t : datetime) : utc_string t ≠ "".
Proof.
  unfold utc_string, Str.replace. intros H.
  apply (f_equal chars) in H. rewrite chars_of_chars in H.
  revert H. apply replace_chars_not_nil; [done|].
  unfold isoformat. rewrite !chars_app.
  intros H. apply app_eq_nil in H as [_ H]. discriminate H.
Qed.

Lemma well_typed_set_utc_time (t : option datetime) (u : dict) :
  well_typed u → well_typed (set_utc_time t u).
Proof.
  intros. destruct t; simpl; [|done].
  apply well_typed_insert; [|done]. exists KTime. split; [done|].
  apply utc_string_not_empty.
Qed.

Lemma well_typed_set_if_some (k : string) (o : option float) (u : dict) :
  kind_of k = Some KFloat → well_typed u → well_typed (set_if_some k o u).
Proof.
  intros. destruct o; simpl; [|done].
  apply well_typed_insert; [|done]. by apply typed_float.
Qed.

(** *** Counts *)

Lemma lstrip_by_suffix (p : ascii → bool) (cs : list ascii) :
  ∃ pre, cs = pre ++ lstrip_by p cs.
Proof.
  induction cs as [|c cs [pre IH]]; [by exists []|]. simpl.
  destruct (p c); [|by exists []]. exists (c :: pre). simpl. by f_equal.
Qed.

Lemma strip_c_subseteq (cs : list ascii) (c : ascii) :
  c ∈ strip_c cs → c ∈ cs.
Proof.
  unfold strip_c, rstrip_by. intros H.
  apply list_elem_of_In, in_rev, list_elem_of_In in H.
  destruct (lstrip_by_suffix c_isspace (rev (lstrip_by c_isspace cs)))
    as [pre Hpre].
  assert (c ∈ rev (lstrip_by c_isspace cs)) as H'.
  { rewrite Hpre. apply elem_of_app. by right. }
  apply list_elem_of_In, in_rev, list_elem_of_In in H'.
  destruct (lstrip_by_suffix c_isspace cs) as [pre' Hpre'].
  rewrite Hpre'. apply elem_of_app. by right.
Qed.

Lemma transform_chars_isdigit (cs : list ascii) (c : ascii) :
  forallb isdigit_char cs = true → c ∈ transform_chars cs →
  is_digit c = true ∨ c = "?"%char.
Proof.
  induction cs as [|a cs IH]; simpl; [by intros _ ?%elem_of_nil|].
  intros [Ha Hcs]%andb_true_iff.
  destruct (code a <? 127) eqn:El.
  - intros [->|H]%elem_of_cons; [|by apply IH].
    left. unfold isdigit_char in Ha. apply Z.ltb_lt in El.
    destruct (is_digit a); [done|]. simpl in Ha. lia.
  - assert (unicode_isspace a = false) as ->.
    { unfold isdigit_char, is_digit in Ha.
      unfold unicode_isspace, c_isspace. lia. }
    intros [->|H%elem_of_nil]%elem_of_cons; [by right|done].
Qed.

Lemma to_ascii_isdigit (cs : list ascii) (c : ascii) :
  forallb isdigit_char cs = true → c ∈ to_ascii_decimal_space cs →
  is_digit c = true ∨ c = "?"%char.
Proof.
  intros Hcs. unfold to_ascii_decimal_space.
  destruct (forallb (λ c, code c <? 128) cs) eqn:Ea.
  - intros Hin. left. rewrite forallb_forall in Hcs, Ea.
    apply list_elem_of_In in Hin.
    specialize (Hcs _ Hin). specialize (Ea _ Hin). simpl in Ea.
    unfold isdigit_char in Hcs. apply Z.ltb_lt in Ea.
    destruct (is_digit c); [done|]. simpl in Hcs. lia.
  - by apply transform_chars_isdigit.
Qed.

Lemma digits_val_from (ds : list ascii) (a : Z) :
  0 ≤ a → forallb is_digit ds = true →
  0 ≤ fold_left (λ acc c, 10 * acc + digit_val c) ds a.
Proof.
  revert a. induction ds as [|d ds IH]; intros a Ha; simpl; [done|].
  intros [Hd Hds]%andb_true_iff. apply IH; [|done].
  unfold is_digit, digit_val in *. lia.
Qed.

Lemma int_of_str_isdigit (x : string) (n : Z) :
  isdigit x = true → int_of_str x = Ok n → 0 ≤ n.
Proof.
  unfold isdigit, int_of_str. intros Hd.
  assert (forallb isdigit_char (chars x) = true) as Hall
    by (by destruct (chars x)).
  clear Hd.
  destruct (strip_c (to_ascii_decimal_space (chars x))) as [|c cs] eqn:E;
    [done|].
  assert (is_digit c = true ∨ c = "?"%char) as Hc.
  { apply (to_ascii_isdigit (chars x)); [done|].
    apply strip_c_subseteq. rewrite E. by left. }
  assert (read_sign (c :: cs) = (false, c :: cs)) as ->.
  { unfold read_sign. destruct Hc as [Hc| ->]; [|done].
    destruct (Ascii.eqb_spec c "-") as [->|]; [done|].
    destruct (Ascii.eqb_spec c "+") as [->|]; [done|].
    destruct c as [[] [] [] [] [] [] [] []]; done. }
  destruct (is_digit c); [|done].
  destruct (drop_underscores None (c :: cs)) as [ds|]; [|done].
  destruct (forallb is_digit ds) eqn:Eds; [|done].
  destruct (Z.of_nat (length ds) <=? max_str_digits); [|done].
  intros [= <-]. by apply digits_val_from.
Qed.

Lemma int_if_digit_kind (x : string) (v : value) :
  int_if_digit x = Ok v → has_kind KOptInt v.
Proof.
  unfold int_if_digit. destruct (isdigit x) eqn:Hd; [|by intros [= <-]].
  destruct (int_of_str x) as [n|] eqn:Hn; simpl; [|done].
  intros [= <-]. simpl. by eapply int_of_str_isdigit.
Qed.

Lemma well_typed_set_gsv_entry (talker : string) (n : Z) (u' : dict) :
  0 ≤ n → set_gsv_entry talker {["in_view" := n]} ∅ = Ok u' → well_typed u'.
Proof.
  unfold set_gsv_entry. rewrite lookup_empty. simpl. intros Hn [= <-].
  apply well_typed_insert; [|apply well_typed_empty].
  exists KGsv. split; [done|]. simpl.
  apply map_Forall_insert_2; [|apply map_Forall_empty]. by exists n.
Qed.

Lemma typed_if (k : string) (b : bool) (v1 v2 : value) :
  typed k v1 → typed k v2 → typed k (if b then v1 else v2).
Proof. by destruct b. Qed.

Ltac typed_entry :=
  repeat apply typed_if;
  first [ by apply typed_of_float
        | by apply typed_float
        | by (eexists; split; [reflexivity|];
              first [ done | eapply int_if_digit_kind; eassumption ]) ].

Ltac typing :=
  repeat first
    [ assumption
    | apply well_typed_empty
    | apply well_typed_set_utc_time
    | apply well_typed_set_if_some; [done|]
    | apply well_typed_insert; [typed_entry|]
    | match goal with
      | |- well_typed (if ?b then _ else _) => destruct b
      | |- well_typed (match ?b with _ => _ end) => destruct b
      end ].

Lemma parse_sentence_well_typed (now : datetime) (talker_sen : string)
    (fields : list string) (u : dict) :
  parse_sentence now talker_sen fields = Ok u → well_typed u.
Proof.
  unfold parse_sentence. intros H.
  repeat match type of H with
  | (if ?b then _ else _) = Ok _ => destruct b eqn:?
  end.
  - unfold parse_RMC in H. bind_ok H; typing.
  - unfold parse_GGA in H. bind_ok H; typing.
  - unfold parse_GNS in H. bind_ok H; typing.
  - unfold parse_GSA in H. bind_ok H; typing.
  - unfold parse_GSV in H. bind_ok H; typing.
    eapply well_typed_set_gsv_entry; [|eassumption].
    match goal with Hi : int_if_digit _ = Ok (VInt _) |- _ =>
      by apply int_if_digit_kind in Hi end.
  - unfold parse_VTG in H. bind_ok H; typing.
  - unfold parse_GST in H.
    destruct (bool_decide (5 ≤ length fields)%nat); [|injection H as <-; typing].
    destruct (truthy (item fields 0)); simpl in H; bind_ok H; typing;
      match goal with Hr : _ ≫= _ = Ok _ |- _ => bind_ok Hr end; typing.
  - injection H as <-. typing.
Qed.

(** ** The states of [main] *)

Lemma well_typed_gsv_ok (st : dict) : well_typed st → gsv_ok st.
Proof.
  intros H. unfold gsv_ok. destruct (st !! "gsv") as [v|] eqn:E; [|done].
  destruct (H _ _ E) as (kd & [= <-] & Hv). by destruct v.
Qed.

Lemma well_typed_gsv_of (st : dict) :
  well_typed st → map_Forall (λ _, in_view_entry) (gsv_of st).
Proof.
  intros H. unfold gsv_of. destruct (st !! "gsv") as [v|] eqn:E;
    [|apply map_Forall_empty].
  destruct (H _ _ E) as (kd & [= <-] & Hv).
  destruct v; try done. 
Qed.

Lemma merge_updates_well_typed (st u : dict) (now : float) :
  well_typed st → well_typed u → u !! "last_update" = None →
  ∃ st', merge_updates st u now = Ok st' ∧ well_typed st'.
Proof.
  intros Hst Hu Hl.
  assert (entries_ok u) as He.
  { intros k v Hk. destruct (Hu _ _ Hk) as (kd & Hkd & Hv).
    repeat split.
    - intros ->. congruence.
    - intros ->. injection Hkd as <-. destruct v; try done. by eexists.
    - intros Hn Hv'. subst v.
      destruct Hn as [->|[->|[->|[->| ->]]]]; by injection Hkd as <-. }
  destruct (merge_updates_decoded st u now (well_typed_gsv_ok _ Hst) He)
    as (st' & Hm & _ & Hlast & Hkeep & Hnew & Hgsv).
  exists st'. split; [done|]. intros k v Hk.
  destruct (decide (k = "last_update")) as [->|Hkl].
  { rewrite Hlast in Hk. injection Hk as <-. by exists KFloat. }
  destruct (u !! k) as [w|] eqn:Hw.
  - destruct (decide (k = "gsv")) as [->|Hkg].
    + destruct (Hu _ _ Hw) as (kd & [= <-] & Hd).
      destruct w as [| | | | |d]; try done.
      rewrite (Hgsv d Hw) in Hk. injection Hk as <-.
      exists KGsv. split; [done|]. simpl.
      apply map_Forall_union_2; [done|by apply well_typed_gsv_of].
    + rewrite (Hnew _ _ Hkg Hw) in Hk. injection Hk as <-. by apply (Hu k).
  - rewrite (Hkeep _ Hkl Hw) in Hk. by apply (Hst k).
Qed.

Lemma decoded_well_typed (u : dict) :
  decoded u → well_typed u ∧ u !! "last_update" = None.
Proof.
  intros (now & ts & fields & H). split.
  - by eapply parse_sentence_well_typed.
  - apply parse_sentence_entries in H.
    destruct (u !! "last_update") as [v|] eqn:E; [|done].
    by destruct (H _ _ E) as [? _].
Qed.

Lemma decode_and_merge_well_typed (clk : clock) (st st' : dict) (ts : string)
    (fields : list string) :
  well_typed st → decode_and_merge clk st ts fields = Ok st' → well_typed st'.
Proof.
  unfold decode_and_merge. intros Hst H.
  destruct (parse_sentence (utc_now clk) ts fields) as [u|] eqn:Hu;
    simpl in H; [|done].
  case_bool_decide; [|by injection H as <-].
  destruct (decoded_well_typed u) as [Hwt Hl]; [by do 3 eexists|].
  destruct (merge_updates_well_typed st u (merge_time clk) Hst Hwt Hl)
    as (st'' & Hm & Hwt'').
  rewrite Hm in H. by injection H as <-.
Qed.

Section Invariant.

Variable human_status : dict → string.

Variable json_line : dict → string.

Variable format_percent : string → dict → result string.

Lemma body_well_typed (a : args) (l l' : loop) (raw : string) (clk : clock) :
  well_typed (state l) →
  outcome_loop (body human_status json_line format_percent a l raw clk)
  = Some l' →
  well_typed (state l').
Proof.
  intros Hst. unfold body.
  destruct (args_once a); unfold loop_body, loop_body_once;
    (destruct (accept _) as [[ts fields]|]; [|by intros [= <-]]);
    (destruct (decode_and_merge _ _ _ _) as [st|] eqn:Hd; [|done]);
    pose proof (decode_and_merge_well_typed _ _ _ _ _ Hst Hd);
    repeat match goal with
    | |- outcome_loop (if ?b then _ else _) = _ → _ => destruct b
    | |- outcome_loop (match ?b with _ => _ end) = _ → _ => destruct b
    end; simpl; intros [= <-]; done.
Qed.

Lemma run_well_typed (a : args) (l : loop) (input : list (string * clock)) :
  well_typed (state l) →
  well_typed (state (run human_status json_line format_percent a l input).1.1).
Proof.
  revert l. induction input as [|[raw clk] input IH]; intros l Hl; simpl;
    [done|].
  destruct (body _ _ _ a l raw clk) as [l' evs|l' evs|e evs] eqn:Hb.
  - specialize (IH l'). destruct (run _ _ _ a l' input) as [[l'' evs'] st].
    simpl in *. apply IH. eapply body_well_typed; [done|]. by rewrite Hb.
  - simpl. eapply body_well_typed; [done|]. by rewrite Hb.
  - done.
Qed.

End Invariant.

Lemma assoc_Some_elem {A : Type} (k : string) (l : list (string * A)) (a : A) :
  assoc k l = Some a → k ∈ map fst l.
Proof.
  induction l as [|[k' a'] l IH]; simpl; [done|].
  destruct (String.eqb_spec k k') as [->|]; [by left|].
  intros H. right. by apply IH.
Qed.

(** X6. What a sentence decodes to: every key of the update is one of the
    documented keys other than [last_update], and under each key stands a
    value of the documented kind. *)
Theorem decoded_update_schema (now : datetime) (talker_sen : string)
    (fields : list string) (u : dict) :
  parse_sentence now talker_sen fields = Ok u →
  well_typed u
  ∧ u !! "last_update" = None
  ∧ ∀ k, is_Some (u !! k) → k ∈ help_format_keys.
Proof.
  intros H.
  destruct (decoded_well_typed u) as [Hwt Hl]; [by do 3 eexists|].
  split; [done|]. split; [done|]. intros k [v Hk].
  destruct (Hwt _ _ Hk) as (kd & Hkd & _).
  by apply assoc_Some_elem in Hkd.
Qed.

Lemma decoded_update_schema_witness :
  parse_sentence (mk_datetime 2026 11 4 0 0 0 0) "GPGSV" ["1"; "1"; "07"]
  = Ok {["gsv" := VGsv {["GP" := {["in_view" := 7]}]}]}
  ∧ well_typed {["gsv" := VGsv {["GP" := {["in_view" := 7]}]}]}.
Proof.
  assert (H : parse_sentence (mk_datetime 2026 11 4 0 0 0 0) "GPGSV"
                ["1"; "1"; "07"]
              = Ok {["gsv" := VGsv {["GP" := {["in_view" := 7]}]}]})
    by (vm_compute; reflexivity).
  split; [exact H|]. exact (proj1 (decoded_update_schema _ _ _ _ H)).
Defined.

(** X7. Every state that [main] reaches, on any input and with any
    options, holds documented keys only, each with a value of its kind:
    the merger never raises there, and no key ever changes its kind. *)
Theorem main_state_schema
    (human_status json_line : dict → string)
    (format_percent : string → dict → result string)
    (a : args) (input : list (string * clock)) :
  let st := state (main human_status json_line format_percent a input).1.1 in
  well_typed st ∧ ∀ k, is_Some (st !! k) → k ∈ help_format_keys.
Proof.
  intros st.
  assert (well_typed st) as Hwt
    by (apply run_well_typed; apply well_typed_empty).
  split; [done|]. intros k [v Hk].
  destruct (Hwt _ _ Hk) as (kd & Hkd & _).
  by apply assoc_Some_elem in Hkd.
Qed.

(** ** The status line *)

Lemma fmt_float (f : float) (nd : nat) : is_Some (fmt (VFloat f) nd).
Proof.
  unfold fmt, isnan, str_value. destruct (Prim2SF f); simpl; eauto.
Qed.

Lemma kind_lookup (st : dict) (k : string) (kd : kind) :
  well_typed st → kind_of k = Some kd →
  match st !! k with
  | Some v => has_kind kd v
  | None => True
  end.
Proof.
  intros Hst Hk. destruct (st !! k) as [v|] eqn:E; [|done].
  destruct (Hst _ _ E) as (kd' & Hk' & Hv). congruence.
Qed.

Lemma get_or_str_int (table : Z → option string) (v : value) :
  has_kind KOptInt v → is_Some (get_or_str table v).
Proof.
  destruct v; try done; intros _; unfold get_or_str; simpl.
  destruct (table z); by eexists.
Qed.

Lemma utc_part_typed (st : dict) :
  well_typed st →
  ∃ s, utc_part st = Some ["UTC " +:+ s].
Proof.
  intros Hst. pose proof (kind_lookup st "utc_time" KTime Hst eq_refl) as H.
  unfold utc_part, state_get.
  destruct (st !! "utc_time") as [v|]; simpl; [|by exists "?"].
  destruct v as [| | | |s|]; try done. simpl in *.
  destruct s; [done|]. simpl. eauto.
Qed.

Lemma fix_part_typed (st : dict) : well_typed st → is_Some (fix_part st).
Proof.
  intros Hst.
  pose proof (kind_lookup st "fix_quality" KOptInt Hst eq_refl) as Hq.
  pose proof (kind_lookup st "fix_type" KOptInt Hst eq_refl) as Ht.
  unfold fix_part, state_get.
  destruct (st !! "fix_quality") as [[| |q| | |]|],
           (st !! "fix_type") as [[| |t| | |]|];
    simpl in *; try done; unfold get_or_str; simpl;
    repeat match goal with
    | |- context [qmap ?q] => destruct (qmap q)
    | |- context [tmap ?t] => destruct (tmap t)
    end; simpl; by eexists.
Qed.

Lemma pos_part_typed (st : dict) : well_typed st → is_Some (pos_part st).
Proof.
  intros Hst.
  pose proof (kind_lookup st "lat" KFloat Hst eq_refl) as Hla.
  pose proof (kind_lookup st "lon" KFloat Hst eq_refl) as Hlo.
  unfold pos_part, is_not_None, state_get.
  destruct (st !! "lat") as [[| | |la| |]|]; try done; cbn -[fmt];
    try (by eexists).
  destruct (st !! "lon") as [[| | |lo| |]|]; try done; cbn -[fmt];
    try (by eexists).
  destruct (fmt_float la 6) as [s1 ->], (fmt_float lo 6) as [s2 ->].
  by eexists.
Qed.

Lemma labelled_float (st : dict) (k pre post : string) (nd : nat) :
  well_typed st → kind_of k = Some KOptFloat ∨ kind_of k = Some KFloat →
  is_Some (labelled st k (λ v, fmt v nd) pre post).
Proof.
  intros Hst Hk. unfold labelled, is_not_None, state_get.
  destruct (st !! k) as [v|] eqn:E; cbn -[fmt]; try (by eexists).
  destruct (Hst _ _ E) as (kd & Hkd & Hv).
  assert (kd = KOptFloat ∨ kd = KFloat) as Hkd' by (destruct Hk; left + right; congruence).
  destruct v as [| | |f| |]; cbn -[fmt]; try (by eexists);
    try (by destruct Hkd' as [-> | ->]).
  destruct (fmt_float f nd) as [s ->]. by eexists.
Qed.

Lemma labelled_int (st : dict) (k pre post : string) :
  well_typed st → kind_of k = Some KOptInt →
  is_Some (labelled st k str_value pre post).
Proof.
  intros Hst Hk. unfold labelled, is_not_None, state_get.
  destruct (st !! k) as [v|] eqn:E; simpl; [|by eauto].
  destruct (Hst _ _ E) as (kd & Hkd & Hv).
  rewrite Hk in Hkd. injection Hkd as <-.
  destruct v; simpl; try done; eauto.
Qed.

Lemma gsv_part_typed (st : dict) : well_typed st → is_Some (gsv_part st).
Proof.
  intros Hst. pose proof (kind_lookup st "gsv" KGsv Hst eq_refl) as H.
  unfold gsv_part, state_get.
  destruct (st !! "gsv") as [v|]; simpl; [|by eauto].
  destruct v; try done. simpl. case_bool_decide; eauto.
Qed.

Lemma append_nil_r (x : string) : (x +:+ "")%string = x.
Proof.
  induction x as [|c x IH]; [done|].
  change (String c x +:+ "")%string with (String c (x +:+ "")). by f_equal.
Qed.

Lemma append_assoc (a b c : string) :
  ((a +:+ b) +:+ c = a +:+ (b +:+ c))%string.
Proof.
  induction a as [|x a IH]; [done|].
  change (String x ((a +:+ b) +:+ c) = String x (a +:+ (b +:+ c)))%string.
  by f_equal.
Qed.

Lemma join_head (sep x : string) (l : list string) :
  ∃ rest, join sep (x :: l) = (x +:+ rest)%string.
Proof.
  destruct l as [|y l].
  - exists "". by rewrite append_nil_r.
  - by eexists.
Qed.

Lemma human_status_typed (st : dict) :
  well_typed st → ∃ s, human_status st = Some ("UTC " +:+ s).
Proof.
  intros Hst. unfold human_status.
  destruct (utc_part_typed st Hst) as [s ->].
  destruct (fix_part_typed st Hst) as [? ->].
  destruct (pos_part_typed st Hst) as [? ->].
  destruct (labelled_float st "alt_m" "alt " " m" 1 Hst) as [? ->]; [by left|].
  destruct (labelled_int st "num_sats" "sats " "" Hst) as [? ->]; [done|].
  destruct (labelled_float st "hdop" "HDOP " "" 1 Hst) as [? ->]; [by left|].
  destruct (labelled_float st "pdop" "PDOP " "" 1 Hst) as [? ->]; [by left|].
  destruct (labelled_float st "vdop" "VDOP " "" 1 Hst) as [? ->]; [by left|].
  destruct (labelled_float st "speed_kmh" "spd " " kmh" 1 Hst) as [? ->];
    [by right|].
  destruct (labelled_float st "course_deg" "cog " " deg" 1 Hst) as [? ->];
    [by left|].
  destruct (gsv_part_typed st Hst) as [? ->].
  cbn -[join app].
  match goal with
  | |- ∃ s', Some (join ?sep ([?x] ++ ?l)) = _ =>
      destruct (join_head sep x l) as [rest Hr]
  end.
  exists (s +:+ rest)%string. rewrite <- append_assoc, <- Hr. done.
Qed.

(** X8. On every state that [main] reaches, [human_status] returns a line,
    and the line begins with the time stamp part. *)
Theorem status_line_of_every_state
    (hs jl : dict → string) (fp : string → dict → result string)
    (a : args) (input : list (string * clock)) :
  ∃ s, human_status (state (main hs jl fp a input).1.1)
       = Some ("UTC " +:+ s).
Proof.
  apply human_status_typed. apply run_well_typed, well_typed_empty.
Qed.

Lemma state_get_agree (st st' : dict) (k : string) :
  st !! k = st' !! k → state_get st k = state_get st' k.
Proof. unfold state_get. by intros ->. Qed.

Lemma is_not_None_agree (st st' : dict) (k : string) :
  st !! k = st' !! k → is_not_None st k = is_not_None st' k.
Proof. unfold is_not_None. by intros ->. Qed.

Lemma labelled_agree (st st' : dict) (k : string) text (pre post : string) :
  st !! k = st' !! k →
  labelled st k text pre post = labelled st' k text pre post.
Proof.
  intros H. unfold labelled.
  by rewrite (is_not_None_agree _ _ _ H), (state_get_agree _ _ _ H).
Qed.

(** X9. The status line depends on the thirteen keys it shows and on
    nothing else. *)
Theorem status_line_reads_shown_keys (st st' : dict) :
  (∀ k, k ∈ shown_keys → st !! k = st' !! k) →
  human_status st = human_status st'.
Proof.
  intros H. unfold human_status, utc_part, fix_part, pos_part, gsv_part.
  assert (∀ k, bool_decide (k ∈ shown_keys) = true → st !! k = st' !! k) as H'
    by (intros k Hk; apply H; by apply bool_decide_eq_true_1 in Hk).
  rewrite !(labelled_agree st st') by (by apply H').
  rewrite !(state_get_agree st st') by (by apply H').
  rewrite !(is_not_None_agree st st') by (by apply H').
  done.
Qed.

Lemma status_line_reads_shown_keys_witness :
  human_status (<["last_update" := VFloat 2]> (<["fix_ok" := VBool true]> ∅))
  = human_status ∅.
Proof.
  apply status_line_reads_shown_keys. intros k Hk.
  rewrite !lookup_insert_ne; [done| |].
  - intros <-. refine (bool_decide_eq_false_1 _ _ Hk). reflexivity.
  - intros <-. refine (bool_decide_eq_false_1 _ _ Hk). reflexivity.
Defined.

(** ** The loop of [--once] *)

Lemma longer_from (b : string) (l : list string) (o : string) :
  foldl (λ best o,
           match best with
           | Some b => if (len b <? len o)%nat then Some o else Some b
           | None => Some o
           end) (Some b) l = Some o
  ↔ (o = b ∧ Forall (λ x, (len x ≤ len b)%nat) l)
    ∨ ∃ pre post, l = pre ++ o :: post
        ∧ (len b < len o)%nat
        ∧ Forall (λ x, (len x < len o)%nat) pre
        ∧ Forall (λ x, (len x ≤ len o)%nat) post.
Proof.
  revert b. induction l as [|x l IH]; intros b; simpl.
  - split.
    + intros [= ->]. left. by split.
    + intros [[-> _]|(pre & post & H & _)]; [done|]. by destruct pre.
  - destruct (Nat.ltb_spec (len b) (len x)) as [Hlt|Hge]; rewrite IH; split.
    + intros [[-> Hl]|(pre & post & -> & Hlt' & Hpre & Hpost)].
      * right. exists [], l. repeat split; try done.
      * right. exists (x :: pre), post. repeat split; try done; [lia|].
        by constructor.
    + intros [[-> Hl]|(pre & post & Hl & Hlt' & Hpre & Hpost)].
      * apply Forall_cons in Hl as [Hx _]. lia.
      * destruct pre as [|y pre]; simpl in Hl; injection Hl as -> ->.
        -- left. by split.
        -- apply Forall_cons in Hpre as [Hy Hpre]. right.
           exists pre, post. repeat split; try done.
    + intros [[-> Hl]|(pre & post & -> & Hlt' & Hpre & Hpost)].
      * left. split; [done|]. by constructor.
      * right. exists (x :: pre), post. repeat split; try done.
        constructor; [lia|done].
    + intros [[-> Hl]|(pre & post & Hl & Hlt' & Hpre & Hpost)].
      * apply Forall_cons in Hl as [Hx Hl]. left. by split.
      * destruct pre as [|y pre]; simpl in Hl; injection Hl as -> ->; [lia|].
        apply Forall_cons in Hpre as [Hy Hpre]. right.
        exists pre, post. repeat split; try done.
Qed.

(** X10. [max(outputs, key=len)]: the record that is printed is one of the
    collected records, none is longer, and those collected before it are
    strictly shorter; nothing is printed only when nothing was collected. *)
Theorem longer_is_first_longest (outs : list string) :
  (longer outs = None ↔ outs = [])
  ∧ ∀ o, longer outs = Some o ↔
      ∃ pre post, outs = pre ++ o :: post
        ∧ Forall (λ x, (len x < len o)%nat) pre
        ∧ Forall (λ x, (len x ≤ len o)%nat) post.
Proof.
  unfold longer. destruct outs as [|x l]; simpl.
  - split; [done|]. intros o. split; [done|].
    intros (pre & post & H & _). by destruct pre.
  - split.
    + split; [|done]. intros H.
      destruct (foldl _ (Some x) l) eqn:E; [done|].
      exfalso. clear H. revert x E. induction l as [|y l IH]; intros x; simpl; [done|].
      destruct (len x <? len y)%nat; apply IH.
    + intros o. rewrite longer_from. split.
      * intros [[-> Hl]|(pre & post & -> & Hlt & Hpre & Hpost)].
        -- exists [], l. by repeat split.
        -- exists (x :: pre), post. repeat split; try done. by constructor.
      * intros (pre & post & Hl & Hpre & Hpost).
        destruct pre as [|y pre]; simpl in Hl; injection Hl as -> ->.
        -- left. by split.
        -- apply Forall_cons in Hpre as [Hy Hpre]. right.
           exists pre, post. by repeat split.
Qed.

Section Once.

Variable human_status : dict → string.

Variable json_line : dict → string.

Variable format_percent : string → dict → result string.

#[local] Abbreviation body' := (body human_status json_line format_percent).

#[local] Abbreviation run' := (run human_status json_line format_percent).

Lemma body_outputs (a : args) (l : loop) (raw : string) (clk : clock) :
  (length (outputs l) ≤ 1)%nat →
  match body' a l raw clk with
  | Continue l' evs =>
      (length (outputs l') ≤ 1)%nat
      ∧ (args_once a = false → outputs l' = outputs l)
      ∧ (args_once a = true → filter is_emit evs = [])
  | Break l' evs =>
      args_once a = true ∧ length (outputs l') = 2%nat
      ∧ filter is_emit evs = []
  | Crash _ evs => filter is_emit evs = []
  end.
Proof.
  intros Hl. unfold body.
  assert (filter is_emit (echo_and_log a (strip (decode_ascii_ignore raw)))
          = []) as He.
  { unfold echo_and_log. by destruct (args_raw a), (args_log a). }
  destruct (args_once a); unfold loop_body, loop_body_once;
    (destruct (accept _) as [[ts fields]|]; [|by simpl]);
    (destruct (decode_and_merge _ _ _ _) as [st|] eqn:Hd; [|done]);
    repeat match goal with
    | |- match (if ?b then _ else _) with _ => _ end => destruct b eqn:?
    | |- match (match ?b with _ => _ end) with _ => _ end => destruct b eqn:?
    end; simpl in *; rewrite ?filter_app, ?He, ?length_app in *; simpl in *;
    repeat split; try done; try lia.
  all: try (case_bool_decide; simpl in *; lia).
  all: try (by match goal with o : option string |- _ => destruct o end).
  match goal with
  | Hb : bool_decide _ = true, o : option string |- _ =>
      apply bool_decide_eq_true_1 in Hb; destruct o; simpl in *; lia
  end.
Qed.

Lemma run_once (a : args) (l : loop) (input : list (string * clock)) :
  (length (outputs l) ≤ 1)%nat →
  match run' a l input with
  | (l', evs, Finished) =>
      args_once a = true
      ∧ ∃ o1 o2, outputs l' = [o1; o2]
          ∧ filter is_emit evs
            = [Emit (if (len o1 <? len o2)%nat then o2 else o1)]
  | (l', evs, Reading) =>
      (length (outputs l') ≤ 1)%nat
      ∧ (args_once a = false → outputs l' = outputs l)
      ∧ (args_once a = true → filter is_emit evs = [])
  | (l', evs, Crashed _) => True
  end.
Proof.
  revert l. induction input as [|[raw clk] input IH]; intros l Hl; simpl;
    [done|].
  pose proof (body_outputs a l raw clk Hl) as Hb.
  destruct (body' a l raw clk) as [l' evs|l' evs|e evs].
  - destruct Hb as (Hl' & Hno & Hne). specialize (IH l' Hl').
    destruct (run' a l' input) as [[l'' evs'] [| |e]]; [| |done].
    + destruct IH as (? & Hno' & Hne'). repeat split; [done| |].
      * intros Ho. by rewrite Hno', Hno.
      * intros Ho. by rewrite filter_app, Hne, Hne'.
    + destruct IH as (Ho & o1 & o2 & Hout & Hev). split; [done|].
      exists o1, o2. split; [done|]. by rewrite filter_app, Hne.
  - destruct Hb as (Ho & Hlen & Hne). split; [done|].
    destruct (outputs l') as [|o1 [|o2 [|]]] eqn:E; try done.
    exists o1, o2. split; [done|]. rewrite filter_app, Hne. simpl.
    unfold longer. simpl. by destruct (len o1 <? len o2)%nat.
  - done.
Qed.

End Once.

(** X11. How [main] leaves the loop: only under [--once], with exactly two
    collected records, and what it prints then is the second record if it
    is strictly longer than the first and the first otherwise. While the
    loop of [--once] runs it prints no record. *)
Theorem once_prints_the_longer_of_two
    (human_status json_line : dict → string)
    (format_percent : string → dict → result string)
    (a : args) (input : list (string * clock)) :
  match main human_status json_line format_percent a input with
  | (l, evs, Finished) =>
      args_once a = true
      ∧ ∃ o1 o2, outputs l = [o1; o2]
          ∧ filter is_emit evs
            = [Emit (if (len o1 <? len o2)%nat then o2 else o1)]
  | (l, evs, Reading) =>
      (args_once a = true →
       filter is_emit evs = [] ∧ (length (outputs l) ≤ 1)%nat)
      ∧ (args_once a = false → outputs l = [])
  | (l, evs, Crashed _) => True
  end.
Proof.
  unfold main.
  pose proof (run_once human_status json_line format_percent a initial input)
    as H.
  destruct (run _ _ _ a initial input) as [[l evs] [| |e]]; [| |done].
  - destruct H as (H1 & H2 & H3); [simpl; lia|]. split.
    + intros Ho. by split; [apply H3|].
    + intros Ho. by rewrite H2.
  - apply H. simpl. lia.
Qed.

(** ** One iteration of the loop *)

Lemma filter_echo_and_log (a : args) (s : string) :
  filter is_echo_or_log (echo_and_log a s) = echo_and_log a s.
Proof. unfold echo_and_log. by destruct (args_raw a), (args_log a). Qed.

(** X12. A line that the validator rejects leaves no trace: the variables
    of the loop are unchanged and nothing is echoed, logged or printed. For
    a line that it accepts, the events of the iteration begin with the echo
    of the line (with [--raw]) and its entry in the log (with [--log]), the
    line as it stands after decoding and stripping, and hold no other echo
    or log entry, also when the decoder or the renderer then raises. *)
Theorem echo_and_log_of_every_accepted_line
    (human_status json_line : dict → string)
    (format_percent : string → dict → result string)
    (a : args) (l : loop) (raw : string) (clk : clock) :
  let s := strip (decode_ascii_ignore raw) in
  let o := body human_status json_line format_percent a l raw clk in
  match accept s with
  | None => o = Continue l []
  | Some _ =>
      ∃ rest,
        outcome_events o
        = (if args_raw a then [Echo s] else [])
          ++ (if args_log a then [LogWrite s] else []) ++ rest
        ∧ filter is_echo_or_log rest = []
  end.
Proof.
  intros s o. subst o. unfold body.
  destruct (args_once a); unfold loop_body, loop_body_once; fold s;
    (destruct (accept s) as [[ts fields]|]; [|done]);
    unfold echo_and_log;
    (destruct (decode_and_merge _ _ _ _) as [st|];
       [|by exists []; rewrite !app_nil_r]);
    repeat match goal with
    | |- context [if tick ?x ?y then _ else _] => destruct (tick x y)
    | |- context [if complete ?x then _ else _] => destruct (complete x)
    | |- context [if args_partial ?x || ?y then _ else _] => destruct (args_partial x || y)
    | |- context [if bool_decide ?P then _ else _] => destruct (bool_decide P)
    | |- context [match ?b with Ok _ => _ | Raise _ => _ end] => destruct b
    | |- context [match ?b with Some _ => _ | None => _ end] => destruct b
    end; simpl; rewrite <- ?app_assoc;
    first [ by exists []; rewrite !app_nil_r
          | by eexists [_]
          | by eexists; split; [reflexivity|] ].
Qed.

(** ** Completeness of the state *)

Lemma complete_well_typed (st : dict) :
  well_typed st →
  complete st = true
  ↔ is_Some (st !! "lat") ∧ is_Some (st !! "lon") ∧ is_Some (st !! "utc_time").
Proof.
  intros Hst.
  pose proof (kind_lookup st "lat" KFloat Hst eq_refl) as Hla.
  pose proof (kind_lookup st "lon" KFloat Hst eq_refl) as Hlo.
  pose proof (kind_lookup st "utc_time" KTime Hst eq_refl) as Hut.
  unfold complete, is_not_None.
  destruct (st !! "lat") as [[| | |la| |]|]; try done;
    [|by split; [|intros [[? [=]] _]]].
  destruct (st !! "lon") as [[| | |lo| |]|]; try done;
    [|by split; [|intros (_ & [? [=]] & _)]].
  destruct (st !! "utc_time") as [[| | | |s|]|]; try done; simpl in *;
    [|by split; [|intros (_ & _ & [? [=]])]].
  destruct s; [done|]. simpl. split; [|done]. intros _. eauto.
Qed.

Lemma decode_and_merge_keeps_keys (clk : clock) (st st' : dict) (ts : string)
    (fields : list string) (k : string) :
  well_typed st → decode_and_merge clk st ts fields = Ok st' →
  is_Some (st !! k) → is_Some (st' !! k).
Proof.
  unfold decode_and_merge. intros Hst H.
  destruct (parse_sentence (utc_now clk) ts fields) as [u|] eqn:Hu;
    simpl in H; [|done].
  case_bool_decide; [|by injection H as <-].
  destruct (merge_updates_decoded st u (merge_time clk)
              (well_typed_gsv_ok _ Hst) (parse_sentence_entries _ _ _ _ Hu))
    as (st'' & Hm & _ & Hlast & Hkeep & Hnew & Hgsv).
  rewrite Hm in H. injection H as <-. intros Hk.
  destruct (decide (k = "last_update")) as [->|Hkl]; [by rewrite Hlast|].
  destruct (u !! k) as [w|] eqn:Hw; [|by rewrite Hkeep].
  destruct (decide (k = "gsv")) as [->|Hkg]; [|by rewrite (Hnew _ _ Hkg Hw)].
  destruct (parse_sentence_entries _ _ _ _ Hu _ _ Hw) as (_ & [d ->] & _);
    [done|].
  by rewrite (Hgsv _ Hw).
Qed.

Section Complete.

Variable human_status : dict → string.

Variable json_line : dict → string.

Variable format_percent : string → dict → result string.

Lemma body_keeps_keys (a : args) (l l' : loop) (raw : string) (clk : clock)
    (k : string) :
  well_typed (state l) →
  outcome_loop (body human_status json_line format_percent a l raw clk)
  = Some l' →
  is_Some (state l !! k) → is_Some (state l' !! k).
Proof.
  intros Hst. unfold body.
  destruct (args_once a); unfold loop_body, loop_body_once;
    (destruct (accept _) as [[ts fields]|]; [|by intros [= <-]]);
    (destruct (decode_and_merge _ _ _ _) as [st|] eqn:Hd; [|done]);
    pose proof (decode_and_merge_keeps_keys _ _ _ _ _ k Hst Hd);
    repeat match goal with
    | |- outcome_loop (if ?b then _ else _) = _ → _ => destruct b
    | |- outcome_loop (match ?b with _ => _ end) = _ → _ => destruct b
    end; simpl; intros [= <-]; done.
Qed.

Lemma run_keeps_keys (a : args) (l : loop) (input : list (string * clock))
    (k : string) :
  well_typed (state l) → is_Some (state l !! k) →
  is_Some (state (run human_status json_line format_percent a l input).1.1
           !! k).
Proof.
  revert l. induction input as [|[raw clk] input IH]; intros l Hl Hk; simpl;
    [done|].
  destruct (body _ _ _ a l raw clk) as [l' evs|l' evs|e evs] eqn:Hb.
  - specialize (IH l'). destruct (run _ _ _ a l' input) as [[l'' evs'] st].
    simpl in *. apply IH.
    + eapply body_well_typed; [done|]. by rewrite Hb.
    + eapply body_keeps_keys; [done| |done]. by rewrite Hb.
  - simpl. eapply body_keeps_keys; [done| |done]. by rewrite Hb.
  - done.
Qed.

End Complete.

(** X13. In the states of [main] the test for a complete fix is the
    presence of the three keys, and it is passed for good: no later line
    takes latitude, longitude or time away, or replaces one by [None] or
    by an empty time. *)
Theorem complete_fix_stays_complete
    (human_status json_line : dict → string)
    (format_percent : string → dict → result string)
    (a : args) (input more : list (string * clock)) :
  let l := (main human_status json_line format_percent a input).1.1 in
  let l' := (run human_status json_line format_percent a l more).1.1 in
  (complete (state l) = true
   ↔ is_Some (state l !! "lat") ∧ is_Some (state l !! "lon")
     ∧ is_Some (state l !! "utc_time"))
  ∧ (complete (state l) = true → complete (state l') = true).
Proof.
  intros l l'.
  assert (well_typed (state l)) as Hl
    by (apply run_well_typed, well_typed_empty).
  assert (well_typed (state l')) as Hl' by by apply run_well_typed.
  split; [by apply complete_well_typed|].
  rewrite !complete_well_typed by done.
  intros (H1 & H2 & H3). repeat split; by apply run_keeps_keys.
Qed.

(** ** Sentences without a time or a position *)

Lemma lstrip_by_id (p : ascii → bool) (c : ascii) (cs : list ascii) :
  p c = false → lstrip_by p (c :: cs) = c :: cs.
Proof. intros H. simpl. by rewrite H. Qed.

Lemma rstrip_by_id (p : ascii → bool) (cs : list ascii) (c : ascii) :
  p c = false → rstrip_by p (cs ++ [c]) = cs ++ [c].
Proof.
  intros H. unfold rstrip_by. rewrite rev_app_distr. simpl. rewrite H.
  simpl. by rewrite rev_involutive.
Qed.

Lemma digit_not_space (c : ascii) : is_digit c = true → c_isspace c = false.
Proof. unfold is_digit, c_isspace. lia. Qed.

Lemma strip_c_digits (cs : list ascii) :
  forallb is_digit cs = true → strip_c cs = cs.
Proof.
  intros H. unfold strip_c. destruct cs as [|c cs]; [done|].
  apply andb_true_iff in H as H'. destruct H' as [Hc _].
  rewrite lstrip_by_id by by apply digit_not_space.
  destruct (exists_last (l := c :: cs) ltac:(done)) as (l' & z & E).
  rewrite E in *. apply rstrip_by_id, digit_not_space.
  rewrite forallb_app in H. apply andb_true_iff in H as [_ Hz].
  simpl in Hz. by apply andb_true_iff in Hz as [Hz _].
Qed.

Lemma drop_underscores_digits (prev : option ascii) (cs : list ascii) :
  prev ≠ Some "_"%char → forallb is_digit cs = true →
  drop_underscores prev cs = Some cs.
Proof.
  revert prev. induction cs as [|c cs IH]; intros prev Hp; simpl.
  - intros _. by rewrite bool_decide_eq_false_2.
  - intros [Hc Hcs]%andb_true_iff.
    destruct (Ascii.eqb_spec c "_") as [->|Hne]; [done|].
    rewrite (bool_decide_eq_false_2 _ Hp). simpl.
    rewrite IH; [done| |done]. intros [= ->]. done.
Qed.

Lemma int_of_str_digits (x : string) :
  isdigit x = true → Forall is_ascii (chars x) →
  Z.of_nat (length (chars x)) ≤ max_str_digits →
  int_of_str x = Ok (digits_val (chars x)).
Proof.
  unfold isdigit, int_of_str. intros Hd Ha Hlen.
  assert (forallb is_digit (chars x) = true) as Hall.
  { apply forallb_forall. intros c Hc.
    assert (isdigit_char c = true) as Hi.
    { destruct (chars x); [done|]. rewrite forallb_forall in Hd. by apply Hd. }
    rewrite Forall_forall in Ha. apply list_elem_of_In in Hc.
    specialize (Ha _ Hc). unfold is_ascii, isdigit_char in *.
    destruct (is_digit c); [done|]. simpl in Hi. lia. }
  assert (to_ascii_decimal_space (chars x) = chars x) as ->.
  { unfold to_ascii_decimal_space.
    replace (forallb (λ c, code c <? 128) (chars x)) with true; [done|].
    symmetry. apply forallb_forall. intros c Hc%list_elem_of_In.
    rewrite Forall_forall in Ha. apply Z.ltb_lt. by apply Ha. }
  rewrite strip_c_digits by done.
  destruct (chars x) as [|c cs] eqn:E; [done|].
  apply andb_true_iff in Hall as H'. destruct H' as [Hc _].
  assert (read_sign (c :: cs) = (false, c :: cs)) as ->.
  { unfold read_sign.
    destruct (Ascii.eqb_spec c "-") as [->|]; [done|].
    destruct (Ascii.eqb_spec c "+") as [->|]; [done|].
    destruct c as [[] [] [] [] [] [] [] []]; done. }
  rewrite Hc, drop_underscores_digits by done. rewrite Hall.
  by rewrite (proj2 (Z.leb_le _ _) Hlen).
Qed.

Lemma int_if_digit_ascii (x : string) :
  Forall is_ascii (chars x) → Z.of_nat (length (chars x)) ≤ max_str_digits →
  ∃ v, int_if_digit x = Ok v.
Proof.
  intros Ha Hl. unfold int_if_digit. destruct (isdigit x) eqn:E; [|by eexists].
  rewrite int_of_str_digits by done. by eexists.
Qed.

(** The decoded and stripped line has ASCII characters only. *)
Lemma decoded_line_ascii (raw : string) :
  Forall is_ascii (chars (strip (decode_ascii_ignore raw))).
Proof.
  unfold strip, decode_ascii_ignore, rstrip_by. rewrite !chars_of_chars.
  apply Forall_forall. intros c Hc.
  apply list_elem_of_In, in_rev, list_elem_of_In in Hc.
  destruct (lstrip_by_suffix unicode_isspace
              (rev (lstrip_by unicode_isspace
                      (filter (λ c, code c < 128) (chars raw))))) as [p1 E1].
  assert (c ∈ rev (lstrip_by unicode_isspace
                     (filter (λ c, code c < 128) (chars raw)))) as Hc'.
  { rewrite E1. apply elem_of_app. by right. }
  apply list_elem_of_In, in_rev, list_elem_of_In in Hc'.
  destruct (lstrip_by_suffix unicode_isspace
              (filter (λ c, code c < 128) (chars raw))) as [p2 E2].
  assert (c ∈ filter (λ c, code c < 128) (chars raw)) as Hc''.
  { rewrite E2. apply elem_of_app. by right. }
  by apply list_elem_of_filter in Hc'' as [? _].
Qed.

Lemma split_chars_subseteq (sep : ascii) (s f : string) (c : ascii) :
  f ∈ split sep s → c ∈ chars f → c ∈ chars s.
Proof.
  revert f. induction s as [|a s IH]; intros f.
  - simpl. intros ->%list_elem_of_singleton. done.
  - rewrite split_cons_case. destruct (Ascii.eqb a sep).
    + intros [->|Hf]%elem_of_cons; [by intros ?%elem_of_nil|].
      intros Hc. simpl. right. by eapply IH.
    + destruct (split sep s) as [|w ws] eqn:E.
      * intros ->%list_elem_of_singleton. simpl.
        intros [->|?%elem_of_nil]%elem_of_cons; [by left|done].
      * intros [->|Hf]%elem_of_cons.
        -- simpl. intros [->|Hc]%elem_of_cons; [by left|].
           right. apply (IH w); [by left|done].
        -- intros Hc. simpl. right. apply (IH f); [by right|done].
Qed.

Lemma split_length (sep : ascii) (s f : string) :
  f ∈ split sep s → (length (chars f) ≤ length (chars s))%nat.
Proof.
  revert f. induction s as [|a s IH]; intros f.
  - simpl. intros ->%list_elem_of_singleton. done.
  - rewrite split_cons_case. destruct (Ascii.eqb a sep).
    + intros [->|Hf]%elem_of_cons; [simpl; lia|].
      specialize (IH _ Hf). simpl. lia.
    + destruct (split sep s) as [|w ws] eqn:E.
      * intros ->%list_elem_of_singleton. simpl. lia.
      * intros [->|Hf]%elem_of_cons.
        -- specialize (IH w ltac:(by left)). simpl. lia.
        -- specialize (IH f ltac:(by right)). simpl. lia.
Qed.

Lemma lstrip_by_length (p : ascii → bool) (cs : list ascii) :
  (length (lstrip_by p cs) ≤ length cs)%nat.
Proof.
  destruct (lstrip_by_suffix p cs) as [pre E].
  rewrite E at 2. rewrite length_app. lia.
Qed.

(** Decoding and stripping do not make a line longer. *)
Lemma decoded_line_length (raw : string) :
  (length (chars (strip (decode_ascii_ignore raw))) ≤ len raw)%nat.
Proof.
  unfold strip, decode_ascii_ignore, rstrip_by. rewrite !chars_of_chars.
  rewrite length_rev.
  etransitivity; [apply lstrip_by_length|]. rewrite length_rev.
  etransitivity; [apply lstrip_by_length|].
  rewrite len_chars. apply length_filter.
Qed.

Lemma accepted_fields_plain (raw ts : string) (fields : list string) :
  (len raw ≤ 4300)%nat →
  accept (strip (decode_ascii_ignore raw)) = Some (ts, fields) →
  Forall plain_field fields.
Proof.
  intros Hraw (body & hh & (tail & Hline & _) & _ & ->)%accept_frame.
  pose proof (decoded_line_ascii raw) as Ha.
  pose proof (decoded_line_length raw) as Hl.
  rewrite Hline in Ha, Hl.
  apply Forall_cons in Ha as [_ Ha]. apply Forall_app in Ha as [_ Ha].
  apply Forall_cons in Ha as [_ Ha]. apply Forall_app in Ha as [Ha _].
  simpl in Hl. rewrite !length_app in Hl. simpl in Hl.
  rewrite length_app in Hl.
  apply Forall_forall. intros f Hf. split.
  - apply Forall_forall. intros c Hc.
    rewrite Forall_forall in Ha. apply Ha. by eapply split_chars_subseteq.
  - pose proof (split_length _ _ _ Hf). unfold max_str_digits. lia.
Qed.

Lemma item_plain (fields : list string) (i : nat) :
  Forall plain_field fields → plain_field (item fields i).
Proof.
  intros H. unfold item. revert i.
  induction H as [|f fields Hf _ IH]; intros [|i]; simpl; try done;
    try apply IH; by split.
Qed.

Lemma parse_sentence_no_time (now : datetime) (ts : string)
    (fields : list string) :
  Forall plain_field fields →
  last_n 3 ts ∈ ["GSA"; "GSV"; "VTG"] →
  ∃ u, parse_sentence now ts fields = Ok u.
Proof.
  intros Ha Htp. unfold parse_sentence.
  repeat (apply elem_of_cons in Htp as [->|Htp]); [| | |by apply elem_of_nil in Htp];
    simpl.
  - unfold parse_GSA. case_bool_decide; [|by eexists].
    destruct (int_if_digit_ascii (item fields 1)) as [v ->];
      [by apply item_plain..|]. by eexists.
  - unfold parse_GSV. case_bool_decide; [|by eexists].
    destruct (int_if_digit_ascii (item fields 2)) as [v ->];
      [by apply item_plain..|]. simpl.
    destruct v; by eexists.
  - unfold parse_VTG. case_bool_decide; by eexists.
Qed.

(** X14. A line of type GSA, GSV or VTG that the validator accepts never
    makes the decoder raise, whatever its fields are, and merging its
    update into a state of [main] does not raise either: only the
    sentences that carry a time or a position can end the program. (The
    bound on the length of the line is the default limit of [int] on digit
    strings.) *)
Theorem sentences_without_time_never_raise
    (human_status json_line : dict → string)
    (format_percent : string → dict → result string)
    (a : args) (input : list (string * clock))
    (raw : string) (clk : clock) (ts : string) (fields : list string) :
  (len raw ≤ 4300)%nat →
  accept (strip (decode_ascii_ignore raw)) = Some (ts, fields) →
  last_n 3 ts ∈ ["GSA"; "GSV"; "VTG"] →
  (∃ u, parse_sentence (utc_now clk) ts fields = Ok u)
  ∧ ∃ st',
      decode_and_merge clk
        (state (main human_status json_line format_percent a input).1.1)
        ts fields = Ok st'.
Proof.
  intros Hraw Hacc Htp.
  destruct (parse_sentence_no_time (utc_now clk) ts fields) as [u Hu];
    [by eapply accepted_fields_plain|done|].
  split; [by exists u|]. unfold decode_and_merge. rewrite Hu. simpl.
  case_bool_decide; [|by eexists].
  destruct (decoded_well_typed u) as [Hwt Hl]; [by do 3 eexists|].
  destruct (merge_updates_well_typed
              (state (main human_status json_line format_percent a input).1.1)
              u (merge_time clk)) as (st' & -> & _); try done; [|by eexists].
  apply run_well_typed, well_typed_empty.
Qed.

Lemma sentences_without_time_never_raise_witness :
  (∃ u, parse_sentence (utc_now clock_1000) "GPVTG" vtg_fields = Ok u)
  ∧ ∃ st', decode_and_merge clock_1000 ∅ "GPVTG" vtg_fields = Ok st'.
Proof.
  apply (sentences_without_time_never_raise
           (λ _, "fix") (λ _, "{}") (λ _ _, Raise KeyError) partial_args []
           vtg_line clock_1000 "GPVTG" vtg_fields).
  - vm_compute. lia.
  - vm_compute. reflexivity.
  - right; right; left.
Defined.

(** ** Time of day *)

Lemma fractions_all : forallb fractions_ok (map Z.of_nat (seq 0 60)) = true.
Proof. vm_compute. reflexivity. Qed.

Lemma seconds_with_fraction (ss : Z) (frac : string) :
  0 ≤ ss < 60 → fraction frac →
  int_of_float_str (zero_pad 2 ss +:+ frac) = Ok ss.
Proof.
  intros Hs [->|(k & n & Hk & Hn & ->)].
  - destruct (two_digits ss) as (c1 & c2 & -> & _ & H); [lia|].
    by rewrite append_nil_r.
  - pose proof fractions_all as Hall. rewrite forallb_forall in Hall.
    specialize (Hall ss).
    assert (fractions_ok ss = true) as Hok.
    { apply Hall. rewrite <- (Z2Nat.id ss) by lia. apply in_map, in_seq. lia. }
    unfold fractions_ok in Hok. rewrite forallb_forall in Hok.
    specialize (Hok k).
    assert (forallb (fraction_ok ss k) (map Z.of_nat (seq 0 (10 ^ k))) = true)
      as Hk'.
    { apply Hok. simpl. lia. }
    rewrite forallb_forall in Hk'. specialize (Hk' n).
    apply result_is_Ok. apply Hk'.
    rewrite <- (Z2Nat.id n) by lia. apply in_map, in_seq.
    assert (Z.of_nat (10 ^ k) = 10 ^ Z.of_nat k) by (by rewrite Nat2Z.inj_pow).
    lia.
Qed.

Lemma slice_prefix (a b : string) (n : nat) :
  len a = n → slice 0 n (a +:+ b) = a.
Proof.
  intros <-. unfold slice. rewrite chars_app, len_chars.
  rewrite Nat.sub_0_r, drop_0, take_app_length. apply of_chars_chars.
Qed.

Lemma slice_from_app (a b : string) (n : nat) :
  len a = n → slice_from n (a +:+ b) = b.
Proof.
  intros <-. unfold slice_from. rewrite chars_app, len_chars.
  rewrite drop_app_length. apply of_chars_chars.
Qed.

Lemma slice_middle (a b c : string) (i j : nat) :
  len a = i → (i + len b)%nat = j → slice i j (a +:+ b +:+ c) = b.
Proof.
  intros <- <-. unfold slice. rewrite !chars_app, !len_chars.
  rewrite drop_app_length.
  replace (length (chars a) + length (chars b) - length (chars a))%nat
    with (length (chars b)) by lia.
  rewrite take_app_length. apply of_chars_chars.
Qed.

Lemma zero_pad_2_len (n : Z) : 0 ≤ n < 100 → len (zero_pad 2 n) = 2%nat.
Proof.
  intros H. by destruct (two_digits n H) as (c1 & c2 & -> & _).
Qed.

Lemma truthy_zero_pad_2 (n : Z) (s : string) :
  0 ≤ n < 100 → truthy (zero_pad 2 n +:+ s) = true.
Proof. intros H. by destruct (two_digits n H) as (c1 & c2 & -> & _). Qed.

(** The three conversions at the head of [parse_time_date]. *)
Lemma time_fields (hh mi ss : Z) (frac : string) :
  0 ≤ hh < 100 → 0 ≤ mi < 100 → 0 ≤ ss < 60 → fraction frac →
  let t := (zero_pad 2 hh +:+ zero_pad 2 mi +:+ zero_pad 2 ss +:+ frac)%string in
  truthy t = true
  ∧ int_of_str (slice 0 2 t) = Ok hh
  ∧ int_of_str (slice 2 4 t) = Ok mi
  ∧ int_of_float_str (slice_from 4 t) = Ok ss.
Proof.
  intros Hh Hm Hs Hf t. subst t. split; [by apply truthy_zero_pad_2|].
  assert (len (zero_pad 2 hh) = 2%nat) as Lh by (apply zero_pad_2_len; lia).
  assert (len (zero_pad 2 mi) = 2%nat) as Lm by (apply zero_pad_2_len; lia).
  rewrite (slice_prefix _ _ 2 Lh).
  rewrite (slice_middle _ _ _ 2 4 Lh) by (by rewrite Lm).
  rewrite <- (append_assoc (zero_pad 2 hh)).
  rewrite (slice_from_app _ _ 4)
    by (by rewrite len_chars, chars_app, length_app, <- !len_chars, Lh, Lm).
  destruct (two_digits hh Hh) as (? & ? & -> & -> & _).
  destruct (two_digits mi Hm) as (? & ? & -> & -> & _).
  by rewrite seconds_with_fraction.
Qed.

(** X15. The fraction of a second is dropped: a time of day with one to
    three decimals gives what the same time without decimals gives,
    whatever the date field holds. *)
Theorem fraction_of_second_is_dropped (now : datetime) (hh mi ss : Z)
    (frac : string) (date : option string) :
  0 ≤ hh < 100 → 0 ≤ mi < 100 → 0 ≤ ss < 60 → fraction frac →
  parse_time_date now
    (zero_pad 2 hh +:+ zero_pad 2 mi +:+ zero_pad 2 ss +:+ frac) date
  = parse_time_date now
      (zero_pad 2 hh +:+ zero_pad 2 mi +:+ zero_pad 2 ss) date.
Proof.
  intros Hh Hm Hs Hf.
  destruct (time_fields hh mi ss frac Hh Hm Hs Hf) as (T1 & H1 & M1 & S1).
  destruct (time_fields hh mi ss "" Hh Hm Hs (or_introl eq_refl))
    as (T2 & H2 & M2 & S2).
  rewrite append_nil_r in T2, H2, M2, S2.
  unfold parse_time_date. by rewrite T1, T2, H1, H2, M1, M2, S1, S2.
Qed.

Lemma fraction_of_second_is_dropped_witness :
  parse_time_date (mk_datetime 2026 11 4 0 0 0 0) "123519.25" (Some "230394")
  = parse_time_date (mk_datetime 2026 11 4 0 0 0 0) "123519" (Some "230394").
Proof.
  apply (fraction_of_second_is_dropped (mk_datetime 2026 11 4 0 0 0 0)
           12 35 19 ".25" (Some "230394")); try lia.
  right. exists 2%nat, 25. repeat split; try lia. 
Defined.

(** X16. Without a date of six characters the date is the one of the
    clock: the time of day replaces the time of [datetime.now], and the
    microseconds are cleared. *)
Theorem time_without_date_is_today (now : datetime) (hh mi ss : Z)
    (frac : string) (date : option string) :
  0 ≤ hh < 24 → 0 ≤ mi < 60 → 0 ≤ ss < 60 → fraction frac →
  (∀ d, date = Some d → len d ≠ 6%nat) →
  parse_time_date now
    (zero_pad 2 hh +:+ zero_pad 2 mi +:+ zero_pad 2 ss +:+ frac) date
  = Ok (Some (mk_datetime (year now) (month now) (day now) hh mi ss 0)).
Proof.
  intros Hh Hm Hs Hf Hd.
  destruct (time_fields hh mi ss frac) as (T1 & H1 & M1 & S1);
    [lia|lia|lia|done|].
  unfold parse_time_date. rewrite T1, H1, M1, S1. cbn [negb mbind result_bind].
  assert (replace_time now hh mi ss
          = Ok (mk_datetime (year now) (month now) (day now) hh mi ss 0)) as Hr.
  { unfold replace_time. cbn [forallb]. rewrite !c_int_small by lia.
    cbn [andb negb].
    assert (valid_time hh mi ss 0 = true) as ->; [|done].
    unfold valid_time. rewrite !andb_true_iff, !Z.leb_le. lia. }
  destruct date as [d|]; [|by rewrite Hr].
  rewrite (bool_decide_eq_false_2 (len d = 6%nat)) by by apply Hd.
  rewrite andb_false_r. by rewrite Hr.
Qed.

Lemma time_without_date_is_today_witness :
  parse_time_date (mk_datetime 2026 11 4 7 8 9 123456) "123519.00" None
  = Ok (Some (mk_datetime 2026 11 4 12 35 19 0)).
Proof.
  apply (time_without_date_is_today (mk_datetime 2026 11 4 7 8 9 123456)
           12 35 19 ".00" None); try lia.
  - right. exists 2%nat, 0. repeat split; try lia.
  - intros d [=].
Defined.

(** ** Numbers in fixed notation *)

Lemma round_half_even_spec (n d : Z) :
  0 ≤ n → 0 < d →
  0 ≤ round_half_even n d ∧ 2 * Z.abs (round_half_even n d * d - n) ≤ d.
Proof.
  intros Hn Hd. unfold round_half_even.
  pose proof (Z.div_mod n d ltac:(lia)) as Hdm.
  pose proof (Z.mod_pos_bound n d Hd) as Hr.
  assert (0 ≤ n / d) as Hq by (apply Z.div_pos; lia).
  destruct (Z.ltb_spec (2 * (n mod d)) d);
    [|destruct (Z.ltb_spec d (2 * (n mod d))); [|destruct (Z.even (n / d))]];
    split; nia.
Qed.

Lemma digit_val_digit_char (d : Z) : 0 ≤ d < 10 → digit_val (digit_char d) = d.
Proof.
  intros H.
  assert (d = 0 ∨ d = 1 ∨ d = 2 ∨ d = 3 ∨ d = 4 ∨ d = 5 ∨ d = 6 ∨ d = 7
          ∨ d = 8 ∨ d = 9) as Hd by lia.
  repeat destruct Hd as [->|Hd]; try reflexivity. by subst.
Qed.

Lemma digits_val_snoc (l : list ascii) (c : ascii) :
  digits_val (l ++ [c]) = 10 * digits_val l + digit_val c.
Proof. unfold digits_val. by rewrite fold_left_app. Qed.

Lemma dec_rev_spec (fuel w : nat) (n : Z) :
  0 ≤ n → n < 10 ^ Z.of_nat fuel → (w ≤ fuel)%nat → (1 ≤ fuel)%nat →
  digits_val (rev (dec_rev fuel w n)) = n
  ∧ (w ≤ length (dec_rev fuel w n))%nat
  ∧ (1 ≤ length (dec_rev fuel w n))%nat.
Proof.
  revert w n. induction fuel as [|fuel IH]; intros w n Hn Hlt Hw Hf; [lia|].
  simpl. destruct ((n <? 10) && bool_decide (w ≤ 1)%nat) eqn:Hb.
  - apply andb_true_iff in Hb as [Hb Hw1]. apply Z.ltb_lt in Hb.
    apply bool_decide_eq_true_1 in Hw1. simpl.
    unfold digits_val. simpl. rewrite digit_val_digit_char by lia.
    repeat split; lia.
  - assert (10 ≤ n ∨ (2 ≤ w)%nat) as Hcase.
    { apply andb_false_iff in Hb as [Hb|Hb].
      - apply Z.ltb_ge in Hb. by left.
      - apply bool_decide_eq_false_1 in Hb. right. lia. }
    assert (1 ≤ fuel)%nat as Hf'.
    { destruct fuel as [|fuel]; [|lia]. simpl in Hlt. lia. }
    rewrite Nat2Z.inj_succ, Z.pow_succ_r in Hlt by lia.
    destruct (IH (pred w) (n / 10)) as (Hv & Hl & Hl1); try lia.
    { apply Z.div_pos; lia. }
    { apply Z.div_lt_upper_bound; lia. }
    simpl. rewrite digits_val_snoc, Hv.
    rewrite digit_val_digit_char by (apply Z.mod_pos_bound; lia).
    pose proof (Z.div_mod n 10 ltac:(lia)). repeat split; lia.
Qed.

Lemma zero_pad_spec (w : nat) (n : Z) :
  0 ≤ n →
  digits_val (chars (zero_pad w n)) = n
  ∧ (w ≤ length (chars (zero_pad w n)))%nat
  ∧ (1 ≤ length (chars (zero_pad w n)))%nat.
Proof.
  intros Hn. unfold zero_pad. rewrite chars_of_chars, length_rev.
  apply dec_rev_spec; try lia.
  destruct (Z.eq_dec n 0) as [->|Hne].
  - apply Z.pow_pos_nonneg; lia.
  - pose proof (Z.log2_spec n ltac:(lia)) as [_ Hlog].
    pose proof (Z.log2_nonneg n).
    replace (Z.of_nat (w + Z.to_nat (Z.log2 n) + 1))
      with (Z.succ (Z.log2 n) + Z.of_nat w) by lia.
    eapply Z.lt_le_trans; [exact Hlog|].
    rewrite Z.pow_add_r by lia.
    assert (2 ^ Z.succ (Z.log2 n) ≤ 10 ^ Z.succ (Z.log2 n))
      by (apply Z.pow_le_mono_l; lia).
    assert (1 ≤ 10 ^ Z.of_nat w) by (apply Z.lt_pred_le, Z.pow_pos_nonneg; lia).
    nia.
Qed.

(** The text of [N] in fixed notation: digits, a point, [nd] digits. *)
Lemma fixed_digits_spec (nd : nat) (N : Z) :
  0 ≤ N → (0 < nd)%nat →
  ∃ ip fp,
    fixed_digits nd N = (ip +:+ "." +:+ fp)%string
    ∧ len fp = nd ∧ ip ≠ ""
    ∧ Forall (λ c, is_digit c = true) (chars ip ++ chars fp)
    ∧ digits_val (chars ip ++ chars fp) = N.
Proof.
  intros HN Hnd. unfold fixed_digits.
  destruct (zero_pad_spec (S nd) N HN) as (Hv & Hl & _).
  pose proof (zero_pad_digits (S nd) N HN) as Hd.
  destruct nd as [|nd]; [lia|].
  set (ds := chars (zero_pad (S (S nd)) N)) in *.
  exists (drop_last (S nd) (zero_pad (S (S nd)) N)),
         (last_n (S nd) (zero_pad (S (S nd)) N)).
  unfold drop_last, last_n. fold ds. rewrite !chars_of_chars, len_chars,
    chars_of_chars, take_drop.
  repeat split; try done.
  - rewrite length_drop. lia.
  - intros H. apply (f_equal chars) in H. rewrite chars_of_chars in H.
    apply (f_equal length) in H. rewrite length_take in H. simpl in H. lia.
Qed.

(** X17. A finite float in fixed notation with [nd] decimals: a minus sign
    for a negative number (also when it rounds to zero), digits, a point
    and exactly [nd] digits; and the number that is written differs from
    the float by half a unit of the last decimal at most. *)
Theorem fixed_notation_is_correctly_rounded (nd : nat) (x : float)
    (s : bool) (m : positive) (e : Z) :
  Prim2SF x = S754_finite s m e → (0 < nd)%nat →
  ∃ ip fp,
    format_fixed nd x
    = ((if s then "-" else "") +:+ ip +:+ "." +:+ fp)%string
    ∧ len fp = nd ∧ ip ≠ ""
    ∧ Forall (λ c, is_digit c = true) (chars ip ++ chars fp)
    ∧ 2 * Z.abs (digits_val (chars ip ++ chars fp) * 2 ^ Z.max 0 (- e)
                 - Zpos m * 2 ^ Z.max 0 e * 10 ^ Z.of_nat nd)
      ≤ 2 ^ Z.max 0 (- e).
Proof.
  intros Hx Hnd. unfold format_fixed. rewrite Hx.
  destruct (Z.leb_spec 0 e) as [He|He].
  - destruct (fixed_digits_spec nd (Zpos m * 2 ^ e * 10 ^ Z.of_nat nd))
      as (ip & fp & -> & Hl & Hi & Hd & Hv); [|done|].
    { apply Z.mul_nonneg_nonneg; [apply Z.mul_nonneg_nonneg|];
        [lia|apply Z.pow_nonneg; lia|apply Z.pow_nonneg; lia]. }
    exists ip, fp. repeat split; try done. rewrite Hv.
    rewrite (Z.max_l 0 (- e)), (Z.max_r 0 e) by lia.
    replace (_ - _) with 0 by (simpl; lia). simpl. lia.
  - assert (0 < 2 ^ (- e)) as Hp by (apply Z.pow_pos_nonneg; lia).
    assert (0 ≤ Zpos m * 10 ^ Z.of_nat nd) as Hn
      by (apply Z.mul_nonneg_nonneg; [lia|apply Z.pow_nonneg; lia]).
    destruct (round_half_even_spec _ _ Hn Hp) as [HN Hr].
    destruct (fixed_digits_spec nd _ HN Hnd)
      as (ip & fp & -> & Hl & Hi & Hd & Hv).
    exists ip, fp. repeat split; try done. rewrite Hv.
    rewrite (Z.max_r 0 (- e)), (Z.max_l 0 e) by lia.
    replace (Zpos m * 2 ^ 0 * 10 ^ Z.of_nat nd)
      with (Zpos m * 10 ^ Z.of_nat nd) by (simpl; lia).
    exact Hr.
Qed.

Lemma fixed_notation_is_correctly_rounded_witness :
  ∃ ip fp,
    format_fixed 6 48.117299999999993%float
    = ("" +:+ ip +:+ "." +:+ fp)%string
    ∧ len fp = 6%nat ∧ ip ≠ ""
    ∧ Forall (λ c, is_digit c = true) (chars ip ++ chars fp)
    ∧ 2 * Z.abs (digits_val (chars ip ++ chars fp) * 2 ^ Z.max 0 (- (-47))
                 - 6771907948439823 * 2 ^ Z.max 0 (-47) * 10 ^ Z.of_nat 6)
      ≤ 2 ^ Z.max 0 (- (-47)).
Proof.
  apply (fixed_notation_is_correctly_rounded 6 48.117299999999993%float
           false 6771907948439823 (-47)).
  - vm_compute. reflexivity.
  - lia.
Defined.

(** ** The keys of each sentence type *)

Ltac in_list := refine (bool_decide_eq_true_1 _ _); reflexivity.

(** Opens the conditional writes of a decoder branch. *)
Ltac unchain :=
  repeat match goal with
  | |- context [set_utc_time ?t _] => destruct t; cbn [set_utc_time]
  | |- context [set_if_some _ ?o _] => destruct o; cbn [set_if_some]
  | |- context [if ?b then _ else _] => destruct b
  | |- context [match ?o with Some _ => _ | None => _ end] => destruct o
  end.

Ltac keys_present :=
  intros k Hk; unchain;
  repeat (apply elem_of_cons in Hk as [->|Hk];
          [by simplify_map_eq|]);
  by apply elem_of_nil in Hk.

Ltac keys_bounded :=
  intros k [v Hv]; revert Hv; unchain; intros Hv;
  repeat (apply lookup_insert_Some in Hv as [[<- _]|[_ Hv]]; [in_list|]);
  by rewrite lookup_empty in Hv.

Lemma parse_sentence_keys (now : datetime) (ts : string)
    (fields : list string) (u : dict) :
  parse_sentence now ts fields = Ok u →
  ((min_fields (last_n 3 ts) ≤ length fields)%nat →
   ∀ k, k ∈ always_keys (last_n 3 ts) → is_Some (u !! k))
  ∧ ∀ k, is_Some (u !! k) →
      k ∈ always_keys (last_n 3 ts) ++ maybe_keys (last_n 3 ts).
Proof.
  unfold parse_sentence, min_fields, always_keys, maybe_keys. intros H.
  generalize dependent (last_n 3 ts). intros tp H.
  repeat match type of H with
  | (if String.eqb ?a ?b then _ else _) = Ok _ =>
      revert H; destruct (String.eqb_spec a b) as [->|?]; intros H
  end; simpl.
  - unfold parse_RMC in H. case_bool_decide.
    + bind_ok H; (split; [intros _; keys_present|keys_bounded]).
    + injection H as <-. split; [lia|]. by intros k [v Hv].
  - unfold parse_GGA in H. case_bool_decide.
    + bind_ok H; (split; [intros _; keys_present|keys_bounded]).
    + injection H as <-. split; [lia|]. by intros k [v Hv].
  - unfold parse_GNS in H. case_bool_decide.
    + bind_ok H; (split; [intros _; keys_present|keys_bounded]).
    + injection H as <-. split; [lia|]. by intros k [v Hv].
  - unfold parse_GSA in H. case_bool_decide.
    + bind_ok H; (split; [intros _; keys_present|keys_bounded]).
    + injection H as <-. split; [lia|]. by intros k [v Hv].
  - split; [by intros _ k ?%elem_of_nil|].
    unfold parse_GSV in H. case_bool_decide.
    + bind_ok H; try by intros k [v Hv].
      unfold set_gsv_entry in *. rewrite lookup_empty in *. simpl in *.
      match goal with Hs : Ok _ = Ok _ |- _ => injection Hs as <- end.
      keys_bounded.
    + injection H as <-. by intros k [v Hv].
  - unfold parse_VTG in H. case_bool_decide.
    + bind_ok H; (split; [intros _; keys_present|keys_bounded]).
    + injection H as <-. split; [lia|]. by intros k [v Hv].
  - unfold parse_GST in H. case_bool_decide.
    + destruct (truthy (item fields 0)); simpl in H; bind_ok H;
        try (match goal with Hr : _ ≫= _ = Ok _ |- _ => bind_ok Hr end);
        (split; [intros _; keys_present|keys_bounded]).
    + injection H as <-. split; [lia|]. by intros k [v Hv].
  - injection H as <-. split; [by intros _ k ?%elem_of_nil|].
    by intros k [v Hv].
Qed.

(** X18. Each sentence type writes its own keys and no others: with
    enough fields, every key of the first list is written (with [None]
    when its field does not parse), and a key outside the two lists is
    never written. So GSA and GST never touch the position, and GSV
    writes nothing but the table of the constellations. *)
Theorem sentence_type_keys (now : datetime) (ts : string)
    (fields : list string) (u : dict) :
  parse_sentence now ts fields = Ok u →
  ((min_fields (last_n 3 ts) ≤ length fields)%nat →
   ∀ k, k ∈ always_keys (last_n 3 ts) → is_Some (u !! k))
  ∧ ∀ k, is_Some (u !! k) →
      k ∈ always_keys (last_n 3 ts) ++ maybe_keys (last_n 3 ts).
Proof. apply parse_sentence_keys. Qed.

Lemma sentence_type_keys_witness :
  ((min_fields "RMC" ≤ length rmc_fields)%nat →
   ∀ k, k ∈ always_keys "RMC" → is_Some (rmc_update !! k))
  ∧ ∀ k, is_Some (rmc_update !! k) →
      k ∈ always_keys "RMC" ++ maybe_keys "RMC".
Proof.
  assert (H : parse_sentence (mk_datetime 2026 11 4 0 0 0 0) "GPRMC" rmc_fields
              = Ok rmc_update) by (vm_compute; reflexivity).
  exact (sentence_type_keys _ _ _ _ H).
Defined.

(** ** The two speeds *)

Ltac speeds :=
  unchain; unfold speeds_agree; simplify_map_eq; by auto.

Lemma parse_sentence_speeds (now : datetime) (ts : string)
    (fields : list string) (u : dict) :
  parse_sentence now ts fields = Ok u → speeds_agree u.
Proof.
  unfold parse_sentence. intros H.
  repeat match type of H with
  | (if ?b then _ else _) = Ok _ => destruct b eqn:?
  end.
  - unfold parse_RMC in H. bind_ok H; speeds.
  - unfold parse_GGA in H. bind_ok H; speeds.
  - unfold parse_GNS in H. bind_ok H; speeds.
  - unfold parse_GSA in H. bind_ok H; speeds.
  - unfold parse_GSV in H. bind_ok H; try (by speeds).
    unfold set_gsv_entry in H. rewrite lookup_empty in H. simpl in H.
    injection H as <-. unfold speeds_agree. by simplify_map_eq.
  - unfold parse_VTG in H. bind_ok H; speeds.
  - unfold parse_GST in H.
    destruct (bool_decide (5 ≤ length fields)%nat); [|injection H as <-; speeds].
    destruct (truthy (item fields 0)); simpl in H; bind_ok H;
      try (match goal with Hr : _ ≫= _ = Ok _ |- _ => bind_ok Hr end); speeds.
  - injection H as <-. speeds.
Qed.

Lemma decode_and_merge_speeds (clk : clock) (st st' : dict) (ts : string)
    (fields : list string) :
  well_typed st ∧ speeds_agree st →
  decode_and_merge clk st ts fields = Ok st' →
  well_typed st' ∧ speeds_agree st'.
Proof.
  intros [Hst Hs] H. split; [by eapply decode_and_merge_well_typed|].
  revert H. unfold decode_and_merge.
  destruct (parse_sentence (utc_now clk) ts fields) as [u|] eqn:Hu;
    simpl; [|done].
  case_bool_decide; [|by intros [= <-]].
  destruct (merge_updates_decoded st u (merge_time clk)
              (well_typed_gsv_ok _ Hst) (parse_sentence_entries _ _ _ _ Hu))
    as (st'' & Hm & _ & Hlast & Hkeep & Hnew & Hgsv).
  rewrite Hm. intros [= <-].
  pose proof (parse_sentence_speeds _ _ _ _ Hu) as Hus.
  unfold speeds_agree in *.
  destruct (u !! "speed_mps") as [m|] eqn:Hm1,
           (u !! "speed_kmh") as [k|] eqn:Hk1; try done.
  - rewrite (Hnew "speed_mps" m), (Hnew "speed_kmh" k) by done. exact Hus.
  - by destruct m.
  - rewrite (Hkeep "speed_mps"), (Hkeep "speed_kmh") by done. exact Hs.
Qed.

Section StateInvariant.

Variable human_status : dict → string.

Variable json_line : dict → string.

Variable format_percent : string → dict → result string.

Variable P : dict → Prop.
Hypothesis P_step :
  ∀ clk st ts fields st',
    P st → decode_and_merge clk st ts fields = Ok st' → P st'.

Lemma body_invariant (a : args) (l l' : loop) (raw : string) (clk : clock) :
  P (state l) →
  outcome_loop (body human_status json_line format_percent a l raw clk)
  = Some l' →
  P (state l').
Proof.
  intros Hst. unfold body.
  destruct (args_once a); unfold loop_body, loop_body_once;
    (destruct (accept _) as [[ts fields]|]; [|by intros [= <-]]);
    (destruct (decode_and_merge _ _ _ _) as [st|] eqn:Hd; [|done]);
    pose proof (P_step _ _ _ _ _ Hst Hd);
    repeat match goal with
    | |- outcome_loop (if ?b then _ else _) = _ → _ => destruct b
    | |- outcome_loop (match ?b with _ => _ end) = _ → _ => destruct b
    end; simpl; intros [= <-]; done.
Qed.

Lemma run_invariant (a : args) (l : loop) (input : list (string * clock)) :
  P (state l) →
  P (state (run human_status json_line format_percent a l input).1.1).
Proof.
  revert l. induction input as [|[raw clk] input IH]; intros l Hl; simpl;
    [done|].
  destruct (body _ _ _ a l raw clk) as [l' evs|l' evs|e evs] eqn:Hb.
  - specialize (IH l'). destruct (run _ _ _ a l' input) as [[l'' evs'] st].
    simpl in *. apply IH. eapply body_invariant; [done|]. by rewrite Hb.
  - simpl. eapply body_invariant; [done|]. by rewrite Hb.
  - done.
Qed.

End StateInvariant.

(** X19. In every state that [main] reaches, the speed in metres per
    second and the speed in kilometres per hour are both there or both
    missing, and they are the pair of one sentence: the second is 3.6
    times the first, or the first is the second divided by 3.6. *)
Theorem speeds_come_in_pairs
    (human_status json_line : dict → string)
    (format_percent : string → dict → result string)
    (a : args) (input : list (string * clock)) :
  speeds_agree
    (state (main human_status json_line format_percent a input).1.1).
Proof.
  apply (run_invariant human_status json_line format_percent
           (λ st, well_typed st ∧ speeds_agree st)).
  - intros clk st ts fields st'. apply decode_and_merge_speeds.
  - split; [apply well_typed_empty|]. simpl. unfold speeds_agree.
    by rewrite !lookup_empty.
Qed.

(** ** Whole minutes *)

Lemma forallb_Z_range (f : Z → bool) (n : nat) (z : Z) :
  forallb f (map Z.of_nat (seq 0 n)) = true → 0 ≤ z < Z.of_nat n →
  f z = true.
Proof.
  intros H Hz. rewrite forallb_forall in H. apply H.
  rewrite <- (Z2Nat.id z) by lia. apply in_map, in_seq. lia.
Qed.

Lemma whole_minutes_lat :
  forallb (λ dd, forallb (whole_minutes_ok 2 dd) (map Z.of_nat (seq 0 60)))
    (map Z.of_nat (seq 0 91)) = true.
Proof. vm_compute. reflexivity. Qed.

Lemma whole_minutes_lon :
  forallb (λ dd, forallb (whole_minutes_ok 3 dd) (map Z.of_nat (seq 0 60)))
    (map Z.of_nat (seq 0 181)) = true.
Proof. vm_compute. reflexivity. Qed.

Lemma same_float_eq (x y : float) : same_float x y = true → x = y.
Proof.
  unfold same_float. intros H.
  rewrite <- (SF2Prim_Prim2SF x), <- (SF2Prim_Prim2SF y). f_equal.
  destruct (Prim2SF x) as [s|s| |s m e], (Prim2SF y) as [s'|s'| |s' m' e'];
    try done.
  - apply Bool.eqb_prop in H. by subst.
  - apply Bool.eqb_prop in H. by subst.
  - apply andb_true_iff in H as [[H1 H2]%andb_true_iff H3].
    apply Bool.eqb_prop in H1. apply Pos.eqb_eq in H2. apply Z.eqb_eq in H3.
    by subst.
Qed.

Lemma dm_to_deg_hemisphere (dm hemi : string) (x : float) :
  dm_to_deg dm "N" = Ok (Some x) → dm_to_deg dm hemi = Ok (Some (signed hemi x)).
Proof.
  unfold dm_to_deg, signed.
  destruct (negb (truthy dm) || String.eqb dm ""); [done|].
  destruct (float_of_str dm) as [val|]; [|done].
  destruct (float_floordiv val 100) as [q|]; simpl; [|done].
  destruct (int_of_float q) as [deg|]; simpl; [|done].
  destruct (float_of_int (deg * 100)) as [d100|]; simpl; [|done].
  destruct (float_of_int deg) as [degf|]; simpl; [|done].
  change (String.eqb "N" "S" || String.eqb "N" "W") with false.
  cbn match. intros H.
  assert ((degf + (val - d100) / 60)%float = x) as -> by congruence.
  done.
Qed.

(** X20. Degrees and whole minutes, as latitude ([ddmm], up to 90 degrees)
    or longitude ([dddmm], up to 180 degrees): the result is the degrees
    plus the minutes over sixty, computed in floats with no other
    rounding, and negated for [S] and [W] only. *)
Theorem whole_minutes_are_exact (w : nat) (dd mm : Z) (hemi : string) :
  (w = 2%nat ∧ 0 ≤ dd ≤ 90) ∨ (w = 3%nat ∧ 0 ≤ dd ≤ 180) → 0 ≤ mm < 60 →
  dm_to_deg (zero_pad w dd +:+ zero_pad 2 mm) hemi
  = Ok (Some (signed hemi (of_int dd + of_int mm / 60)%float)).
Proof.
  intros Hd Hm. apply dm_to_deg_hemisphere.
  assert (whole_minutes_ok w dd mm = true) as Hok.
  { destruct Hd as [[-> Hd]|[-> Hd]].
    - pose proof (forallb_Z_range _ 91 dd whole_minutes_lat ltac:(lia)) as H.
      exact (forallb_Z_range _ 60 mm H ltac:(lia)).
    - pose proof (forallb_Z_range _ 181 dd whole_minutes_lon ltac:(lia)) as H.
      exact (forallb_Z_range _ 60 mm H ltac:(lia)). }
  unfold whole_minutes_ok in Hok.
  destruct (dm_to_deg (zero_pad w dd +:+ zero_pad 2 mm) "N") as [[x|]|];
    [|discriminate Hok..].
  apply same_float_eq in Hok. rewrite Hok. reflexivity.
Qed.

Lemma whole_minutes_are_exact_witness :
  dm_to_deg "01130" "W"
  = Ok (Some (signed "W" (of_int 11 + of_int 30 / 60)%float)).
Proof.
  apply (whole_minutes_are_exact 3 11 30 "W"); [right|]; lia.
Defined.

(** ** The constellations in the status line *)

Lemma insert_sorted_perm (x : string) (l : list string) :
  insert_sorted x l ≡ₚ x :: l.
Proof.
  induction l as [|y l IH]; simpl; [done|].
  destruct (String.leb x y); [done|]. rewrite IH. apply Permutation_swap.
Qed.

Lemma sorted_perm (l : list string) : sorted l ≡ₚ l.
Proof.
  induction l as [|x l IH]; simpl; [done|].
  unfold sorted in *. simpl. by rewrite insert_sorted_perm, IH.
Qed.

Lemma insert_sorted_hd (x y : string) (l : list string) :
  str_le y x → HdRel str_le y l → HdRel str_le y (insert_sorted x l).
Proof.
  intros Hyx Hl. destruct l as [|z l]; simpl; [by constructor|].
  destruct (String.leb x z); constructor; [done|].
  by apply HdRel_inv in Hl.
Qed.

Lemma insert_sorted_sorted (x : string) (l : list string) :
  Sorted str_le l → Sorted str_le (insert_sorted x l).
Proof.
  induction 1 as [|y l Hs IH Hhd]; simpl; [by repeat constructor|].
  destruct (String.leb x y) eqn:E.
  - constructor; [by constructor|]. by constructor.
  - constructor; [done|]. apply insert_sorted_hd; [|done].
    unfold str_le. destruct (String.leb_total x y) as [H|H]; [congruence|done].
Qed.

Lemma sorted_sorted (l : list string) : Sorted str_le (sorted l).
Proof.
  induction l as [|x l IH]; [constructor|].
  unfold sorted in *. simpl. by apply insert_sorted_sorted.
Qed.

Lemma map_fmap {A B : Type} (f : A → B) (l : list A) : map f l = f <$> l.
Proof. induction l as [|x l IH]; simpl; [done|]. by rewrite IH. Qed.

(** X21. The summary of the constellations: nothing without a table or
    with an empty one; otherwise one entry [sys:n] for each constellation
    of the table, each once, in ascending order of the talker ids. *)
Theorem constellations_in_order (st : dict) (g : gmap string (gmap string Z)) :
  (st !! "gsv" = None ∨ st !! "gsv" = Some (VGsv ∅) → gsv_part st = Some [])
  ∧ (st !! "gsv" = Some (VGsv g) → g ≠ ∅ →
     ∃ ks,
       gsv_part st
       = Some ["in_view["
               +:+ join "," (map (λ sys, sys +:+ ":"
                                   +:+ in_view_text (default ∅ (g !! sys))) ks)
               +:+ "]"]
       ∧ Sorted str_le ks ∧ NoDup ks
       ∧ ∀ sys, sys ∈ ks ↔ is_Some (g !! sys)).
Proof.
  unfold gsv_part, state_get. split.
  - intros [-> | ->]; simpl; [done|]. by rewrite bool_decide_eq_false_2 by auto.
  - intros -> Hg. simpl. rewrite bool_decide_eq_true_2 by done.
    exists (sorted (map fst (map_to_list g))). split; [done|].
    split; [apply sorted_sorted|]. split.
    + rewrite sorted_perm, map_fmap. apply NoDup_fst_map_to_list.
    + intros sys. rewrite sorted_perm, map_fmap, list_elem_of_fmap. split.
      * intros ([k v] & -> & Hin%elem_of_map_to_list). by eexists.
      * intros [v Hv]. exists (sys, v). split; [done|].
        by apply elem_of_map_to_list.
Qed.

(** ** The frames that [main] accepts *)

Lemma lstrip_by_head (p : ascii → bool) (cs r : list ascii) (c : ascii) :
  lstrip_by p cs = c :: r → p c = false.
Proof.
  induction cs as [|a cs IH]; simpl; [done|].
  destruct (p a) eqn:E; [done|]. by intros [= <- _].
Qed.

Lemma strip_last (s : string) (l : list ascii) (c : ascii) :
  chars (strip s) = l ++ [c] → unicode_isspace c = false.
Proof.
  unfold strip, rstrip_by. rewrite chars_of_chars. intros H.
  apply (f_equal (@rev ascii)) in H.
  rewrite rev_involutive, rev_app_distr in H. simpl in H.
  by apply lstrip_by_head in H.
Qed.

Lemma line_end_last (tail : list ascii) :
  line_end tail → tail = [] ∨ ∃ l c, tail = l ++ [c] ∧ unicode_isspace c = true.
Proof.
  unfold line_end, CR, LF.
  intros [->|[->|[->|[->|[->| ->]]]]]; [by left|right..].
  - by exists [], "013"%char.
  - by exists [], "010"%char.
  - by exists ["013"%char], "010"%char.
  - by exists ["010"%char], "010"%char.
  - by exists ["013"%char; "010"%char], "010"%char.
Qed.

(** X22. What [main] accepts, seen from the line it reads: after decoding
    and stripping, the line is exactly a dollar sign, the talker and
    sentence code, a comma, the body, a star and the checksum of code,
    comma and body in upper-case hexadecimal, with nothing behind it; the
    line end that the pattern allows for is never there. *)
Theorem main_accepts_bare_frames (raw ts : string) (fields : list string) :
  let s := strip (decode_ascii_ignore raw) in
  accept s = Some (ts, fields) ↔
  ∃ body,
    s = ("$" +:+ ts +:+ "," +:+ body +:+ "*"
         +:+ nmea_checksum (ts +:+ "," +:+ body))%string
    ∧ talker_sentence (chars ts)
    ∧ Forall (λ a, not_newline a = true) (chars body)
    ∧ fields = split "," body.
Proof.
  intros s. rewrite accept_frame. split.
  - intros (body & hh & (tail & Hs & Hts & Hb & Hl & Hh & He) & -> & ->).
    exists body. repeat split; try done.
    apply line_end_last in He as [->|(l & c & -> & Hc)].
    + apply chars_inj. rewrite Hs, !chars_app, app_nil_r. reflexivity.
    + exfalso. rewrite !app_comm_cons, !(assoc_L (++)) in Hs.
      apply strip_last in Hs. congruence.
  - intros (body & Hs & Hts & Hb & ->).
    exists body, (nmea_checksum (ts +:+ "," +:+ body)).
    split; [|done]. exists []. rewrite Hs, !chars_app, app_nil_r.
    destruct (nmea_checksum_hex (ts +:+ "," +:+ body))
      as (a & b & -> & Ha & Hb' & _).
    repeat split; try done; [|by left].
    by repeat constructor.
Qed.

(** ** Exceptions *)

Lemma merge_item_gsv (v : value) (st : dict) :
  merge_item "gsv" v st
  = match v with
    | VGsv d =>
        match default (VGsv ∅) (st !! "gsv") with
        | VGsv g => Ok (<["gsv" := VGsv (update_gsv g d)]> st)
        | _ => if bool_decide (d = ∅) then Ok st else Raise TypeError
        end
    | _ => Raise AttributeError
    end.
Proof. done. Qed.

Lemma merge_item_gsv_raises (v : value) (st : dict) (e : exn) :
  merge_item "gsv" v st = Raise e ↔
  (¬ is_gsv v ∧ e = AttributeError)
  ∨ (∃ d w, v = VGsv d ∧ d ≠ ∅ ∧ st !! "gsv" = Some w ∧ ¬ is_gsv w
       ∧ e = TypeError).
Proof.
  rewrite merge_item_gsv. unfold is_gsv.
  destruct v as [| | | | |d].
  1-5: split;
    [intros [= <-]; left; split; [by intros [? [=]]|done]
    |intros [[_ ->]|(? & ? & [=] & _)]; done].
  destruct (st !! "gsv") as [w|] eqn:Hs; simpl.
  - destruct w as [| | | | |g].
    1-5: case_bool_decide as Hd; simpl;
      (split;
       [first [done|intros [= <-]; right; eexists _, _;
        split; [done|]; split; [done|]; split; [done|];
        split; [by intros [? [=]]|done]]
       |intros [[Hn _]|(? & ? & [= <-] & Hne & _ & _ & ->)];
        [by destruct Hn; eexists|done]]).
    split; [done|].
    intros [[Hn _]|(? & ? & _ & _ & [= <-] & Hn & _)];
      destruct Hn; by eexists.
  - split; [done|].
    intros [[Hn _]|(? & ? & _ & _ & [=] & _)]. destruct Hn; by eexists.
Qed.

(** X23. When the merger raises: [AttributeError] when the update holds
    under [gsv] something that is no dict, [TypeError] when it holds a
    non-empty dict there and the state holds under [gsv] something that is
    no dict; and in no other case. *)
Theorem merge_updates_raises (st u : dict) (now : float) (e : exn) :
  merge_updates st u now = Raise e ↔
  (∃ v, u !! "gsv" = Some v ∧ ¬ is_gsv v ∧ e = AttributeError)
  ∨ (∃ d w, u !! "gsv" = Some (VGsv d) ∧ d ≠ ∅
       ∧ st !! "gsv" = Some w ∧ ¬ is_gsv w ∧ e = TypeError).
Proof.
  unfold merge_updates. rewrite merge_loop_spec.
  destruct (u !! "gsv") as [v|] eqn:Hu; simpl.
  - transitivity (merge_item "gsv" v st = Raise e).
    + destruct (merge_item "gsv" v st); simpl; done.
    + rewrite merge_item_gsv_raises. split.
      * intros [[Hn ->]|(d & w & -> & Hd & Hs & Hw & ->)];
          [left; by exists v|right; by exists d, w].
      * intros [(v' & [= <-] & Hn & ->)|(d & w & [= ->] & Hd & Hs & Hw & ->)];
          [by left|right; by exists d, w].
  - split; [done|]. intros [(? & [=] & _)|(? & ? & [=] & _)].
Qed.

Lemma int_of_str_raises (s : string) (e : exn) :
  int_of_str s = Raise e → e = ValueError.
Proof.
  unfold int_of_str.
  destruct (read_sign _) as [neg body].
  repeat match goal with
  | |- match ?x with _ => _ end = _ → _ => destruct x
  | |- (if ?x then _ else _) = _ → _ => destruct x
  end; by intros [= <-].
Qed.

Lemma int_of_float_raises (x : float) (e : exn) :
  int_of_float x = Raise e → value_or_overflow e.
Proof.
  unfold int_of_float, value_or_overflow.
  destruct (Prim2SF x); intros [= <-]; auto.
Qed.

Lemma int_of_float_str_raises (s : string) (e : exn) :
  int_of_float_str s = Raise e → value_or_overflow e.
Proof.
  unfold int_of_float_str. destruct (float_of_str s).
  - apply int_of_float_raises.
  - intros [= <-]. by left.
Qed.

Lemma float_of_int_raises (z : Z) (e : exn) :
  float_of_int z = Raise e → e = OverflowError.
Proof.
  unfold float_of_int. destruct (binary_normalize _ _ _ _ _); by intros [= <-].
Qed.

Lemma make_raises (y mo d hh mm ss : Z) (e : exn) :
  DateTime.make y mo d hh mm ss = Raise e → value_or_overflow e.
Proof.
  unfold DateTime.make, value_or_overflow.
  repeat match goal with
  | |- (if ?x then _ else _) = _ → _ => destruct x
  end; intros [= <-]; auto.
Qed.

Lemma replace_time_raises (now : datetime) (hh mm ss : Z) (e : exn) :
  replace_time now hh mm ss = Raise e → value_or_overflow e.
Proof.
  unfold replace_time, value_or_overflow.
  repeat match goal with
  | |- (if ?x then _ else _) = _ → _ => destruct x
  end; intros [= <-]; auto.
Qed.

(** Splits a failed sequence of conversions at the one that failed. *)
Ltac bind_raise H :=
  repeat match type of H with
  | (?m ≫= _) = Raise _ =>
      let E := fresh "E" in destruct m eqn:E; simpl in H
  | (_ <$> ?m) = Raise _ =>
      let E := fresh "E" in destruct m eqn:E; simpl in H
  | (if ?b then _ else _) = Raise _ => destruct b eqn:?
  | match ?m with _ => _ end = Raise _ => destruct m eqn:?
  | Ok _ = Raise _ => discriminate H
  | Raise _ = Raise _ => injection H as <-
  end.

Ltac raised :=
  first
    [ by left
    | by right
    | match goal with
      | E : int_of_str _ = Raise _ |- _ =>
          apply int_of_str_raises in E as ->; by left
      | E : int_of_float_str _ = Raise _ |- _ =>
          by apply int_of_float_str_raises in E
      | E : int_of_float _ = Raise _ |- _ => by apply int_of_float_raises in E
      | E : float_of_int _ = Raise _ |- _ =>
          apply float_of_int_raises in E as ->; by right
      | E : DateTime.make _ _ _ _ _ _ = Raise _ |- _ =>
          by apply make_raises in E
      | E : replace_time _ _ _ _ = Raise _ |- _ =>
          by apply replace_time_raises in E
      end ].

Lemma parse_time_date_raises (now : datetime) (t : string)
    (d : option string) (e : exn) :
  parse_time_date now t d = Raise e → value_or_overflow e.
Proof.
  unfold parse_time_date. intros H. bind_raise H; raised.
Qed.

Lemma float_floordiv_100 (x : float) : ∃ q, float_floordiv x 100 = Ok q.
Proof.
  unfold float_floordiv. change (100 =? 0)%float with false. cbn match.
  destruct (negb _); by eexists.
Qed.

Lemma dm_to_deg_raises (dm hemi : string) (e : exn) :
  dm_to_deg dm hemi = Raise e → value_or_overflow e.
Proof.
  unfold dm_to_deg. intros H.
  destruct (negb (truthy dm) || String.eqb dm ""); [done|].
  destruct (float_of_str dm) as [val|]; [|done].
  destruct (float_floordiv_100 val) as [q Hq]. rewrite Hq in H. simpl in H.
  bind_raise H; raised.
Qed.

Lemma int_if_digit_raises (x : string) (e : exn) :
  int_if_digit x = Raise e → e = ValueError.
Proof.
  unfold int_if_digit. destruct (isdigit x); [|done].
  destruct (int_of_str x) eqn:E; simpl; [done|]. intros [= <-].
  by apply int_of_str_raises in E.
Qed.

Ltac raised_field :=
  first
    [ raised
    | match goal with
      | E : parse_time_date _ _ _ = Raise _ |- _ =>
          by apply parse_time_date_raises in E
      | E : dm_to_deg _ _ = Raise _ |- _ => by apply dm_to_deg_raises in E
      | E : int_if_digit _ = Raise _ |- _ =>
          apply int_if_digit_raises in E as ->; by left
      end ].

Lemma parse_sentence_raises (now : datetime) (ts : string)
    (fields : list string) (e : exn) :
  parse_sentence now ts fields = Raise e → value_or_overflow e.
Proof.
  unfold parse_sentence. intros H.
  repeat match type of H with
  | (if String.eqb ?a ?b then _ else _) = Raise _ =>
      destruct (String.eqb a b) eqn:?
  end.
  - unfold parse_RMC in H. bind_raise H; raised_field.
  - unfold parse_GGA in H. bind_raise H; raised_field.
  - unfold parse_GNS in H. bind_raise H; raised_field.
  - unfold parse_GSA in H. bind_raise H; raised_field.
  - unfold parse_GSV in H. bind_raise H; try raised_field.
    all: unfold set_gsv_entry in H; rewrite lookup_empty in H; done.
  - unfold parse_VTG in H. bind_raise H; raised_field.
  - unfold parse_GST in H. bind_raise H;
      try (match goal with
           | E : (if _ then _ else _) = Raise _ |- _ => bind_raise E
           end); raised_field.
  - done.
Qed.

Lemma decode_and_merge_raises (clk : clock) (st : dict) (ts : string)
    (fields : list string) (e : exn) :
  well_typed st → decode_and_merge clk st ts fields = Raise e →
  value_or_overflow e.
Proof.
  intros Hst. unfold decode_and_merge.
  destruct (parse_sentence (utc_now clk) ts fields) as [u|e'] eqn:Hu; simpl.
  - case_bool_decide; [|done].
    destruct (decoded_well_typed u) as [Hwt Hl]; [by do 3 eexists|].
    destruct (merge_updates_well_typed st u (merge_time clk) Hst Hwt Hl)
      as (st' & -> & _). done.
  - intros [= <-]. by eapply parse_sentence_raises.
Qed.

Section Crash.

Variable human_status : dict → string.

Variable json_line : dict → string.

Variable format_percent : string → dict → result string.

Lemma body_crash (a : args) (l : loop) (raw : string) (clk : clock)
    (e : exn) (evs : list event) :
  well_typed (state l) → format_given a = None →
  body human_status json_line format_percent a l raw clk = Crash e evs →
  value_or_overflow e.
Proof.
  intros Hst Hf. unfold body.
  destruct (args_once a); unfold loop_body, loop_body_once, render;
    rewrite Hf;
    (destruct (accept _) as [[ts fields]|]; [|done]);
    (destruct (decode_and_merge _ _ _ _) as [st|e'] eqn:Hd;
       [|intros [= <- _]; by eapply decode_and_merge_raises]);
    cbn;
    repeat match goal with
    | |- match (if ?c then _ else _) with _ => _ end = _ → _ =>
        destruct c; cbn
    | |- (if ?b then _ else _) = _ → _ => destruct b; cbn
    | |- match ?b with _ => _ end = _ → _ => destruct b; cbn
    end; done.
Qed.

Lemma run_crash (a : args) (l : loop) (input : list (string * clock))
    (e : exn) :
  well_typed (state l) → format_given a = None →
  (run human_status json_line format_percent a l input).2 = Crashed e →
  value_or_overflow e.
Proof.
  intros Hl Hf. revert l Hl.
  induction input as [|[raw clk] input IH]; intros l Hl; simpl; [done|].
  destruct (body _ _ _ a l raw clk) as [l' evs|l' evs|e' evs] eqn:Hb.
  - specialize (IH l'). destruct (run _ _ _ a l' input) as [[l'' evs'] st].
    simpl in *. apply IH. eapply body_well_typed; [done|]. by rewrite Hb.
  - done.
  - simpl. intros [= <-]. by eapply body_crash.
Qed.

End Crash.

(** X24. The exceptions that leave the decoder are [ValueError] and
    [OverflowError] and no others, whatever the fields are; and when no
    custom format is given (or an empty one) these are the only
    exceptions that end
    [main]: the merger never raises on the states that [main] builds. *)
Theorem only_value_and_overflow_errors
    (human_status json_line : dict → string)
    (format_percent : string → dict → result string)
    (a : args) (input : list (string * clock)) (e : exn) :
  (∀ now ts fields, parse_sentence now ts fields = Raise e →
     e = ValueError ∨ e = OverflowError)
  ∧ (format_given a = None →
     (main human_status json_line format_percent a input).2 = Crashed e →
     e = ValueError ∨ e = OverflowError).
Proof.
  split.
  - intros now ts fields. apply parse_sentence_raises.
  - intros Hf. apply run_crash; [apply well_typed_empty|done].
Qed.

(** ** One corrupted character *)

Lemma hex_not_space (h : ascii) :
  is_0_9_A_F h = true → unicode_isspace h = false ∧ is_ascii h.
Proof.
  unfold is_0_9_A_F, in_range, unicode_isspace, c_isspace, is_ascii.
  change (code "0") with 48. change (code "9") with 57.
  change (code "A") with 65. change (code "F") with 70.
  intros H. split; [|lia]. 
  repeat match goal with
  | |- context [?a <=? ?b] => destruct (Z.leb_spec a b)
  | |- context [?a =? ?b] => destruct (Z.eqb_spec a b)
  | H : context [?a <=? ?b] |- _ => destruct (Z.leb_spec a b)
  end; simpl in *; try done; lia.
Qed.

Lemma rstrip_by_keep (p : ascii → bool) (l ws : list ascii) (h : ascii) :
  p h = false → Forall (λ ch, p ch = true) ws →
  rstrip_by p (l ++ h :: ws) = l ++ [h].
Proof.
  intros Hh Hws. unfold rstrip_by.
  rewrite rev_app_distr. simpl. rewrite <- app_assoc. simpl.
  assert (∀ r, lstrip_by p (rev ws ++ h :: r) = h :: r) as ->.
  { intros r. apply Forall_rev in Hws. 
    induction Hws as [|w ws' Hw _ IH]; simpl; [by rewrite Hh|]. by rewrite Hw. }
  simpl. by rewrite rev_involutive.
Qed.

Lemma decode_chars (raw : string) :
  chars (decode_ascii_ignore raw) = filter (λ c, code c < 128) (chars raw).
Proof. unfold decode_ascii_ignore. apply chars_of_chars. Qed.

(** The decoded and stripped form of a line [$ mid * h1 h2 tail]. *)
Lemma strip_decode_line (mid tail : string) (h1 h2 : ascii) :
  is_0_9_A_F h1 = true → is_0_9_A_F h2 = true →
  Forall (λ ch, unicode_isspace ch = true) (chars tail) →
  chars (strip (decode_ascii_ignore
    ("$" +:+ mid +:+ "*" +:+ String h1 (String h2 tail))))
  = "$"%char :: filter (λ c, code c < 128) (chars mid) ++ ["*"%char; h1; h2].
Proof.
  intros H1 H2 Ht.
  destruct (hex_not_space _ H1) as [_ A1], (hex_not_space _ H2) as [S2 A2].
  unfold is_ascii in *.
  unfold strip. rewrite chars_of_chars, decode_chars, !chars_app.
  change (chars "$") with ["$"%char]. change (chars "*") with ["*"%char].
  change (chars (String h1 (String h2 tail))) with (h1 :: h2 :: chars tail).
  rewrite !filter_app, !filter_cons, filter_nil.
  destruct (decide (code "$" < 128)) as [_|N]; [|by exfalso; apply N].
  destruct (decide (code "*" < 128)) as [_|N]; [|by exfalso; apply N].
  destruct (decide (code h1 < 128)) as [_|N]; [|done].
  destruct (decide (code h2 < 128)) as [_|N]; [|done].
  set (m := filter _ (chars mid)). simpl.
  assert (Forall (λ ch, unicode_isspace ch = true)
            (filter (λ c, code c < 128) (chars tail))) as Hws.
  { apply Forall_forall. intros ch Hin. apply list_elem_of_filter in Hin as [_ Hin].
    by apply (proj1 (Forall_forall _ _) Ht). }
  pose proof (rstrip_by_keep unicode_isspace ("$"%char :: m ++ ["*"%char; h1])
                _ h2 S2 Hws) as Hr.
  simpl in Hr. rewrite <- !app_assoc in Hr. simpl in Hr. exact Hr.
Qed.

Lemma accepted_line_checksum (s : string) (m : list ascii) (h1 h2 : ascii) :
  is_0_9_A_F h2 = true →
  chars s = "$"%char :: m ++ ["*"%char; h1; h2] →
  is_Some (accept s) →
  format_02X (xor_codes m) = String h1 (String h2 EmptyString).
Proof.
  intros H2 Hs [[ts fields] Hacc].
  apply accept_frame in Hacc as (body & hh & (tail & Hc & _ & _ & Hl & _ & He) & Hhh & _).
  rewrite Hs in Hc. injection Hc as Hc.
  apply line_end_last in He as [->|(l & sp & -> & Hsp)].
  - rewrite app_nil_r in Hc.
    change (m ++ ["*"%char; h1; h2]) with (m ++ "*"%char :: [h1; h2]) in Hc.
    assert (m ++ ["*"%char] ++ [h1; h2]
            = (chars ts ++ ","%char :: chars body) ++ ["*"%char] ++ chars hh) as Hc'.
    { simpl. rewrite Hc. rewrite <- !app_assoc. reflexivity. }
    rewrite !app_assoc in Hc'.
    apply app_inj_2 in Hc' as [Hm Hh]; [|by rewrite Hl].
    apply app_inj_tail in Hm as [Hm _].
    rewrite Hm. rewrite Hhh in Hh. rewrite nmea_checksum_xor in Hh.
    rewrite !chars_app in Hh. change (chars ",") with [","%char] in Hh.
    apply chars_inj. symmetry. exact Hh.
  - exfalso. destruct (hex_not_space _ H2) as [S2 _].
    change (m ++ ["*"%char; h1; h2]) with (m ++ ["*"%char; h1] ++ [h2]) in Hc.
    rewrite !app_comm_cons, !app_assoc in Hc.
    apply app_inj_tail in Hc as [_ ->]. congruence.
Qed.

Lemma filter_ascii_cons (c : ascii) (l : list ascii) :
  filter (λ c, code c < 128) (c :: l)
  = (if decide (code c < 128) then [c] else []) ++ filter (λ c, code c < 128) l.
Proof. rewrite filter_cons. by destruct (decide _). Qed.

(** X3. Replacing one character of a text by another always changes its
    checksum. In [main]: when a line made of a dollar sign, a text, a star
    and two hexadecimal digits, with only white space behind them, is
    accepted, the same line with one ASCII character of the text replaced
    by another byte is rejected and leaves no trace. The new byte is ASCII,
    or the old character is not NUL: a byte that is not ASCII is dropped by
    the decoder, which the checksum sees unless the character it stood for
    had code 0. *)
Theorem checksum_detects_one_substitution :
  (∀ (a b : string) (c c' : ascii), c ≠ c' →
     nmea_checksum (a +:+ String c b) ≠ nmea_checksum (a +:+ String c' b))
  ∧ ∀ (human_status json_line : dict → string)
      (format_percent : string → dict → result string)
      (a : args) (l : loop) (clk : clock)
      (x y tail : string) (c c' h1 h2 : ascii),
      let line ch :=
        ("$" +:+ (x +:+ String ch y) +:+ "*"
         +:+ String h1 (String h2 tail))%string in
      is_0_9_A_F h1 = true → is_0_9_A_F h2 = true →
      Forall (λ ch, unicode_isspace ch = true) (chars tail) →
      is_ascii c → c ≠ c' → is_ascii c' ∨ code c ≠ 0 →
      is_Some (accept (strip (decode_ascii_ignore (line c)))) →
      accept (strip (decode_ascii_ignore (line c'))) = None
      ∧ body human_status json_line format_percent a l (line c') clk
        = Continue l [].
Proof.
  split; [apply nmea_checksum_substitution|].
  intros hs jl fp a l clk x y tail c c' h1 h2 line H1 H2 Ht Hc Hne Hc' Hacc.
  assert (accept (strip (decode_ascii_ignore (line c'))) = None) as Hnone.
  { destruct (accept (strip (decode_ascii_ignore (line c')))) as [p|] eqn:E;
      [exfalso|done].
    assert (is_Some (accept (strip (decode_ascii_ignore (line c'))))) as Hacc'
      by (rewrite E; eauto).
    clear E. unfold line in Hacc, Hacc'.
    eapply accepted_line_checksum in Hacc;
      [|done|by apply strip_decode_line].
    eapply accepted_line_checksum in Hacc';
      [|done|by apply strip_decode_line].
    rewrite <- Hacc' in Hacc.
    apply format_02X_inj in Hacc; [|apply xor_codes_range..].
    rewrite !chars_app in Hacc.
    change (chars (String c y)) with (c :: chars y) in Hacc.
    change (chars (String c' y)) with (c' :: chars y) in Hacc.
    rewrite !filter_app, !filter_ascii_cons, !xor_codes_app in Hacc.
    apply (f_equal (Z.lxor (xor_codes (filter (λ c, code c < 128) (chars x)))))
      in Hacc.
    rewrite <- !Z.lxor_assoc, Z.lxor_nilpotent, !Z.lxor_0_l in Hacc.
    apply (f_equal (λ z, Z.lxor z (xor_codes (filter (λ c, code c < 128) (chars y)))))
      in Hacc.
    rewrite !Z.lxor_assoc, Z.lxor_nilpotent, !Z.lxor_0_r in Hacc.
    unfold is_ascii in *. rewrite decide_True in Hacc by done.
    destruct (decide (code c' < 128)) as [Ha|Ha].
    - apply Hne, code_inj. unfold xor_codes in Hacc. simpl in Hacc.
      by rewrite !Z.lxor_0_l in Hacc.
    - destruct Hc' as [?|Hz]; [done|]. apply Hz.
      unfold xor_codes in Hacc. simpl in Hacc. by rewrite Z.lxor_0_l in Hacc. }
  split; [done|]. unfold body.
  destruct (args_once a); unfold loop_body, loop_body_once; by rewrite Hnone.
Qed.

Lemma checksum_detects_one_substitution_witness :
  is_Some (accept (strip (decode_ascii_ignore
     ("$GPRMC,123519,A,4807.038,N,01131.000,E,022.4,084.4,230394,003.1,W*6A"
      +:+ String CR (String LF "")))))
  ∧ body (λ _, "") (λ _, "") (λ _ _, Raise KeyError)
      (Build_args true true false true None false) initial
      ("$GPRMC,123519,A,4807.038,N,01131.000,E,022.4,084.4,230394,003.7,W*6A"
       +:+ String CR (String LF ""))
      clock_1000
    = Continue initial [].
Proof.
  assert (is_Some (accept (strip (decode_ascii_ignore
     ("$GPRMC,123519,A,4807.038,N,01131.000,E,022.4,084.4,230394,003.1,W*6A"
      +:+ String CR (String LF ""))))))
    as H by (vm_compute; eauto).
  split; [exact H|].
  refine (proj2 (proj2 checksum_detects_one_substitution (λ _, "") (λ _, "")
            (λ _ _, Raise KeyError) (Build_args true true false true None false)
            initial clock_1000
            "GPRMC,123519,A,4807.038,N,01131.000,E,022.4,084.4,230394,003."
            ",W" (String CR (String LF "")) "1"%char "7"%char "6"%char "A"%char
            eq_refl eq_refl _ _ _ _ H)).
  - repeat constructor.
  - unfold is_ascii. vm_compute. reflexivity.
  - discriminate.
  - left. unfold is_ascii. vm_compute. reflexivity.
Defined.

(** ** C9: an empty update skips the merge *)

(** Which sentences decode to the empty update. *)
Lemma parse_sentence_nonempty (now : datetime) (ts : string)
    (fields : list string) (u : dict) :
  parse_sentence now ts fields = Ok u →
  u = ∅ ↔
    ¬ recognized (last_n 3 ts)
    ∨ (length fields < min_fields (last_n 3 ts))%nat
    ∨ (last_n 3 ts = "GSV" ∧ isdigit (item fields 2) = false).
Proof.
  intros Hu. split.
  - intros ->.
    destruct (decide (recognized (last_n 3 ts))) as [Hr|Hr]; [|by left].
    destruct (decide (length fields < min_fields (last_n 3 ts))%nat) as [Hl|Hl];
      [by right; left|].
    right; right.
    destruct (parse_sentence_keys _ _ _ _ Hu) as [Hk _].
    specialize (Hk ltac:(lia)).
    unfold recognized in Hr. unfold always_keys in Hk. 
    unfold parse_sentence in Hu.
    repeat (apply elem_of_cons in Hr as [Hr|Hr];
            [rewrite Hr in *; simpl in Hk, Hu|]); [..|by apply elem_of_nil in Hr].
    1-4,6-7: exfalso;
      match type of Hk with
      | ∀ k, k ∈ ?x :: _ → _ =>
          destruct (Hk x ltac:(by left)) as [? Hx]; by rewrite lookup_empty in Hx
      end.
    split; [done|]. unfold parse_GSV in Hu. 
    change (min_fields "GSV") with 3%nat in Hl.
    rewrite bool_decide_eq_true_2 in Hu by lia.
    unfold int_if_digit in Hu. destruct (isdigit (item fields 2)); [|done].
    destruct (int_of_str (item fields 2)); simpl in Hu; [|done].
    unfold set_gsv_entry in Hu. rewrite lookup_empty in Hu. simpl in Hu.
    exfalso. assert (∀ x y : dict, Ok x = Ok y → x = y) as Hinj by congruence.
    apply Hinj in Hu. by apply insert_non_empty in Hu.
  - intros [H|[H|[Htp Hd]]].
    + rewrite parse_sentence_empty in Hu by by left. by injection Hu.
    + rewrite parse_sentence_empty in Hu by by right. by injection Hu.
    + unfold parse_sentence in Hu. rewrite Htp in Hu. simpl in Hu.
      unfold parse_GSV, int_if_digit in Hu. rewrite Hd in Hu. simpl in Hu.
      case_bool_decide; by injection Hu.
Qed.

Lemma decode_and_merge_empty (clk : clock) (st : dict) (ts : string)
    (fields : list string) :
  parse_sentence (utc_now clk) ts fields = Ok ∅ →
  decode_and_merge clk st ts fields = Ok st.
Proof.
  intros H. unfold decode_and_merge. rewrite H. simpl.
  by rewrite bool_decide_eq_false_2 by (intros Hne; by apply Hne).
Qed.




(** ** C2: what a merge can change *)

Lemma null_is_nullable (u : dict) (k : string) :
  well_typed u → u !! k = Some VNone → k ∈ nullable_keys.
Proof.
  intros Hu Hk. destruct (Hu _ _ Hk) as (kd & Hkd & Hv).
  pose proof (assoc_Some_elem _ _ _ Hkd) as Hin. simpl in Hin.
  repeat (apply elem_of_cons in Hin as [->|Hin];
          [vm_compute in Hkd; injection Hkd as <-; first [done | in_list]|]).
  by apply elem_of_nil in Hin.
Qed.

Lemma nullable_is_null (k : string) :
  k ∈ nullable_keys → ∃ u, decoded u ∧ u !! k = Some VNone.
Proof.
  intros Hk. unfold nullable_keys in Hk.
  pose (now := mk_datetime 2026 11 4 0 0 0 0).
  assert (∀ ts fields u, parse_sentence now ts fields = Ok u →
            u !! k = Some VNone → ∃ u, decoded u ∧ u !! k = Some VNone) as H.
  { intros ts fields u Hu Hn. exists u. split; [|done]. by exists now, ts, fields. }
  repeat (apply elem_of_cons in Hk as [->|Hk]);
    [ apply (H "GPVTG" (replicate 7 ""%string) _ eq_refl)
    | apply (H "GPGGA" (replicate 12 ""%string) _ eq_refl)
    | apply (H "GPGGA" (replicate 12 ""%string) _ eq_refl)
    | apply (H "GPGGA" (replicate 12 ""%string) _ eq_refl)
    | apply (H "GPGGA" (replicate 12 ""%string) _ eq_refl)
    | apply (H "GPGGA" (replicate 12 ""%string) _ eq_refl)
    | apply (H "GPGGA" (replicate 12 ""%string) _ eq_refl)
    | apply (H "GPGGA" (replicate 12 ""%string) _ eq_refl)
    | apply (H "GPGSA" (replicate 17 ""%string) _ eq_refl)
    | apply (H "GPGSA" (replicate 17 ""%string) _ eq_refl)
    | apply (H "GPGSA" (replicate 17 ""%string) _ eq_refl)
    | apply (H "GPGST" (replicate 5 ""%string) _ eq_refl)
    | apply (H "GPGST" (replicate 5 ""%string) _ eq_refl)
    | apply (H "GPGST" (replicate 5 ""%string) _ eq_refl)
    | apply (H "GPGST" (replicate 5 ""%string) _ eq_refl)
    | by apply elem_of_nil in Hk ]; vm_compute; reflexivity.
Qed.




(** ** C7: the emission gate *)

Section Gate.

Variable human_status : dict → string.

Variable json_line : dict → string.

Variable format_percent : string → dict → result string.

#[local] Abbreviation body_ := (body human_status json_line format_percent).

#[local] Abbreviation run_ := (run human_status json_line format_percent).

#[local] Abbreviation render_ := (render human_status json_line format_percent).

#[local] Abbreviation iterations_ :=
  (iterations human_status json_line format_percent).

#[local] Abbreviation record_times_ :=
  (record_times human_status json_line format_percent).

Lemma emitted_app (e1 e2 : list event) :
  emitted (e1 ++ e2) = emitted e1 ++ emitted e2.
Proof. apply omap_app. Qed.

Lemma emitted_echo_and_log (a : args) (s : string) :
  emitted (echo_and_log a s) = [].
Proof. unfold echo_and_log. by destruct (args_raw a), (args_log a). Qed.

Lemma drop_outputs (l x : list string) : drop (length l) (l ++ x) = x.
Proof. by rewrite drop_app_length. Qed.

Ltac gate_solve :=
  repeat split; intros; simplify_eq;
  cbn [state last_emit outputs] in *; rewrite ?app_nil_r;
  try done; try (by left); try (by right).

(** One iteration: what it hands over, and when. *)
Lemma body_produced (a : args) (l : loop) (raw : string) (clk : clock) :
  (produced l (body_ a l raw clk) = []
   ∨ ∃ r l',
       produced l (body_ a l raw clk) = [r]
       ∧ outcome_loop (body_ a l raw clk) = Some l'
       ∧ tick (loop_time clk) (last_emit l) = true
       ∧ last_emit l' = loop_time clk
       ∧ render_ a (state l') = Ok (Some r)
       ∧ (args_partial a = false ∨ args_once a = true →
          complete (state l') = true))
  ∧ (∀ l', outcome_loop (body_ a l raw clk) = Some l' →
       (last_emit l' = last_emit l
        ∨ tick (loop_time clk) (last_emit l) = true
          ∧ last_emit l' = loop_time clk)
       ∧ outputs l' = outputs l
                      ++ (if args_once a then produced l (body_ a l raw clk)
                          else []))
  ∧ (if args_once a then emitted (outcome_events (body_ a l raw clk)) = []
     else produced l (body_ a l raw clk)
          = emitted (outcome_events (body_ a l raw clk))
          ∧ ∀ l' evs, body_ a l raw clk ≠ Break l' evs)
  ∧ (∀ l' evs, body_ a l raw clk = Break l' evs →
       tick (loop_time clk) (last_emit l) = true).
Proof.
  unfold body, loop_body, loop_body_once, produced.
  destruct (args_once a) eqn:Honce.
  - destruct (accept _) as [[ts fields]|].
    2:{ cbn -[tick]. rewrite drop_all. gate_solve. }
    destruct (decode_and_merge _ _ _ _) as [st|e].
    2:{ cbn -[tick]. rewrite emitted_echo_and_log. gate_solve. }
    destruct (tick _ _) eqn:Htick.
    2:{ cbn -[tick]. rewrite emitted_echo_and_log, drop_all. gate_solve. }
    destruct (complete st) eqn:Hc.
    2:{ cbn -[tick]. rewrite emitted_echo_and_log, drop_all. gate_solve. }
    destruct (render_ a st) as [o|e] eqn:Hr.
    2:{ cbn -[tick]. rewrite emitted_echo_and_log. gate_solve. }
    cbn [outputs]. 
    assert (∀ b : bool,
      outcome_loop (if b then Break {| state := st; last_emit := loop_time clk;
                                       outputs := outputs l ++ option_list o |}
                      (echo_and_log a (strip (decode_ascii_ignore raw))
                       ++ match o with Some _ => [] | None => [FormatError] end)
                    else Continue {| state := st; last_emit := loop_time clk;
                                     outputs := outputs l ++ option_list o |}
                      (echo_and_log a (strip (decode_ascii_ignore raw))
                       ++ match o with Some _ => [] | None => [FormatError] end))
      = Some {| state := st; last_emit := loop_time clk;
                outputs := outputs l ++ option_list o |}
      ∧ emitted (outcome_events
          (if b then Break {| state := st; last_emit := loop_time clk;
                              outputs := outputs l ++ option_list o |}
                      (echo_and_log a (strip (decode_ascii_ignore raw))
                       ++ match o with Some _ => [] | None => [FormatError] end)
           else Continue {| state := st; last_emit := loop_time clk;
                            outputs := outputs l ++ option_list o |}
                      (echo_and_log a (strip (decode_ascii_ignore raw))
                       ++ match o with Some _ => [] | None => [FormatError] end)))
        = []) as Hb.
    { intros []; cbn; rewrite emitted_app, emitted_echo_and_log; by destruct o. }
    destruct (Hb (bool_decide (2 ≤ length (outputs l ++ option_list o))%nat))
      as [-> ->].
    cbn [outputs app]. rewrite drop_outputs.
    split; [|gate_solve].
    destruct o as [r|]; [right|by left]. exists r. eexists. gate_solve.
  - destruct (accept _) as [[ts fields]|].
    2:{ cbn -[tick]. rewrite drop_all. gate_solve. }
    destruct (decode_and_merge _ _ _ _) as [st|e].
    2:{ cbn -[tick]. rewrite emitted_echo_and_log. gate_solve. }
    destruct (tick _ _) eqn:Htick.
    2:{ cbn -[tick]. rewrite emitted_echo_and_log, drop_all. gate_solve. }
    destruct (args_partial a || complete st) eqn:Hc.
    2:{ cbn -[tick]. rewrite emitted_echo_and_log, drop_all. gate_solve. }
    destruct (render_ a st) as [[r|]|e] eqn:Hr.
    + cbn -[tick]. rewrite emitted_app, emitted_echo_and_log, drop_all.
      split; [|gate_solve]. right. exists r. eexists. gate_solve.
      match goal with H : _ ∨ _ |- _ => destruct H as [H|H] end;
        [by rewrite H in Hc|congruence].
    + cbn -[tick]. rewrite emitted_app, emitted_echo_and_log, drop_all.
      gate_solve.
    + cbn -[tick]. rewrite emitted_echo_and_log. gate_solve.
Qed.

Lemma iterations_body (a : args) (l : loop) (input : list (string * clock))
    (l0 : loop) (clk : clock) (o : outcome) :
  (l0, clk, o) ∈ iterations_ a l input → ∃ raw, o = body_ a l0 raw clk.
Proof.
  revert l. induction input as [|[raw c] rest IH]; intros l Hin; simpl in Hin.
  - by apply elem_of_nil in Hin.
  - apply elem_of_cons in Hin as [[= -> -> ->]|Hin]; [by exists raw|].
    destruct (body_ a l raw c) as [l1 evs1|l1 evs1|e evs1];
      [by eapply IH|by apply elem_of_nil in Hin..].
Qed.

Lemma iterations_gate (a : args) (l : loop) (input : list (string * clock))
    (l0 : loop) (clk : clock) (o : outcome) (r : string) :
  (l0, clk, o) ∈ iterations_ a l input → r ∈ produced l0 o →
  produced l0 o = [r]
  ∧ tick (loop_time clk) (last_emit l0) = true
  ∧ ∃ l', outcome_loop o = Some l'
      ∧ last_emit l' = loop_time clk
      ∧ render_ a (state l') = Ok (Some r)
      ∧ (args_partial a = false ∨ args_once a = true →
         complete (state l') = true).
Proof.
  intros Hin Hr. apply iterations_body in Hin as [raw ->].
  destruct (body_produced a l0 raw clk) as ([Hn|(r' & l' & Hp & Hl & Ht & He & Hrd & Hc)] & _).
  - rewrite Hn in Hr. by apply elem_of_nil in Hr.
  - rewrite Hp in Hr. apply list_elem_of_singleton in Hr as ->.
    split; [done|]. split; [done|]. by exists l'.
Qed.

Lemma spaced_head (t0 t1 : float) (ts : list float) :
  spaced t0 t1 → Sorted spaced (t1 :: ts) → Sorted spaced (t0 :: ts).
Proof.
  intros H01 Hs. apply Sorted_inv in Hs as [Hs Hhd].
  constructor; [done|]. destruct Hhd; constructor. by eapply spaced_more.
Qed.

Lemma record_times_sorted (a : args) (l : loop) (input : list (string * clock)) :
  Sorted spaced (last_emit l :: record_times_ a l input).
Proof.
  unfold record_times. revert l.
  induction input as [|[raw clk] rest IH]; intros l; simpl.
  - repeat constructor.
  - destruct (body_produced a l raw clk) as (Hp & Hl & _ & Hb).
    unfold record_time at 1. cbn [fst snd].
    destruct (body_ a l raw clk) as [l1 evs1|l1 evs1|e evs1] eqn:Hbody.
    + specialize (IH l1). destruct (Hl _ eq_refl) as [Hlast _].
      destruct Hp as [->|(r & l' & -> & [= <-] & Ht & He & _)]; simpl.
      * destruct Hlast as [Hl1|[Ht Hl1]]; rewrite Hl1 in IH; [done|].
        eapply spaced_head; [|done]. by apply spaced_tick.
      * rewrite He in IH. constructor; [done|]. constructor.
        by apply spaced_tick.
    + specialize (Hb _ _ eq_refl).
      destruct (produced l (Break l1 evs1)); simpl; repeat constructor.
      exact Hb.
    + destruct Hp as [->|(r & l' & _ & [=] & _)]. simpl. repeat constructor.
Qed.

(** What the run prints and collects, from its iterations. *)
Lemma run_produced (a : args) (l : loop) (input : list (string * clock)) :
  match run_ a l input with
  | (lf, evs, status) =>
      if args_once a then
        outputs lf
        = outputs l ++ concat (map (λ it, produced it.1.1 it.2)
                                 (iterations_ a l input))
        ∧ emitted evs
          = match status with
            | Finished => option_list (longer (outputs lf))
            | _ => []
            end
      else
        status ≠ Finished
        ∧ outputs lf = outputs l
        ∧ emitted evs
          = concat (map (λ it, produced it.1.1 it.2) (iterations_ a l input))
  end.
Proof.
  revert l. induction input as [|[raw clk] rest IH]; intros l; simpl.
  - destruct (args_once a); by rewrite ?app_nil_r.
  - destruct (body_produced a l raw clk) as (_ & Hl & Ho & _).
    destruct (body_ a l raw clk) as [l1 evs1|l1 evs1|e evs1] eqn:Hbody.
    + specialize (IH l1). destruct (Hl _ eq_refl) as [_ Hout].
      destruct (run_ a l1 rest) as [[lf evs] status].
      destruct (args_once a); simpl in *.
      * destruct IH as [IH1 IH2]. split.
        -- by rewrite IH1, Hout, <- app_assoc.
        -- rewrite emitted_app, Ho. exact IH2.
      * destruct IH as (? & IH1 & IH2), Ho as [Ho _].
        rewrite app_nil_r in Hout. split; [done|]. split.
        -- by rewrite IH1, Hout.
        -- by rewrite emitted_app, IH2, Ho.
    + destruct (args_once a); simpl in *.
      * destruct (Hl _ eq_refl) as [_ ->]. rewrite app_nil_r.
        split; [done|]. rewrite emitted_app, Ho. by destruct (longer _).
      * destruct Ho as [_ Hnb]. by destruct (Hnb l1 evs1).
    + destruct (args_once a); simpl in *.
      * unfold produced. simpl. rewrite Ho. by rewrite !app_nil_r.
      * destruct Ho as [Ho _]. rewrite Ho. by rewrite app_nil_r.
Qed.

Lemma partial_tick_renders (a : args) (l : loop) (raw : string) (clk : clock)
    (ts : string) (fields : list string) (st : dict) :
  args_once a = false → args_partial a = true →
  accept (strip (decode_ascii_ignore raw)) = Some (ts, fields) →
  decode_and_merge clk (state l) ts fields = Ok st →
  tick (loop_time clk) (last_emit l) = true →
  body_ a l raw clk
  = match render_ a st with
    | Ok o =>
        Continue {| state := st; last_emit := loop_time clk;
                    outputs := outputs l |}
          (echo_and_log a (strip (decode_ascii_ignore raw))
           ++ [from_option Emit FormatError o])
    | Raise e => Crash e (echo_and_log a (strip (decode_ascii_ignore raw)))
    end.
Proof.
  intros Honce Hpartial Hacc Hdm Htick. unfold body.
  rewrite Honce. unfold loop_body. rewrite Hacc, Hdm, Htick, Hpartial.
  simpl. by destruct (render_ a st) as [[?|]|?].
Qed.

Lemma render_without_format (a : args) (st : dict) :
  format_given a = None →
  render_ a st = Ok (Some (if args_json a then json_line st else human_status st)).
Proof. intros H. unfold render. rewrite H. by destruct (args_json a). Qed.

End Gate.



